(** * Solana wallet front end: formatting, classification and service facade

    A shallow embedding of the logic of

    - [src/lib/utils.ts] (address truncation, number abbreviation, explorer
      URLs, the fault-swallowing balance helper),
    - [src/unnamed/part_000] (the [SolanaService] connection facade and its
      unit conversions),
    - [src/components/transaction-list.tsx] (transaction classification,
      transfer-form validation, balance formatting),

    together with the JavaScript built-ins that this logic calls
    ([String.prototype.slice], [trim], [includes], [Number], [isNaN],
    [Number.prototype.toFixed], [Number.prototype.toString]).

    Conventions.
    - A JavaScript [number] is an IEEE 754 binary64 value: it is modelled by
      the primitive type [float], whose operations round to nearest, ties to
      even, exactly as ECMAScript prescribes.
    - A JavaScript string is a sequence of code units; it is modelled by
      [string], each [ascii] standing for one code unit below 256.
    - A fallible external call is an oracle returning [inl fault] or
      [inr value]; console output and calls are recorded in a trace. *)

From Stdlib Require Import ZArith QArith Qround Qpower Qabs Qfield String Ascii List Bool
  Lia Lqa Floats DecimalString.
Import ListNotations.

Local Open Scope string_scope.
Local Open Scope Z_scope.

Set Warnings "-inexact-float".

(* ===================================================================== *)
(** * Part I. Definitions                                                 *)
(* ===================================================================== *)

(* --------------------------------------------------------------------- *)
(** ** JavaScript strings *)

Module JSString.

(** [len s] is [s.length]. *)
Definition len (s : string) : Z := Z.of_nat (String.length s).

(** Clamping of a relative index, as in [String.prototype.slice]:
    a negative index counts from the end, and the result is clamped to
    [0 .. len]. *)
Definition clampIndex (l i : Z) : Z :=
  if i <? 0 then Z.max (l + i) 0 else Z.min i l.

(** [slice s start end_] is [s.slice(start, end)]; [end_ = None] is the
    call with the second argument omitted. *)
Definition slice (s : string) (start : Z) (end_ : option Z) : string :=
  let l := len s in
  let from := clampIndex l start in
  let to := match end_ with
            | None => l
            | Some e => clampIndex l e
            end in
  substring (Z.to_nat from) (Z.to_nat (Z.max (to - from) 0)) s.

(** [includes hay needle] is [hay.includes(needle)]. *)
Fixpoint includes (hay needle : string) : bool :=
  prefix needle hay
  || match hay with
     | EmptyString => false
     | String _ hay' => includes hay' needle
     end.

(** White space and line terminators among the code units below 256
    (TAB, LF, VT, FF, CR, SP, NBSP). *)
Definition isWhiteSpace (c : ascii) : bool :=
  match nat_of_ascii c with
  | 9%nat | 10%nat | 11%nat | 12%nat | 13%nat | 32%nat | 160%nat => true
  | _ => false
  end.

Fixpoint trimStart (s : string) : string :=
  match s with
  | EmptyString => EmptyString
  | String c s' => if isWhiteSpace c then trimStart s' else s
  end.

Fixpoint rev (s : string) : string :=
  match s with
  | EmptyString => EmptyString
  | String c s' => rev s' ++ String c EmptyString
  end.

Definition trimEnd (s : string) : string := rev (trimStart (rev s)).

(** [trim s] is [s.trim()]. *)
Definition trim (s : string) : string := trimEnd (trimStart s).

(** Truthiness of a string: only the empty string is falsy. *)
Definition truthy (s : string) : bool :=
  match s with
  | EmptyString => false
  | String _ _ => true
  end.

End JSString.

(* --------------------------------------------------------------------- *)
(** ** JavaScript numbers *)

Module JSNumber.

(** *** Arithmetic on the reals denoted by doubles *)

Definition pow10 (n : Z) : Q := Qpower (10 # 1) n.
Definition pow2 (n : Z) : Q := Qpower (2 # 1) n.

(** The real number denoted by the finite double with mantissa [m] and
    binary exponent [e]. *)
Definition realValue (m : positive) (e : Z) : Q := (inject_Z (Zpos m) * pow2 e)%Q.

Definition Qltb (a b : Q) : bool := negb (Qle_bool b a).

(** Decimal digits of a natural number, most significant first. *)
Definition decimalDigits (n : Z) : string :=
  NilZero.string_of_uint (N.to_uint (Z.to_N n)).

Fixpoint zeros (n : nat) : string :=
  match n with
  | O => ""
  | S n' => String "0" (zeros n')
  end.

Fixpoint zrange (lo : Z) (count : nat) : list Z :=
  match count with
  | O => []
  | S c => lo :: zrange (lo + 1) c
  end.

(** *** Truthiness, [isNaN] and the [x || 0] idiom *)

(** [isNaN(x)] for a number [x]. *)
Definition isNaN (x : float) : bool := PrimFloat.is_nan x.

(** A number is falsy when it is [+0], [-0] or [NaN]. *)
Definition falsy (x : float) : bool := PrimFloat.eqb x 0 || PrimFloat.is_nan x.

(** [x || 0] where [x] is a number or [undefined] ([None]). *)
Definition orZero (x : option float) : float :=
  match x with
  | Some v => if falsy v then 0%float else v
  | None => 0%float
  end.

(** *** [Number::toString] (radix 10) *)

(** [roundsTo m e q]: the real [q] is mapped to the double [m * 2^e] by
    round-to-nearest, ties-to-even.  The lower neighbour is half as far
    away when [m * 2^e] is a power of two above the subnormal range. *)
Definition roundsTo (m : positive) (e : Z) (q : Q) : bool :=
  let x := realValue m e in
  let below := if (Zpos m =? 2 ^ 52) && (-1074 <? e) then pow2 (e - 2) else pow2 (e - 1) in
  let lo := (x - below)%Q in
  let hi := (x + pow2 (e - 1))%Q in
  if Z.even (Zpos m)
  then Qle_bool lo q && Qle_bool q hi
  else Qltb lo q && Qltb q hi.

Definition inDecade (v : Q) (n : Z) : bool :=
  Qle_bool (pow10 (n - 1)) v && Qltb v (pow10 n).

(** The [n] with [10^(n-1) <= v < 10^n] for [v = m * 2^e].  The bit length
    of [v] gives an estimate; a scan of the whole range of the doubles is
    the fallback. *)
Definition decimalExponent (m : positive) (e : Z) : Z :=
  let v := realValue m e in
  let est := (Z.log2 (Zpos m) + e) * 1233 / 4096 in
  match find (inDecade v) (zrange (est - 1) 5) with
  | Some n => n
  | None =>
      match find (inDecade v) (zrange (-330) 645) with
      | Some n => n
      | None => 315
      end
  end.

(** The decimals with [k] significant digits on either side of
    [v = m * 2^e], as pairs [(s, n)] denoting [s * 10^(n-k)], that round
    to [v]; the closer one first and, when both are as close, the one
    with the even [s] first. *)
Definition candidates (m : positive) (e : Z) (n k : Z) : list (Z * Z) :=
  let v := realValue m e in
  let u := pow10 (n - k) in
  let s := Qfloor (v / u)%Q in
  let lowQ := (inject_Z s * u)%Q in
  let highQ := (inject_Z (s + 1) * u)%Q in
  let low := (s, n) in
  let high := if s + 1 =? 10 ^ k then (10 ^ (k - 1), n + 1) else (s + 1, n) in
  let lowFirst :=
    match ((v - lowQ) ?= (highQ - v))%Q with
    | Lt => true
    | Eq => Z.even s
    | Gt => false
    end in
  let ordered :=
    if lowFirst then [(lowQ, low); (highQ, high)]
    else [(highQ, high); (lowQ, low)] in
  map snd (filter (fun c => roundsTo m e (fst c)) ordered).

Fixpoint firstCandidate (m : positive) (e : Z) (n : Z) (ks : list Z) : option (Z * Z) :=
  match ks with
  | [] => None
  | k :: ks' =>
      match candidates m e n k with
      | c :: _ => Some c
      | [] => firstCandidate m e n ks'
      end
  end.

(** The integers [s] and [n] of Number::toString: with the fewest digits
    [k], [s * 10^(n-k)] rounds to the double (17 digits always do). *)
Definition shortestDecimal (m : positive) (e : Z) : Z * Z :=
  let n := decimalExponent m e in
  match firstCandidate m e n (zrange 1 17) with
  | Some c => c
  | None => (Qfloor (realValue m e / pow10 (n - 17))%Q, n)
  end.

Definition exponentPart (n : Z) : string :=
  "e" ++ (if n - 1 <? 0 then "-" else "+") ++ decimalDigits (Z.abs (n - 1)).

(** The layout rules of Number::toString for the digit string of [s] and
    the decimal exponent [n]. *)
Definition formatDecimal (digits : string) (n : Z) : string :=
  let k := Z.of_nat (String.length digits) in
  if (k <=? n) && (n <=? 21) then digits ++ zeros (Z.to_nat (n - k))
  else if (0 <? n) && (n <=? 21) then
    substring 0 (Z.to_nat n) digits ++ "."
    ++ substring (Z.to_nat n) (Z.to_nat (k - n)) digits
  else if (-6 <? n) && (n <=? 0) then
    "0." ++ zeros (Z.to_nat (- n)) ++ digits
  else if k =? 1 then digits ++ exponentPart n
  else substring 0 1 digits ++ "." ++ substring 1 (Z.to_nat (k - 1)) digits
       ++ exponentPart n.

(** [Number::toString(x)] in radix 10: [String(x)], [x.toString()]. *)
Definition toString (x : float) : string :=
  match Prim2SF x with
  | S754_nan => "NaN"
  | S754_zero _ => "0"
  | S754_infinity s => (if s then "-" else "") ++ "Infinity"
  | S754_finite s m e =>
      let '(d, n) := shortestDecimal m e in
      (if s then "-" else "") ++ formatDecimal (decimalDigits d) n
  end.

(** *** [Number.prototype.toFixed] *)

(** The integer [n] for which [n / 10^f - x] is closest to zero, the larger
    one when there are two. *)
Definition nearestScaled (x : Q) (f : nat) : Z :=
  Qfloor (x * pow10 (Z.of_nat f) + (1 # 2))%Q.

(** The digits of [n] with a decimal point before the last [f] of them,
    padded with zeros on the left to at least [f + 1] digits. *)
Definition fixedDigits (n : Z) (f : nat) : string :=
  let m := decimalDigits n in
  if (f =? 0)%nat then m
  else
    let k := String.length m in
    let m := if (k <=? f)%nat then zeros (f + 1 - k) ++ m else m in
    let k := String.length m in
    substring 0 (k - f) m ++ "." ++ substring (k - f) f m.

(** [x.toFixed(f)] for [0 <= f <= 100] (every call in the sources passes a
    literal 2, 4 or 6). *)
Definition toFixed (x : float) (f : nat) : string :=
  match Prim2SF x with
  | S754_nan | S754_infinity _ => toString x
  | S754_zero _ => fixedDigits 0 f
  | S754_finite s m e =>
      let r := realValue m e in
      (if s then "-" else "")
      ++ (if Qle_bool (pow10 21) r then toString (abs x)
          else fixedDigits (nearestScaled r f) f)
  end.

(** *** [ToIntegerOrInfinity] *)

Inductive IntegerOrInfinity : Type :=
| Finite (n : Z)
| PlusInfinity
| MinusInfinity.

(** [ToIntegerOrInfinity(x)]: [NaN] and the zeros give 0, a finite number
    is truncated towards zero. *)
Definition ToIntegerOrInfinity (x : float) : IntegerOrInfinity :=
  match Prim2SF x with
  | S754_nan | S754_zero _ => Finite 0
  | S754_infinity s => if s then MinusInfinity else PlusInfinity
  | S754_finite s m e => Finite (cond_Zopp s (Z.shiftl (Z.pos m) e))
  end.

(** *** [Number(s)] for a string [s] (StringToNumber) *)

(** Value of a digit in the given radix, [None] when the code unit is
    not a digit of that radix. *)
Definition digitValue (radix : Z) (c : ascii) : option Z :=
  let n := Z.of_nat (nat_of_ascii c) in
  let d := if (48 <=? n) && (n <=? 57) then n - 48
           else if (97 <=? n) && (n <=? 102) then n - 87
           else if (65 <=? n) && (n <=? 70) then n - 55
           else 16 in
  if d <? radix then Some d else None.

(** Reads the longest run of digits: its value (continuing [acc]), how
    many digits were read, and the rest of the text. *)
Fixpoint readDigits (radix : Z) (s : string) (acc : Z) (count : Z) : Z * Z * string :=
  match s with
  | EmptyString => (acc, count, s)
  | String c s' =>
      match digitValue radix c with
      | Some d => readDigits radix s' (radix * acc + d) (count + 1)
      | None => (acc, count, s)
      end
  end.

(** The double nearest to [(-1)^neg * m * 10^x] (round to nearest, ties to
    even), for [m >= 0]. *)
Definition roundDecimal (neg : bool) (m x : Z) : float :=
  if m =? 0 then (if neg then (-0)%float else 0%float)
  else if 0 <=? x then
    SF2Prim (binary_normalize prec emax (cond_Zopp neg (m * 10 ^ x)) 0 false)
  else
    SF2Prim (SFdiv prec emax (S754_finite neg (Z.to_pos m) 0)
               (S754_finite false (Z.to_pos (10 ^ (- x))) 0)).

Definition splitSign (s : string) : bool * string :=
  match s with
  | String "+" t => (false, t)
  | String "-" t => (true, t)
  | _ => (false, s)
  end.

(** SignedInteger of an ExponentPart: [None] when the text is not exactly
    an optionally signed run of digits. *)
Definition signedInteger (s : string) : option Z :=
  let '(neg, body) := splitSign s in
  let '(v, count, rest) := readDigits 10 body 0 0 in
  if (0 <? count) && (rest =? "")%string then Some (cond_Zopp neg v) else None.

(** StrUnsignedDecimalLiteral other than [Infinity]: the mantissa and the
    decimal exponent of its mathematical value. *)
Definition unsignedDecimal (s : string) : option (Z * Z) :=
  let '(i, ni, rest) := readDigits 10 s 0 0 in
  let '(m, nf, rest) :=
    match rest with
    | String "." t => readDigits 10 t i 0
    | _ => (i, 0, rest)
    end in
  if ni + nf =? 0 then None
  else
    match rest with
    | EmptyString => Some (m, - nf)
    | String c t =>
        if (c =? "e")%char || (c =? "E")%char then
          match signedInteger t with
          | Some x => Some (m, x - nf)
          | None => None
          end
        else None
    end.

Definition strDecimalLiteral (s : string) : float :=
  let '(neg, body) := splitSign s in
  if (body =? "Infinity")%string then (if neg then neg_infinity else infinity)
  else
    match unsignedDecimal body with
    | Some (m, x) => roundDecimal neg m x
    | None => nan
    end.

Definition nonDecimalInteger (radix : Z) (body : string) : float :=
  let '(v, count, rest) := readDigits radix body 0 0 in
  if (0 <? count) && (rest =? "")%string then roundDecimal false v 0 else nan.

(** [Number(s)]: white space is trimmed, the empty text is [+0], text that
    is not a StrNumericLiteral is [NaN]. *)
Definition StringToNumber (s : string) : float :=
  match JSString.trim s with
  | EmptyString => 0%float
  | String "0" (String c body) as t =>
      if (c =? "x")%char || (c =? "X")%char then nonDecimalInteger 16 body
      else if (c =? "o")%char || (c =? "O")%char then nonDecimalInteger 8 body
      else if (c =? "b")%char || (c =? "B")%char then nonDecimalInteger 2 body
      else strDecimalLiteral t
  | t => strDecimalLiteral t
  end.

(** *** [n % d] (Number::remainder) *)

(** The remainder of the truncating division of the exact values: it has
    the sign of the dividend, and is computed on the two mantissas
    brought to the smaller of the two exponents. *)
Definition remainder (n d : float) : float :=
  match Prim2SF n, Prim2SF d with
  | S754_nan, _ | _, S754_nan => nan
  | S754_infinity _, _ => nan
  | _, S754_infinity _ => n
  | _, S754_zero _ => nan
  | S754_zero _, _ => n
  | S754_finite sn mn en, S754_finite _ md ed =>
      let e := Z.min en ed in
      let r := Z.rem (Z.pos mn * 2 ^ (en - e)) (Z.pos md * 2 ^ (ed - e)) in
      if r =? 0 then (if sn then (-0)%float else 0%float)
      else SF2Prim (binary_normalize prec emax (cond_Zopp sn r) e false)
  end.

End JSNumber.

(** [LAMPORTS_PER_SOL] of the SDK. *)
Definition LAMPORTS_PER_SOL : float := 1000000000%float.

(* --------------------------------------------------------------------- *)
(** ** Effects: thrown values, external calls, the console *)

Module Effects.

(** A thrown value: an [Error] object with its message, or any other
    value (here its printed form). *)
Inductive Thrown : Type :=
| ErrorObj (message : string)
| OtherValue (printed : string).

(** [error instanceof Error ? error.message : fallback]. *)
Definition messageOr (fallback : string) (error : Thrown) : string :=
  match error with
  | ErrorObj message => message
  | OtherValue _ => fallback
  end.

(** What an execution leaves behind: the external calls that were
    answered while it ran, in the order of the answers, each with the
    fault it ended in (if any), and the lines written with
    [console.error]. *)
Inductive Event : Type :=
| EvCall (method : string) (fault : option Thrown)
| EvConsoleError (label : string) (error : Thrown).

Definition faultOf {A : Type} (r : Thrown + A) : option Thrown :=
  match r with
  | inl f => Some f
  | inr _ => None
  end.

Section Monad.
(** The state of everything outside the program (ledger, RPC node,
    wallet). *)
Variable World : Type.

Record State : Type := mkState { world : World; trace : list Event }.

(** An awaited external operation: it may fault, and it may change the
    outside world. *)
Definition Oracle (A : Type) : Type := World -> (Thrown + A) * World.

(** A computation either throws or returns, and updates the state. *)
Definition M (A : Type) : Type := State -> (Thrown + A) * State.

Definition ret {A : Type} (a : A) : M A := fun st => (inr a, st).

Definition throw {A : Type} (e : Thrown) : M A := fun st => (inl e, st).

Definition bind {A B : Type} (c : M A) (k : A -> M B) : M B :=
  fun st =>
    match c st with
    | (inl e, st') => (inl e, st')
    | (inr a, st') => k a st'
    end.

(** [try { body } catch (error) { handler }]. *)
Definition tryCatch {A : Type} (body : M A) (handler : Thrown -> M A) : M A :=
  fun st =>
    match body st with
    | (inl e, st') => handler e st'
    | (inr a, st') => (inr a, st')
    end.

(** [await] of an external call. *)
Definition call {A : Type} (method : string) (o : Oracle A) : M A :=
  fun st =>
    let '(r, w) := o (world st) in
    (r, mkState w (trace st ++ [EvCall method (faultOf r)])).

(** A synchronous SDK computation that may throw. *)
Definition lift {A : Type} (r : Thrown + A) : M A := fun st => (r, st).

(** [console.error(label, error)]. *)
Definition consoleError (label : string) (error : Thrown) : M unit :=
  fun st => (inr tt, mkState (world st) (trace st ++ [EvConsoleError label error])).

(** [await Promise.all(xs.map(async x => f x))], where every [f x]
    awaits one external call.  Mapping the array starts all the calls;
    each of them is then answered when the outside world chooses to.  A
    slot of the array of promises holds what its call was started with
    while the promise is pending ([inl]), and the value once the promise
    is fulfilled ([inr]). *)

(** The promise at position [i] settles: its call is answered now.  A
    rejection is thrown; a position that is not pending is left alone. *)
Fixpoint settleAt {A B : Type} (f : A -> M B) (i : nat) (slots : list (A + B))
  : M (list (A + B)) :=
  match slots, i with
  | [], _ => ret []
  | inl x :: rest, O => bind (f x) (fun b => ret (inr b :: rest))
  | inr b :: rest, O => ret (inr b :: rest)
  | slot :: rest, S i' => bind (settleAt f i' rest) (fun rest' => ret (slot :: rest'))
  end.

(** The promises still pending settle in the order they were started,
    up to the first rejection; the values are those of all the slots. *)
Fixpoint settleRest {A B : Type} (f : A -> M B) (slots : list (A + B)) : M (list B) :=
  match slots with
  | [] => ret []
  | inl x :: rest =>
      bind (f x) (fun b => bind (settleRest f rest) (fun bs => ret (b :: bs)))
  | inr b :: rest => bind (settleRest f rest) (fun bs => ret (b :: bs))
  end.

(** The promises settle at the positions listed in [order], one after the
    other, then the rest of them.  The first rejection in time is thrown
    at once, the promises after it being still pending: they are awaited
    no further, and what they do later is no part of the state returned.
    When every promise is fulfilled the values are returned in the order
    of the array, whatever the order they came in. *)
Fixpoint settleInOrder {A B : Type} (f : A -> M B) (order : list nat)
    (slots : list (A + B)) : M (list B) :=
  match order with
  | [] => settleRest f slots
  | i :: order' =>
      bind (settleAt f i slots) (fun slots' => settleInOrder f order' slots')
  end.

Definition promiseAll {A B : Type} (f : A -> M B) (xs : list A) (order : list nat)
  : M (list B) :=
  settleInOrder f order (map inl xs).

End Monad.

Arguments mkState {World}.
Arguments world {World}.
Arguments trace {World}.
Arguments ret {World A}.
Arguments throw {World A}.
Arguments bind {World A B}.
Arguments tryCatch {World A}.
Arguments call {World A}.
Arguments lift {World A}.
Arguments consoleError {World}.
Arguments settleAt {World A B}.
Arguments settleRest {World A B}.
Arguments settleInOrder {World A B}.
Arguments promiseAll {World A B}.

Module Notations.
Notation "x <- c ;; k" := (bind c (fun x => k))
  (at level 61, c at next level, right associativity).
Notation "c ;;; k" := (bind c (fun _ => k))
  (at level 61, right associativity).
End Notations.

End Effects.

(* --------------------------------------------------------------------- *)
(** ** The SDK as seen by the sources *)

Module Sdk.
Import Effects.

(** An entry of [getSignaturesForAddress]. *)
Record ConfirmedSignatureInfo : Type := mkSignatureInfo {
  sig_signature : string;
  sig_slot : float;
  sig_blockTime : option float
}.

(** The answer of [getLatestBlockhash]. *)
Record BlockhashWithExpiryBlockHeight : Type := mkLatestBlockhash {
  lb_blockhash : string;
  lb_lastValidBlockHeight : float
}.

Section Connection.
Variables World PublicKey AccountInfo SdkTransaction Signer
          TransactionResponse EpochInfo : Type.

(** The methods of [Connection] that the sources await. *)
Record Connection : Type := mkConnection {
  conn_getBalance : PublicKey -> Oracle World float;
  conn_getAccountInfo : PublicKey -> Oracle World AccountInfo;
  conn_sendTransaction : SdkTransaction -> list Signer -> Oracle World string;
  conn_confirmTransaction : string -> string -> Oracle World unit;
  conn_getLatestBlockhash : Oracle World BlockhashWithExpiryBlockHeight;
  conn_getSignaturesForAddress :
    PublicKey -> float -> Oracle World (list ConfirmedSignatureInfo);
  conn_getTransaction : string -> Oracle World TransactionResponse;
  conn_getSlot : Oracle World float;
  conn_getEpochInfo : Oracle World EpochInfo
}.
End Connection.

Arguments conn_getBalance {_ _ _ _ _ _ _}.
Arguments conn_getAccountInfo {_ _ _ _ _ _ _}.
Arguments conn_sendTransaction {_ _ _ _ _ _ _}.
Arguments conn_confirmTransaction {_ _ _ _ _ _ _}.
Arguments conn_getLatestBlockhash {_ _ _ _ _ _ _}.
Arguments conn_getSignaturesForAddress {_ _ _ _ _ _ _}.
Arguments conn_getTransaction {_ _ _ _ _ _ _}.
Arguments conn_getSlot {_ _ _ _ _ _ _}.
Arguments conn_getEpochInfo {_ _ _ _ _ _ _}.

End Sdk.

(* --------------------------------------------------------------------- *)
(** ** [src/lib/utils.ts] *)

Module Utils.
Import JSString JSNumber Effects Effects.Notations Sdk.

(** [formatAddress(address, chars = 4)]. *)
Definition formatAddress (address : string) (chars : Z) : string :=
  if negb (truthy address) then ""
  else slice address 0 (Some chars) ++ "..." ++ slice address (- chars) None.

(** [formatNumber(num)]. *)
Definition formatNumber (num : float) : string :=
  if (1e9 <=? num)%float then toFixed (num / 1e9) 2 ++ "B"
  else if (1e6 <=? num)%float then toFixed (num / 1e6) 2 ++ "M"
  else if (1e3 <=? num)%float then toFixed (num / 1e3) 2 ++ "K"
  else toString num.

(** The union type ["mainnet-beta" | "devnet" | "testnet"]. *)
Inductive Cluster : Set := MainnetBeta | Devnet | Testnet.

Definition clusterName (c : Cluster) : string :=
  match c with
  | MainnetBeta => "mainnet-beta"
  | Devnet => "devnet"
  | Testnet => "testnet"
  end.

(** [getExplorerUrl(signature, cluster = "mainnet-beta")]. *)
Definition getExplorerUrl (signature : string) (cluster : Cluster) : string :=
  let baseUrl :=
    if (clusterName cluster =? "mainnet-beta")%string
    then "https://explorer.solana.com"
    else "https://explorer.solana.com?cluster=" ++ clusterName cluster in
  baseUrl ++ "/tx/" ++ signature.

(** [getAccountExplorerUrl(address, cluster = "mainnet-beta")]. *)
Definition getAccountExplorerUrl (address : string) (cluster : Cluster) : string :=
  let baseUrl :=
    if (clusterName cluster =? "mainnet-beta")%string
    then "https://explorer.solana.com"
    else "https://explorer.solana.com?cluster=" ++ clusterName cluster in
  baseUrl ++ "/account/" ++ address.

Section GetBalance.
Context {World PublicKey AccountInfo SdkTransaction Signer
         TransactionResponse EpochInfo : Type}.
Let Connection := Connection World PublicKey AccountInfo SdkTransaction
                    Signer TransactionResponse EpochInfo.

(** The free helper [getBalance(connection, publicKey)]. *)
Definition getBalance (connection : Connection) (publicKey : PublicKey)
  : M World float :=
  tryCatch
    (call "getBalance" (conn_getBalance connection publicKey))
    (fun error =>
       consoleError "Error fetching balance:" error ;;;
       ret 0%float).
End GetBalance.

(** [formatSOL(lamports)]. *)
Definition formatSOL (lamports : float) : string :=
  toFixed (lamports / LAMPORTS_PER_SOL) 4.

(** [truncateText(text, maxLength)]. *)
Definition truncateText (text : string) (maxLength : Z) : string :=
  if len text <=? maxLength then text
  else slice text 0 (Some maxLength) ++ "...".

End Utils.

(* --------------------------------------------------------------------- *)
(** ** [src/unnamed/part_000]: the [SolanaService] facade *)

Module Service.
Import JSString JSNumber Effects Effects.Notations Sdk.

(** An element of the result of [getTransactionHistory]. *)
Record HistoryEntry (TransactionResponse : Type) : Type := mkHistoryEntry {
  h_signature : string;
  h_slot : float;
  h_blockTime : option float;
  h_transaction : TransactionResponse
}.
Arguments mkHistoryEntry {TransactionResponse}.

Section SolanaService.
Context {World PublicKey AccountInfo SdkTransaction Signer
         TransactionResponse EpochInfo : Type}.
Let Connection := Connection World PublicKey AccountInfo SdkTransaction
                    Signer TransactionResponse EpochInfo.

(** [this.connection]. *)
Variable connection : Connection.

(** [new Transaction().add(SystemProgram.transfer({fromPubkey, toPubkey,
    lamports}))], which throws on arguments the SDK cannot encode. *)
Variable transferTransaction :
  PublicKey -> PublicKey -> float -> Thrown + SdkTransaction.

Definition getBalance (publicKey : PublicKey) : M World float :=
  tryCatch
    (balance <- call "getBalance" (conn_getBalance connection publicKey) ;;
     ret (balance / LAMPORTS_PER_SOL)%float)
    (fun error =>
       consoleError "Error fetching balance:" error ;;;
       throw (ErrorObj "Failed to fetch balance")).

Definition getAccountInfo (publicKey : PublicKey) : M World AccountInfo :=
  tryCatch
    (call "getAccountInfo" (conn_getAccountInfo connection publicKey))
    (fun error =>
       consoleError "Error fetching account info:" error ;;;
       throw (ErrorObj "Failed to fetch account info")).

Definition sendTransaction (transaction : SdkTransaction) (signers : list Signer)
  : M World string :=
  tryCatch
    (signature <- call "sendTransaction"
                    (conn_sendTransaction connection transaction signers) ;;
     call "confirmTransaction"
       (conn_confirmTransaction connection signature "confirmed") ;;;
     ret signature)
    (fun error =>
       consoleError "Error sending transaction:" error ;;;
       throw (ErrorObj "Failed to send transaction")).

Definition transferSol (fromPubkey toPubkey : PublicKey) (lamports : float)
    (signer : Signer) : M World string :=
  tryCatch
    (transaction <- lift (transferTransaction fromPubkey toPubkey lamports) ;;
     signature <- call "sendTransaction"
                    (conn_sendTransaction connection transaction [signer]) ;;
     call "confirmTransaction"
       (conn_confirmTransaction connection signature "confirmed") ;;;
     ret signature)
    (fun error =>
       consoleError "Error transferring SOL:" error ;;;
       throw (ErrorObj "Failed to transfer SOL")).

Definition getRecentBlockhash : M World string :=
  tryCatch
    (latest <- call "getLatestBlockhash" (conn_getLatestBlockhash connection) ;;
     let blockhash := lb_blockhash latest in
     ret blockhash)
    (fun error =>
       consoleError "Error fetching recent blockhash:" error ;;;
       throw (ErrorObj "Failed to fetch recent blockhash")).

(** The [async (sig) => ...] callback of [getTransactionHistory]. *)
Definition fetchEntry (sig : ConfirmedSignatureInfo)
  : M World (HistoryEntry TransactionResponse) :=
  tx <- call "getTransaction"
          (conn_getTransaction connection (sig_signature sig)) ;;
  ret (mkHistoryEntry (sig_signature sig) (sig_slot sig) (sig_blockTime sig) tx).

(** [order] is no argument of the method: it is the order in which the
    network answers the lookups of this run. *)
Definition getTransactionHistory (publicKey : PublicKey) (limit : float)
    (order : list nat) : M World (list (HistoryEntry TransactionResponse)) :=
  tryCatch
    (signatures <- call "getSignaturesForAddress"
                     (conn_getSignaturesForAddress connection publicKey limit) ;;
     promiseAll fetchEntry signatures order)
    (fun error =>
       consoleError "Error fetching transaction history:" error ;;;
       throw (ErrorObj "Failed to fetch transaction history")).

Definition getSlot : M World float :=
  tryCatch
    (call "getSlot" (conn_getSlot connection))
    (fun error =>
       consoleError "Error fetching slot:" error ;;;
       throw (ErrorObj "Failed to fetch slot")).

Definition getEpochInfo : M World EpochInfo :=
  tryCatch
    (call "getEpochInfo" (conn_getEpochInfo connection))
    (fun error =>
       consoleError "Error fetching epoch info:" error ;;;
       throw (ErrorObj "Failed to fetch epoch info")).

End SolanaService.

(** The two unit conversions are a division and a multiplication by
    [LAMPORTS_PER_SOL]; they are written once over the arithmetic they
    use, so that they can be read over the doubles (the code) and over
    the rationals (exact arithmetic). *)
Section UnitConversion.
Context {num : Type}.
Variables (mul div : num -> num -> num) (lamportsPerSol : num).

Definition lamportsToSolOver (lamports : num) : num := div lamports lamportsPerSol.
Definition solToLamportsOver (sol : num) : num := mul sol lamportsPerSol.
End UnitConversion.

(** [lamportsToSol(lamports)] and [solToLamports(sol)] as the code runs
    them, on doubles. *)
Definition lamportsToSol : float -> float :=
  lamportsToSolOver PrimFloat.div LAMPORTS_PER_SOL.
Definition solToLamports : float -> float :=
  solToLamportsOver PrimFloat.mul LAMPORTS_PER_SOL.

(** The same two expressions over exact rational arithmetic. *)
Definition lamportsToSolExact : Q -> Q := lamportsToSolOver Qdiv (1000000000 # 1).
Definition solToLamportsExact : Q -> Q := solToLamportsOver Qmult (1000000000 # 1).

(** [formatPublicKey(publicKey, chars = 4)]. *)
Definition formatPublicKey (publicKey : string) (chars : Z) : string :=
  if negb (truthy publicKey) then ""
  else slice publicKey 0 (Some chars) ++ "..." ++ slice publicKey (- chars) None.

(** [formatSolAmount(amount, decimals = 4)]: [toFixed] first converts
    its argument with [ToIntegerOrInfinity], and throws a [RangeError]
    when the result is not finite, below 0 or above 100, whatever the
    number to print is. *)
Definition formatSolAmount (amount decimals : float) : Thrown + string :=
  match ToIntegerOrInfinity decimals with
  | Finite f =>
      if (f <? 0) || (100 <? f)
      then inl (ErrorObj "toFixed() digits argument must be between 0 and 100")
      else inr (toFixed amount (Z.to_nat f))
  | PlusInfinity | MinusInfinity =>
      inl (ErrorObj "toFixed() digits argument must be between 0 and 100")
  end.

(** [shortenSignature(signature, chars = 8)]. *)
Definition shortenSignature (signature : string) (chars : Z) : string :=
  if negb (truthy signature) then ""
  else slice signature 0 (Some chars) ++ "..." ++ slice signature (- chars) None.

End Service.

(* --------------------------------------------------------------------- *)
(** ** [src/components/transaction-list.tsx]: the transaction list *)

Module TransactionList.
Import JSString JSNumber Sdk.

Inductive TransactionError : Type :=
| ErrObject
| ErrString (s : string).

(** An entry of [preTokenBalances]. *)
Record TokenBalance : Type := mkTokenBalance {
  tb_accountIndex : float;
  tb_mint : string
}.

Record ParsedTransactionMeta : Type := mkMeta {
  meta_fee : float;
  meta_preBalances : list float;
  meta_postBalances : list float;
  meta_preTokenBalances : option (list TokenBalance);
  meta_err : option TransactionError
}.

(** An instruction of the message; [ix_programId] is the string form of
    its [programId] when the instruction has that key. *)
Record ParsedInstruction : Type := mkInstruction {
  ix_programId : option string
}.

Record ParsedTransactionWithMeta : Type := mkParsedTransaction {
  tx_meta : option ParsedTransactionMeta;
  tx_instructions : list ParsedInstruction
}.

Inductive TransactionType : Set := sent | received | swap | stake | unknown.
Inductive TransactionStatus : Set := success | failed.

(** [interface Transaction]. *)
Record Transaction : Type := mkTransaction {
  signature : string;
  slot : float;
  blockTime : option float;
  fee : float;
  status : TransactionStatus;
  type : TransactionType;
  amount : float;
  token : string;
  from : option string;
  to : option string
}.

(** [meta?.field] for an array field, then [[0]]. *)
Definition firstOf (meta : option ParsedTransactionMeta)
    (field : ParsedTransactionMeta -> list float) : option float :=
  match meta with
  | Some m => nth_error (field m) 0
  | None => None
  end.

(** Truthiness of [meta?.err]. *)
Definition errTruthy (meta : option ParsedTransactionMeta) : bool :=
  match meta with
  | Some m =>
      match meta_err m with
      | Some ErrObject => true
      | Some (ErrString s) => truthy s
      | None => false
      end
  | None => false
  end.

(** The body of the [.map((tx, index) => ...)] callback of
    [fetchTransactions]; [signature] is [signatures[index]] and
    [publicKey] the string form of the wallet's key. *)
Definition parseTransaction (publicKey : string)
    (signature : ConfirmedSignatureInfo) (tx : ParsedTransactionWithMeta)
  : Transaction :=
  let meta := tx_meta tx in
  let preBalance := orZero (firstOf meta meta_preBalances) in
  let postBalance := orZero (firstOf meta meta_postBalances) in
  let balanceChange := (postBalance - preBalance)%float in
  let fee := orZero (option_map meta_fee meta) in
  let type := unknown in
  let amount := (abs balanceChange / 1e9)%float in
  let token := "SOL" in
  let '(type, amount) :=
    if (0 <? balanceChange)%float then (received, amount)
    else if (balanceChange <? 0)%float
         then (sent, (abs (balanceChange + fee) / 1e9)%float)
         else (type, amount) in
  (* Check for token transfers *)
  let tokenTransfers :=
    match meta with
    | Some m => match meta_preTokenBalances m with Some l => l | None => [] end
    | None => []
    end in
  let '(type, token) :=
    if (0 <? Z.of_nat (List.length tokenTransfers)) then (swap, "TOKEN")
    else (type, token) in
  (* Check for stake instructions *)
  let instructions := tx_instructions tx in
  let hasStakeInstruction :=
    existsb (fun ix =>
               match ix_programId ix with
               | Some programId => includes programId "Stake"
               | None => false
               end) instructions in
  let type := if hasStakeInstruction then stake else type in
  {| signature := sig_signature signature;
     slot := orZero (Some (sig_slot signature));
     blockTime := sig_blockTime signature;
     fee := (fee / 1e9)%float;
     status := if errTruthy meta then failed else success;
     type := type;
     amount := amount;
     token := token;
     from := Some publicKey;
     to := Some "Unknown" |}.

(** [List.mapi]. *)
Fixpoint mapWithIndex {A B : Type} (f : A -> nat -> option B) (index : nat)
    (xs : list A) : option (list B) :=
  match xs with
  | [] => Some []
  | x :: xs' =>
      match f x index, mapWithIndex f (S index) xs' with
      | Some y, Some ys => Some (y :: ys)
      | _, _ => None
      end
  end.

(** [txs.filter(tx => tx !== null).map((tx, index) => ...)]: the records
    shown after a fetch.  The index counts the transactions kept by the
    filter; [None] stands for the [TypeError] of reading a field of
    [signatures[index]] when it is [undefined]. *)
Definition parsedTransactions (publicKey : string)
    (signatures : list ConfirmedSignatureInfo)
    (txs : list (option ParsedTransactionWithMeta)) : option (list Transaction) :=
  let kept := flat_map (fun tx => match tx with Some t => [t] | None => [] end) txs in
  mapWithIndex
    (fun tx index =>
       option_map (fun signature => parseTransaction publicKey signature tx)
         (nth_error signatures index))
    0%nat kept.

(** [formatAmount(amount, token)]. *)
Definition formatAmount (amount : float) (token : string) : string :=
  toFixed amount 4 ++ " " ++ token.

(** The component's [useState] cells. *)
Record ListState : Type := mkListState {
  transactions : list Transaction;
  loading : bool;
  error : option string
}.

Definition setTransactions (l : list Transaction) (st : ListState) : ListState :=
  mkListState l (loading st) (error st).
Definition setLoading (b : bool) (st : ListState) : ListState :=
  mkListState (transactions st) b (error st).
Definition setError (e : option string) (st : ListState) : ListState :=
  mkListState (transactions st) (loading st) e.

Section Component.
Import Effects Effects.Notations.
Context {World PublicKey AccountInfo SdkTransaction Signer
         TransactionResponse EpochInfo : Type}.
Let Connection := Connection World PublicKey AccountInfo SdkTransaction
                    Signer TransactionResponse EpochInfo.

(** The component's [connection], with the one method of it that the
    facade does not use: [getParsedTransactions(signatures, config)]. *)
Variable connection : Connection.
Variable getParsedTransactions :
  list string -> Oracle World (list (option ParsedTransactionWithMeta)).

(** [useWallet()], the [limit] property, and [publicKey.toString()]. *)
Variable publicKey : option PublicKey.
Variable connected : bool.
Variable limit : float.
Variable keyToString : PublicKey -> string.

(** [fetchTransactions()]: the component state once it has run.  Reading
    [signature.signature] of an [undefined] element throws a
    [TypeError]. *)
Definition fetchTransactions (st : ListState) : M World ListState :=
  match publicKey, connected with
  | Some publicKey, true =>
      let st := setLoading true st in
      let st := setError None st in
      st <- tryCatch
              (signatures <- call "getSignaturesForAddress"
                               (conn_getSignaturesForAddress connection publicKey limit) ;;
               txs <- call "getParsedTransactions"
                        (getParsedTransactions (map sig_signature signatures)) ;;
               parsed <- lift
                           (match parsedTransactions (keyToString publicKey)
                                    signatures txs with
                            | Some records => inr records
                            | None =>
                                inl (ErrorObj
                                       "Cannot read properties of undefined (reading 'signature')")
                            end) ;;
               ret (setTransactions parsed st))
              (fun err =>
                 let st := setError (Some "Failed to fetch transactions") st in
                 consoleError "Transaction fetch error:" err ;;;
                 ret st) ;;
      ret (setLoading false st)
  | _, _ => ret st
  end.

End Component.

End TransactionList.

(* --------------------------------------------------------------------- *)
(** ** [src/components/transaction-list.tsx]: the transfer form *)

Module SendSol.
Import JSString JSNumber Effects Effects.Notations Sdk.

Inductive StatusType : Set := StatusSuccess | StatusError.

(** The [status] state: [{ type, message }], [type] being [null] at rest. *)
Record Status : Type := mkStatus {
  status_type : option StatusType;
  status_message : string
}.

(** The component's [useState] cells. *)
Record FormState : Type := mkForm {
  recipient : string;
  amount : string;
  isLoading : bool;
  status : Status
}.

Definition setStatus (s : Status) (st : FormState) : FormState :=
  mkForm (recipient st) (amount st) (isLoading st) s.
Definition setIsLoading (b : bool) (st : FormState) : FormState :=
  mkForm (recipient st) (amount st) b (status st).
Definition setRecipient (r : string) (st : FormState) : FormState :=
  mkForm r (amount st) (isLoading st) (status st).
Definition setAmount (a : string) (st : FormState) : FormState :=
  mkForm (recipient st) a (isLoading st) (status st).

Section Component.
Context {World PublicKey AccountInfo Instruction Signer
         TransactionResponse EpochInfo : Type}.

(** [new PublicKey(text)]: the key, or what the constructor throws. *)
Variable newPublicKey : string -> Thrown + PublicKey.

(** [SystemProgram.transfer({fromPubkey, toPubkey, lamports})]. *)
Variable systemTransfer :
  PublicKey -> PublicKey -> float -> Thrown + Instruction.

(** The SDK's [Transaction], with the fields the form touches. *)
Record SdkTransaction : Type := mkSdkTransaction {
  instructions : list Instruction;
  recentBlockhash : option string;
  feePayer : option PublicKey
}.

Let Connection := Connection World PublicKey AccountInfo SdkTransaction
                    Signer TransactionResponse EpochInfo.

(** [useConnection()] and [useWallet()]. *)
Variable connection : Connection.
Variable connected : bool.
Variable publicKey : option PublicKey.
Variable walletSendTransaction : SdkTransaction -> Oracle World string.

(** The test of the second [if] of [validateInputs]. *)
Definition amountInvalid (amount : string) : bool :=
  negb (truthy (trim amount))
  || isNaN (StringToNumber amount)
  || (StringToNumber amount <=? 0)%float.

(** [validateInputs()]: its result and the state after its [setStatus]. *)
Definition validateInputs (st : FormState) : bool * FormState :=
  if negb (truthy (trim (recipient st))) then
    (false, setStatus (mkStatus (Some StatusError) "Recipient address is required") st)
  else if amountInvalid (amount st) then
    (false, setStatus (mkStatus (Some StatusError) "Please enter a valid amount") st)
  else
    match newPublicKey (recipient st) with
    | inl _ =>
        (false, setStatus (mkStatus (Some StatusError) "Invalid recipient address") st)
    | inr _ => (true, st)
    end.

(** [handleSendSol()]: the component state once the handler has run. *)
Definition handleSendSol (st : FormState) : M World FormState :=
  match connected, publicKey with
  | true, Some publicKey =>
      let '(valid, st) := validateInputs st in
      if negb valid then ret st
      else
        let st := setIsLoading true st in
        let st := setStatus (mkStatus None "") st in
        st <- tryCatch
                (recipientPubkey <- lift (newPublicKey (recipient st)) ;;
                 let lamports := (StringToNumber (amount st) * LAMPORTS_PER_SOL)%float in
                 (* Check balance *)
                 balance <- call "getBalance" (conn_getBalance connection publicKey) ;;
                 (if (balance <? lamports)%float
                  then throw (ErrorObj "Insufficient balance")
                  else ret tt) ;;;
                 (* Create transaction *)
                 ix <- lift (systemTransfer publicKey recipientPubkey lamports) ;;
                 let transaction := mkSdkTransaction [ix] None None in
                 (* Get recent blockhash *)
                 latest <- call "getLatestBlockhash"
                             (conn_getLatestBlockhash connection) ;;
                 let blockhash := lb_blockhash latest in
                 let transaction :=
                   mkSdkTransaction (instructions transaction) (Some blockhash)
                     (Some publicKey) in
                 (* Send transaction *)
                 signature <- call "sendTransaction"
                                (walletSendTransaction transaction) ;;
                 (* Confirm transaction *)
                 call "confirmTransaction"
                   (conn_confirmTransaction connection signature "confirmed") ;;;
                 let st :=
                   setStatus
                     (mkStatus (Some StatusSuccess)
                        ("Successfully sent " ++ amount st ++ " SOL! Transaction: "
                         ++ slice signature 0 (Some 8) ++ "..."))
                     st in
                 (* Reset form *)
                 ret (setAmount "" (setRecipient "" st)))
                (fun error =>
                   consoleError "Transaction failed:" error ;;;
                   ret (setStatus
                          (mkStatus (Some StatusError)
                             (messageOr "Transaction failed" error))
                          st)) ;;
        ret (setIsLoading false st)
  | _, _ =>
      ret (setStatus (mkStatus (Some StatusError)
                        "Please connect your wallet first") st)
  end.

End Component.

End SendSol.

(* --------------------------------------------------------------------- *)
(** ** [src/components/transaction-list.tsx]: the balance display *)

Module BalanceDisplay.
Import JSNumber.

(** [formatBalance(balance)]. *)
Definition formatBalance (balance : float) : string :=
  if (balance =? 0)%float then "0.00"
  else if (balance <? 0.001)%float then toFixed balance 6
  else if (balance <? 1)%float then toFixed balance 4
  else toFixed balance 2.

(** The component's [useState] cells. *)
Record DisplayState : Type := mkDisplayState {
  balance : option float;
  loading : bool;
  error : option string
}.

Definition setBalance (b : option float) (st : DisplayState) : DisplayState :=
  mkDisplayState b (loading st) (error st).
Definition setLoading (b : bool) (st : DisplayState) : DisplayState :=
  mkDisplayState (balance st) b (error st).
Definition setError (e : option string) (st : DisplayState) : DisplayState :=
  mkDisplayState (balance st) (loading st) e.

Section Component.
Import JSString Effects Effects.Notations Sdk.
Context {World PublicKey AccountInfo SdkTransaction Signer
         TransactionResponse EpochInfo : Type}.
Let Connection := Connection World PublicKey AccountInfo SdkTransaction
                    Signer TransactionResponse EpochInfo.

(** [useConnection()] and [useWallet()]. *)
Variable connection : Connection.
Variable publicKey : option PublicKey.
Variable connected : bool.

(** [fetchBalance()]: the component state once it has run. *)
Definition fetchBalance (st : DisplayState) : M World DisplayState :=
  match publicKey, connected with
  | Some publicKey, true =>
      let st := setLoading true st in
      let st := setError None st in
      st <- tryCatch
              (lamports <- call "getBalance" (conn_getBalance connection publicKey) ;;
               let solBalance := (lamports / LAMPORTS_PER_SOL)%float in
               ret (setBalance (Some solBalance) st))
              (fun err =>
                 let st := setError (Some "Failed to fetch balance") st in
                 consoleError "Balance fetch error:" err ;;;
                 ret st) ;;
      ret (setLoading false st)
  | _, _ => ret (setError None (setBalance None st))
  end.

(** The text of the balance line of the card. *)
Definition balanceLine (st : DisplayState) : string :=
  if negb connected then "Not Connected"
  else if loading st then "Loading..."
  else if match error st with Some e => truthy e | None => false end then "Error"
  else match balance st with
       | Some balance => formatBalance balance ++ " SOL"
       | None => "--"
       end.

End Component.

End BalanceDisplay.

(* --------------------------------------------------------------------- *)
(** ** The SDK's [PublicKey] constructor on strings *)

(** [new PublicKey(text)] of [@solana/web3.js]: the text is decoded as
    base 58 ([bs58.decode], which throws on a character outside the
    alphabet) and must yield exactly 32 bytes.  The form itself takes the
    constructor as a parameter; this instance serves to run it. *)
Module Base58.
Import Effects.

Definition ALPHABET : string :=
  "123456789ABCDEFGHJKLMNPQRSTUVWXYZabcdefghijkmnopqrstuvwxyz".

Definition digit (c : ascii) : option Z :=
  option_map Z.of_nat (index 0 (String c EmptyString) ALPHABET).

(** Leading ["1"]s, each standing for one zero byte. *)
Fixpoint leadingOnes (s : string) : Z * string :=
  match s with
  | String "1" s' => let '(n, rest) := leadingOnes s' in (n + 1, rest)
  | _ => (0, s)
  end.

Fixpoint value (s : string) (acc : Z) : option Z :=
  match s with
  | EmptyString => Some acc
  | String c s' =>
      match digit c with
      | Some d => value s' (58 * acc + d)
      | None => None
      end
  end.

Definition byteLength (v : Z) : Z :=
  if v =? 0 then 0 else Z.log2 v / 8 + 1.

(** Length of [bs58.decode(s)], [None] when it throws. *)
Definition decodedLength (s : string) : option Z :=
  let '(zeroes, rest) := leadingOnes s in
  option_map (fun v => zeroes + byteLength v) (value rest 0).

(** A key is kept as its base-58 text. *)
Definition newPublicKey (text : string) : Thrown + string :=
  match decodedLength text with
  | None => inl (ErrorObj "Non-base58 character")
  | Some n =>
      if n =? 32 then inr text else inl (ErrorObj "Invalid public key input")
  end.

End Base58.

(* --------------------------------------------------------------------- *)
(** ** Timers of the host *)

(** [setTimeout] and [clearTimeout]: a handle is never reused, a negative
    delay counts as 0, clearing [undefined] or a timer that is no longer
    pending does nothing, and timers fire in the order of their due times,
    the older first among equals. *)
Module Timers.

Section Host.
(** What the callback of a timer is invoked with. *)
Variable A : Type.

Record Timer : Type := mkTimer {
  timer_id : nat;
  timer_due : Z;
  timer_payload : A
}.

Record Host : Type := mkHost {
  now : Z;
  nextId : nat;
  pending : list Timer
}.

Definition setTimeout (payload : A) (delay : Z) (h : Host) : nat * Host :=
  (nextId h,
   mkHost (now h) (S (nextId h))
     (pending h ++ [mkTimer (nextId h) (now h + Z.max delay 0) payload])).

Definition clearTimeout (handle : option nat) (h : Host) : Host :=
  match handle with
  | None => h
  | Some id =>
      mkHost (now h) (nextId h)
        (filter (fun t => negb (Nat.eqb (timer_id t) id)) (pending h))
  end.

(** The pending timer that fires next. *)
Fixpoint nextTimer (ts : list Timer) : option Timer :=
  match ts with
  | [] => None
  | t :: ts' =>
      match nextTimer ts' with
      | Some t' => if timer_due t' <? timer_due t then Some t' else Some t
      | None => Some t
      end
  end.

(** Time passes until [t]: the timers due by then fire in order, each
    leaving in [fired] the time it ran at and what its callback was given.
    The callbacks set no timer, so one step per pending timer is
    enough. *)
Fixpoint advance (steps : nat) (t : Z) (h : Host) (fired : list (Z * A))
  : Host * list (Z * A) :=
  match steps with
  | O => (mkHost (Z.max (now h) t) (nextId h) (pending h), fired)
  | S steps' =>
      match nextTimer (pending h) with
      | Some tm =>
          if timer_due tm <=? t then
            advance steps' t
              (mkHost (Z.max (now h) (timer_due tm)) (nextId h)
                 (filter (fun x => negb (Nat.eqb (timer_id x) (timer_id tm)))
                    (pending h)))
              (fired ++ [(Z.max (now h) (timer_due tm), timer_payload tm)])
          else (mkHost (Z.max (now h) t) (nextId h) (pending h), fired)
      | None => (mkHost (Z.max (now h) t) (nextId h) (pending h), fired)
      end
  end.

Definition runUntil (t : Z) (h : Host) (fired : list (Z * A)) : Host * list (Z * A) :=
  advance (List.length (pending h)) t h fired.

(** Time passes until a new task starts at [t]: the timers due before
    [t] have fired.  Whether a timer due at [t] itself runs before the
    task or after it is the choice of the host, [timersFirst]. *)
Definition runBefore (timersFirst : bool) (t : Z) (h : Host) (fired : list (Z * A))
  : Host * list (Z * A) :=
  let '(h, fired) := runUntil (if timersFirst then t else t - 1) h fired in
  (mkHost (Z.max (now h) t) (nextId h) (pending h), fired).

End Host.

Arguments mkTimer {A}.
Arguments timer_id {A}.
Arguments timer_due {A}.
Arguments timer_payload {A}.
Arguments mkHost {A}.
Arguments now {A}.
Arguments nextId {A}.
Arguments pending {A}.
Arguments setTimeout {A}.
Arguments clearTimeout {A}.
Arguments nextTimer {A}.
Arguments advance {A}.
Arguments runUntil {A}.
Arguments runBefore {A}.

End Timers.

(* --------------------------------------------------------------------- *)
(** ** [src/lib/utils.ts]: [debounce] *)

Module Debounce.
Import Timers.

Section Debounced.
(** The arguments of [func]. *)
Variable Args : Type.

(** The variable [timeout] of the closure: [undefined], or the handle of
    the last timer set. *)
Definition Closure : Type := option nat.

Definition initial : Closure := None.

(** One call [debounced(...args)] of the function returned by
    [debounce(func, wait)]; the timer's callback is [() => func(...args)]. *)
Definition invoke (wait : Z) (args : Args) (timeout : Closure) (h : Host Args)
  : Closure * Host Args :=
  let h := clearTimeout timeout h in
  let '(id, h) := setTimeout args wait h in
  (Some id, h).

End Debounced.

Arguments invoke {Args}.

End Debounce.

(* --------------------------------------------------------------------- *)
(** ** [src/unnamed/part_000]: the landing page *)

Module HomePage.
Import JSNumber.

(** The updater [(prev) => (prev + 1) % 4] that the interval passes to
    [setActiveFeature]. *)
Definition nextFeature (prev : float) : float := remainder (prev + 1) 4.

(** [activeFeature] after the interval has fired [ticks] times, from
    [useState(0)]. *)
Fixpoint activeFeatureAfter (ticks : nat) : float :=
  match ticks with
  | O => 0%float
  | S ticks' => nextFeature (activeFeatureAfter ticks')
  end.

(** [activeFeature === index] for the four cards of [features.map]. *)
Definition highlighted (activeFeature : float) : list bool :=
  map (fun index => (activeFeature =? index)%float) [0; 1; 2; 3]%float.

End HomePage.

(* --------------------------------------------------------------------- *)
(** ** [src/lib/utils.ts]: the wallet button *)

Module WalletButton.
Import JSString.

(** The component's own [formatAddress(address)]. *)
Definition formatAddress (address : string) : string :=
  slice address 0 (Some 4) ++ "..." ++ slice address (- 4) None.

(** The text of the button; [publicKey] is the string form of the key. *)
Definition label (connecting connected : bool) (publicKey : option string) : string :=
  if connecting then "Connecting..."
  else
    match connected, publicKey with
    | true, Some key => formatAddress key
    | _, _ => "Connect Wallet"
    end.

End WalletButton.

(* --------------------------------------------------------------------- *)
(** ** Vocabulary of the statements *)

Module Spec.
Import Effects Effects.Notations Sdk.

Section Guarded.
Context {World A : Type}.

(** The [try]/[catch] shared by the methods of the facade: log the
    caught value under [label], then throw the method's own error. *)
Definition guarded (label message : string) (body : M World A) : M World A :=
  tryCatch body
    (fun error => consoleError label error ;;; throw (ErrorObj message)).

(** Every failure of [c] is the error [message], raised right after a
    line labelled [label] was written to the console. *)
Definition raisesOnly (c : M World A) (label message : string) : Prop :=
  forall st e st',
    c st = (inl e, st') ->
    e = ErrorObj message
    /\ exists fault before, trace st' = (before ++ [EvConsoleError label fault])%list.
End Guarded.

(** The number of promises still pending. *)
Definition pendingCount {A B : Type} (slots : list (A + B)) : nat :=
  List.length
    (filter (fun slot => match slot with inl _ => true | inr _ => false end) slots).

(** Each slot belongs to the element at its position: it is pending on
    that element, or holds a value related to it by [R]. *)
Definition slotsOf {A B : Type} (R : A -> B -> Prop) (xs : list A)
    (slots : list (A + B)) : Prop :=
  Forall2 (fun x slot => match slot with inl x' => x' = x | inr b => R x b end) xs slots.

Section History.
Context {World PublicKey AccountInfo SdkTransaction Signer
         TransactionResponse EpochInfo : Type}.
Variable connection : Connection World PublicKey AccountInfo SdkTransaction
                        Signer TransactionResponse EpochInfo.

(** [entry] is what the callback of [getTransactionHistory] makes of
    [sig] and of an answer of the lookup of its signature. *)
Definition entryOf (sig : ConfirmedSignatureInfo)
    (entry : Service.HistoryEntry TransactionResponse) : Prop :=
  Service.h_signature _ entry = sig_signature sig
  /\ Service.h_slot _ entry = sig_slot sig
  /\ Service.h_blockTime _ entry = sig_blockTime sig
  /\ exists w w',
       conn_getTransaction connection (sig_signature sig) w
       = (inr (Service.h_transaction _ entry), w').

(** [fault] is a rejection of the lookup of the signature of [sig]. *)
Definition lookupRejected (sig : ConfirmedSignatureInfo) (fault : Thrown) : Prop :=
  exists w w', conn_getTransaction connection (sig_signature sig) w = (inl fault, w').
End History.

End Spec.

(** Vocabulary about decimal strings. *)
Module FormatSpec.

Definition isDigit (c : ascii) : bool :=
  let n := nat_of_ascii c in (48 <=? n)%nat && (n <=? 57)%nat.

Fixpoint allDigits (s : string) : bool :=
  match s with
  | EmptyString => true
  | String c s' => isDigit c && allDigits s'
  end.

(** [isFixedDecimal k s]: [s] is one or more digits, a point, and exactly
    [k] digits. *)
Definition isFixedDecimal (k : nat) (s : string) : bool :=
  let n := String.length s in
  (k + 2 <=? n)%nat
  && allDigits (substring 0 (n - k - 1) s)
  && (substring (n - k - 1) 1 s =? ".")%string
  && allDigits (substring (n - k) k s).

(** The last code unit of a string. *)
Fixpoint lastChar (s : string) : option ascii :=
  match s with
  | EmptyString => None
  | String c EmptyString => Some c
  | String _ s' => lastChar s'
  end.

(** A string ends with a decimal digit. *)
Definition endsWithDigit (s : string) : Prop :=
  exists c, lastChar s = Some c /\ isDigit c = true.

End FormatSpec.

(** What [toFixed] prints. *)
Module RoundingSpec.
Import JSNumber.

(** The real number denoted by an unpacked double (0 for the infinities
    and [NaN]). *)
Definition valueOf (x : spec_float) : Q :=
  match x with
  | S754_finite s m e => if s then (- realValue m e)%Q else realValue m e
  | _ => 0%Q
  end.

(** [w] lies where the location [l] says, relative to the integer [m]: on
    it, below the middle of [m, m + 1], on the middle, or above it. *)
Definition located (m : Z) (l : location) (w : Q) : Prop :=
  match l with
  | loc_Exact => (w == inject_Z m)%Q
  | loc_Inexact Lt => (inject_Z m < w /\ w < inject_Z m + (1 # 2))%Q
  | loc_Inexact Eq => (w == inject_Z m + (1 # 2))%Q
  | loc_Inexact Gt => (inject_Z m + (1 # 2) < w /\ w < inject_Z m + 1)%Q
  end.

(** The real number denoted by a double (0 for the infinities and
    [NaN]). *)
Definition realOf (x : float) : Q :=
  match Prim2SF x with
  | S754_finite s m e => if s then (- realValue m e)%Q else realValue m e
  | _ => 0%Q
  end.

(** [s] prints, with [f] decimals, the multiple of [10^-f] nearest to [x]
    (the larger one on a tie). *)
Definition isRoundingOf (f : nat) (x : float) (s : string) : Prop :=
  exists n : Z,
    s = fixedDigits n f
    /\ (inject_Z n - (1 # 2) <= realOf x * pow10 (Z.of_nat f))%Q
    /\ (realOf x * pow10 (Z.of_nat f) < inject_Z n + (1 # 2))%Q.

End RoundingSpec.

(** Vocabulary about doubles. *)
Module FloatSpec.

(** The result of a rounding with its sign replaced. *)
Definition withSign (s : bool) (x : spec_float) : spec_float :=
  match x with
  | S754_zero _ => S754_zero s
  | S754_infinity _ => S754_infinity s
  | S754_nan => S754_nan
  | S754_finite _ m e => S754_finite s m e
  end.

End FloatSpec.

(** What the classification of a transaction looks at. *)
Module TransactionSpec.
Import JSString JSNumber TransactionList.

(** The first-account balance delta [postBalance - preBalance]. *)
Definition balanceChangeOf (tx : ParsedTransactionWithMeta) : float :=
  (orZero (firstOf (tx_meta tx) meta_postBalances)
   - orZero (firstOf (tx_meta tx) meta_preBalances))%float.

(** The fee in base units, [meta?.fee || 0]. *)
Definition feeOf (tx : ParsedTransactionWithMeta) : float :=
  orZero (option_map meta_fee (tx_meta tx)).

(** The token-balance entries the classification looks at,
    [meta?.preTokenBalances || []]. *)
Definition tokenEntriesOf (tx : ParsedTransactionWithMeta) : list TokenBalance :=
  match tx_meta tx with
  | Some m => match meta_preTokenBalances m with Some l => l | None => [] end
  | None => []
  end.

(** Some instruction carries a program identifier whose string form
    contains the marker ["Stake"]. *)
Definition hasStakeMarker (tx : ParsedTransactionWithMeta) : bool :=
  existsb (fun ix =>
             match ix_programId ix with
             | Some programId => includes programId "Stake"
             | None => false
             end) (tx_instructions tx).
End TransactionSpec.


(** Concrete connections and transactions on which the statements are run. *)
Module Fixtures.
Import Effects Sdk.

(** A connection on which every request is rejected with [fault]. *)
Definition downConnection (fault : Thrown)
  : Connection unit string unit unit unit unit unit :=
  mkConnection unit string unit unit unit unit unit
    (fun _ w => (inl fault, w))
    (fun _ w => (inl fault, w))
    (fun _ _ w => (inl fault, w))
    (fun _ _ w => (inl fault, w))
    (fun w => (inl fault, w))
    (fun _ _ w => (inl fault, w))
    (fun _ w => (inl fault, w))
    (fun w => (inl fault, w))
    (fun w => (inl fault, w)).

(** A connection that answers, except for confirmations and for the
    lookup of every transaction but ["a"], which are rejected with
    [fault]. *)
Definition flakyConnection (fault : Thrown)
  : Connection unit string unit unit unit unit unit :=
  mkConnection unit string unit unit unit unit unit
    (fun _ w => (inr 0%float, w))
    (fun _ w => (inr tt, w))
    (fun _ _ w => (inr "5ig", w))
    (fun _ _ w => (inl fault, w))
    (fun w => (inr (mkLatestBlockhash "hash" 250), w))
    (fun _ _ w => (inr [mkSignatureInfo "a" 1 None; mkSignatureInfo "b" 2 None;
                        mkSignatureInfo "c" 3 None], w))
    (fun s w => if (s =? "a")%string then (inr tt, w) else (inl fault, w))
    (fun w => (inr 7%float, w))
    (fun w => (inr tt, w)).

Definition timeout : Thrown := ErrorObj "socket hang up".

Definition start : State unit := mkState tt [].

Definition buildTransfer (from to : string) (lamports : float) : Thrown + unit :=
  inr tt.

(** The connection, the wallet and the instruction builder behind the
    transfer form. *)
Definition formConnection
  : Connection unit string unit (@SendSol.SdkTransaction string unit) unit unit unit :=
  mkConnection unit string unit (@SendSol.SdkTransaction string unit) unit unit unit
    (fun _ w => (inr 2000000000%float, w))
    (fun _ w => (inr tt, w))
    (fun _ _ w => (inr "5ig", w))
    (fun _ _ w => (inr tt, w))
    (fun w => (inr (mkLatestBlockhash "hash" 250), w))
    (fun _ _ w => (inr [], w))
    (fun _ w => (inr tt, w))
    (fun w => (inr 7%float, w))
    (fun w => (inr tt, w)).

Definition walletSend (transaction : @SendSol.SdkTransaction string unit)
  : Oracle unit string :=
  fun w => (inr "5ig", w).

Definition form (recipient amount : string) : SendSol.FormState :=
  SendSol.mkForm recipient amount false (SendSol.mkStatus None "").

Definition signatureInfo : ConfirmedSignatureInfo := mkSignatureInfo "5ig" 5 None.

(** A transaction whose first account goes from [pre] to [post] base
    units, with the given fee, token-balance entries and program
    identifiers. *)
Definition transaction (pre post fee : float)
    (tokens : list TransactionList.TokenBalance) (programIds : list string)
  : TransactionList.ParsedTransactionWithMeta :=
  TransactionList.mkParsedTransaction
    (Some (TransactionList.mkMeta fee [pre] [post] (Some tokens) None))
    (map (fun p => TransactionList.mkInstruction (Some p)) programIds).

Definition stakeProgram : string := "Stake11111111111111111111111111111111111111".
Definition systemProgram : string := "11111111111111111111111111111111".
Definition tokenEntry : TransactionList.TokenBalance :=
  TransactionList.mkTokenBalance 1 "So11111111111111111111111111111111111111112".

End Fixtures.

(** Vocabulary about a debounced function in use. *)
Module DebounceSpec.
Import Timers Debounce.

Section CallSequences.
Context {Args : Type}.

(** The debounced function is called at the given times with the given
    arguments.  A call at the time the host is at is made by the task
    that is running, right after the call before it: no timer runs in
    between.  A call at a later time is made by a new task;
    [timersFirst t] is the choice of the host between that task and a
    timer due at [t]. *)
Fixpoint runCalls (timersFirst : Z -> bool) (wait : Z) (calls : list (Z * Args))
    (timeout : Closure) (h : Host Args) (fired : list (Z * Args))
  : Closure * Host Args * list (Z * Args) :=
  match calls with
  | [] => (timeout, h, fired)
  | (t, args) :: rest =>
      let '(h, fired) :=
        if now h =? t then (h, fired) else runBefore (timersFirst t) t h fired in
      let '(timeout, h) := invoke wait args timeout h in
      runCalls timersFirst wait rest timeout h fired
  end.

(** The invocations of [func], each with its time and arguments, when the
    calls are made on a host started at [start] with no timer pending,
    and time then passes until [finish]. *)
Definition invocations (timersFirst : Z -> bool) (wait : Z) (calls : list (Z * Args))
    (start finish : Z) : list (Z * Args) :=
  let '(_, h, fired) :=
    runCalls timersFirst wait calls initial (mkHost start 0%nat []) [] in
  snd (runUntil finish h fired).

(** The calls that are followed by no other call until more than [wait]
    later, each moved [wait] later. *)
Fixpoint trailing (wait : Z) (calls : list (Z * Args)) : list (Z * Args) :=
  match calls with
  | [] => []
  | (t, args) :: rest =>
      match rest with
      | [] => [(t + wait, args)]
      | (t', _) :: _ =>
          if t + wait <? t' then (t + wait, args) :: trailing wait rest
          else trailing wait rest
      end
  end.

(** No new task makes a call at the very time at which the timer of the
    call before it is due. *)
Fixpoint separate (wait : Z) (calls : list (Z * Args)) : Prop :=
  match calls with
  | [] => True
  | (t, _) :: rest =>
      match rest with
      | [] => True
      | (t', _) :: _ => (t' = t \/ t' <> t + wait) /\ separate wait rest
      end
  end.

(** The times of the calls do not decrease, from [from] on. *)
Fixpoint ascending (from : Z) (calls : list (Z * Args)) : Prop :=
  match calls with
  | [] => True
  | (t, _) :: rest => from <= t /\ ascending t rest
  end.

(** Each call but the last is followed by the next one in the same task
    or less than [wait] later. *)
Fixpoint burst (wait : Z) (calls : list (Z * Args)) : Prop :=
  match calls with
  | [] => True
  | (t, _) :: rest =>
      match rest with
      | [] => True
      | (t', _) :: _ => (t' = t \/ t' < t + wait) /\ burst wait rest
      end
  end.

(** The time of the last call. *)
Fixpoint lastTime (default : Z) (calls : list (Z * Args)) : Z :=
  match calls with
  | [] => default
  | (t, _) :: rest => lastTime t rest
  end.

(** The arguments of the last call. *)
Fixpoint lastArgs (default : Args) (calls : list (Z * Args)) : Args :=
  match calls with
  | [] => default
  | (_, args) :: rest => lastArgs args rest
  end.

End CallSequences.
End DebounceSpec.
(** Vocabulary about the fetched transactions. *)
Module RecordSpec.
Import TransactionList.

(** The transactions kept by [filter(tx => tx !== null)]. *)
Definition nonNull (txs : list (option ParsedTransactionWithMeta))
  : list ParsedTransactionWithMeta :=
  flat_map (fun tx => match tx with Some t => [t] | None => [] end) txs.

(** The transaction with its token-balance entries replaced. *)
Definition withTokenBalances (tx : ParsedTransactionWithMeta)
    (tokens : option (list TokenBalance)) : ParsedTransactionWithMeta :=
  mkParsedTransaction
    (option_map (fun m => mkMeta (meta_fee m) (meta_preBalances m) (meta_postBalances m)
                            tokens (meta_err m))
       (tx_meta tx))
    (tx_instructions tx).

End RecordSpec.
(** More connections and states to run the programs on. *)
Module Scenarios.
Import Effects Sdk.

(** A connection that answers every request; a transaction is looked up
    as its signature with ["tx:"] in front. *)
Definition liveConnection
  : Connection unit string unit unit unit string unit :=
  mkConnection unit string unit unit unit string unit
    (fun _ w => (inr 2500000000%float, w))
    (fun _ w => (inr tt, w))
    (fun _ _ w => (inr "5ig", w))
    (fun _ _ w => (inr tt, w))
    (fun w => (inr (mkLatestBlockhash "hash" 250), w))
    (fun _ _ w => (inr [mkSignatureInfo "a" 1 (Some 1700000000%float);
                        mkSignatureInfo "b" 2 None], w))
    (fun s w => (inr ("tx:" ++ s), w))
    (fun w => (inr 7%float, w))
    (fun w => (inr tt, w)).

(** A connection that has the transaction ["a"] only: every other
    lookup is rejected with a fault that names the signature asked
    for. *)
Definition namingConnection
  : Connection unit string unit unit unit unit unit :=
  mkConnection unit string unit unit unit unit unit
    (fun _ w => (inr 0%float, w))
    (fun _ w => (inr tt, w))
    (fun _ _ w => (inr "5ig", w))
    (fun _ _ w => (inr tt, w))
    (fun w => (inr (mkLatestBlockhash "hash" 250), w))
    (fun _ _ w => (inr [mkSignatureInfo "a" 1 None; mkSignatureInfo "b" 2 None;
                        mkSignatureInfo "c" 3 None], w))
    (fun s w => if (s =? "a")%string then (inr tt, w)
                else (inl (ErrorObj ("no transaction " ++ s)), w))
    (fun w => (inr 7%float, w))
    (fun w => (inr tt, w)).

End Scenarios.

(* ===================================================================== *)
(** * Part II. Theorems                                                   *)
(* ===================================================================== *)

Module StringFacts.
Import JSString.

Lemma length_append (a b : string) :
  String.length (a ++ b) = (String.length a + String.length b)%nat.
Proof. induction a as [|c a IH]; simpl; [reflexivity | now rewrite IH]. Qed.

Lemma append_assoc (a b c : string) : (a ++ b) ++ c = a ++ (b ++ c).
Proof. induction a as [|x a IH]; simpl; [reflexivity | now rewrite IH]. Qed.

Lemma substring_0_all (s : string) (n : nat) :
  (String.length s <= n)%nat -> substring 0 n s = s.
Proof.
  revert n; induction s as [|c s IH]; intros [|n] H; simpl in *;
    try reflexivity; try lia.
  f_equal. apply IH. lia.
Qed.

Lemma substring_0_app_l (a b : string) (n : nat) :
  (n <= String.length a)%nat -> substring 0 n (a ++ b) = substring 0 n a.
Proof.
  revert n; induction a as [|c a IH]; intros [|n] H; simpl in *;
    try reflexivity; try lia.
  - now destruct b.
  - f_equal. apply IH. lia.
Qed.

Lemma substring_app_r (a b : string) (n : nat) :
  substring (String.length a) n (a ++ b) = substring 0 n b.
Proof. induction a as [|c a IH]; simpl; [reflexivity | exact IH]. Qed.

Lemma length_substring (s : string) (n m : nat) :
  (n + m <= String.length s)%nat -> String.length (substring n m s) = m.
Proof.
  revert n m; induction s as [|c s IH]; intros [|n] [|m] H; simpl in *;
    try reflexivity; try lia.
  - f_equal. apply (IH 0%nat). lia.
  - apply IH. lia.
  - apply IH. lia.
Qed.

Lemma truthy_nonempty (s : string) : truthy s = true <-> s <> "".
Proof. destruct s; simpl; split; congruence. Qed.

Lemma len_nonneg (s : string) : 0 <= len s.
Proof. unfold len; lia. Qed.

Lemma len_pos (s : string) : s <> "" -> 0 < len s.
Proof. destruct s; [congruence | unfold len; simpl; lia]. Qed.

(** [s.slice(0, c)] keeps the first [c] code units when there are that
    many. *)
Lemma slice_prefix (s : string) (c : Z) :
  0 <= c <= len s -> slice s 0 (Some c) = substring 0 (Z.to_nat c) s.
Proof.
  intros H. unfold slice, clampIndex.
  destruct (Z.ltb_spec c 0); [lia|].
  change (0 <? 0) with false. cbv iota zeta.
  f_equal; lia.
Qed.

(** [s.slice(-c)] keeps the last [c] code units when there are that many. *)
Lemma slice_suffix (s : string) (c : Z) :
  0 < c <= len s ->
  slice s (- c) None = substring (Z.to_nat (len s - c)) (Z.to_nat c) s.
Proof.
  intros H. unfold slice, clampIndex.
  destruct (Z.ltb_spec (- c) 0); [|lia].
  cbv zeta. f_equal; lia.
Qed.

(** Beyond the length, both slices are the whole string. *)
Lemma slice_prefix_all (s : string) (c : Z) :
  len s <= c -> slice s 0 (Some c) = s.
Proof.
  intros H. pose proof (len_nonneg s) as Hl. unfold slice, clampIndex.
  destruct (Z.ltb_spec c 0); [lia|].
  change (0 <? 0) with false. cbv iota zeta.
  replace (Z.to_nat (Z.min 0 (len s))) with 0%nat by lia.
  apply substring_0_all. unfold len in *. lia.
Qed.

Lemma slice_suffix_all (s : string) (c : Z) :
  0 < c -> len s <= c -> slice s (- c) None = s.
Proof.
  intros Hc H. pose proof (len_nonneg s) as Hl. unfold slice, clampIndex.
  destruct (Z.ltb_spec (- c) 0); [|lia].
  cbv zeta.
  replace (Z.to_nat (Z.max (len s + - c) 0)) with 0%nat by lia.
  apply substring_0_all. unfold len in *. lia.
Qed.

Lemma len_slice_prefix (s : string) (c : Z) :
  0 <= c <= len s -> len (slice s 0 (Some c)) = c.
Proof.
  intros H. rewrite slice_prefix by exact H. unfold len in *.
  rewrite length_substring; lia.
Qed.

Lemma len_slice_suffix (s : string) (c : Z) :
  0 < c <= len s -> len (slice s (- c) None) = c.
Proof.
  intros H. rewrite slice_suffix by exact H. unfold len in *.
  rewrite length_substring; lia.
Qed.

Lemma len_append (a b : string) : len (a ++ b) = len a + len b.
Proof. unfold len. rewrite length_append. lia. Qed.

(** The first [len p] code units of [p ++ rest] are [p]. *)
Lemma slice_prefix_of_append (p rest : string) :
  slice (p ++ rest) 0 (Some (len p)) = p.
Proof.
  pose proof (len_nonneg p). pose proof (len_nonneg rest).
  rewrite slice_prefix by (rewrite len_append; lia).
  unfold len. rewrite Nat2Z.id.
  rewrite substring_0_app_l by lia.
  apply substring_0_all. lia.
Qed.

(** The last [len q] code units of [front ++ q] are [q]. *)
Lemma slice_suffix_of_append (front q : string) :
  0 < len q -> slice (front ++ q) (- len q) None = q.
Proof.
  intros Hq. pose proof (len_nonneg front).
  rewrite slice_suffix by (rewrite len_append; lia).
  rewrite len_append.
  replace (len front + len q - len q) with (len front) by lia.
  unfold len. rewrite !Nat2Z.id.
  rewrite substring_app_r.
  apply substring_0_all. lia.
Qed.

End StringFacts.

Module UtilsFacts.
Import JSString StringFacts Utils.

(** The general shape of a truncated address. *)
Lemma formatAddress_nonempty (address : string) (chars : Z) :
  address <> "" ->
  formatAddress address chars
  = slice address 0 (Some chars) ++ "..." ++ slice address (- chars) None.
Proof.
  intros H. unfold formatAddress.
  apply truthy_nonempty in H. now rewrite H.
Qed.

(** Counterexample to C8 as stated: ["AB"] is non-empty and shorter than
    twice 4, yet the first 4 code units of [formatAddress("AB", 4)], which
    is ["AB...AB"], are ["AB.."] and not the first 4 code units of the
    address, and likewise at the end. *)
Lemma formatAddress_short_counterexample :
  "AB" <> ""
  /\ len "AB" < 2 * 4
  /\ formatAddress "AB" 4 = "AB...AB"
  /\ slice (formatAddress "AB" 4) 0 (Some 4) <> slice "AB" 0 (Some 4)
  /\ slice (formatAddress "AB" 4) (- 4) None <> slice "AB" (- 4) None.
Proof. vm_compute. repeat split; congruence. Qed.

(** C8 (amended).  For every non-empty address shorter than twice [chars],
    [formatAddress(address, chars)] (a total function: nothing throws) is
    [address.slice(0, chars) + "..." + address.slice(-chars)].  When the
    address has at least [chars] code units, the first [chars] code units
    of the result are the first [chars] of the address and its last
    [chars] are the last [chars] of the address; when it has fewer, the
    result is the whole address on either side of the dots.
    [formatPublicKey] is the same function,
    [formatAddress("ABCDEFGH", 4)] is ["ABCD...EFGH"], and the empty input
    gives the empty string. *)
Theorem formatAddress_overlapping (address : string) (chars : Z) :
  address <> "" ->
  len address < 2 * chars ->
  formatAddress address chars
  = slice address 0 (Some chars) ++ "..." ++ slice address (- chars) None
  /\ (chars <= len address ->
      slice (formatAddress address chars) 0 (Some chars)
      = slice address 0 (Some chars)
      /\ slice (formatAddress address chars) (- chars) None
         = slice address (- chars) None
      /\ len (slice address 0 (Some chars)) = chars
      /\ len (slice address (- chars) None) = chars)
  /\ (len address < chars ->
      formatAddress address chars = address ++ "..." ++ address)
  /\ Service.formatPublicKey address chars = formatAddress address chars
  /\ formatAddress "ABCDEFGH" 4 = "ABCD...EFGH"
  /\ formatAddress "" chars = ""
  /\ Service.formatPublicKey "" chars = "".
Proof.
  intros Hne Hlen.
  pose proof (len_pos address Hne) as Hpos.
  assert (Hc : 0 < chars) by lia.
  rewrite (formatAddress_nonempty address chars Hne).
  split; [reflexivity|].
  split; [|split; [|split; [|repeat split]]].
  - intros Hle.
    pose proof (len_slice_prefix address chars ltac:(lia)) as Hp.
    pose proof (len_slice_suffix address chars ltac:(lia)) as Hs.
    repeat split; try assumption.
    + rewrite <- Hp at 3. apply slice_prefix_of_append.
    + rewrite <- Hs at 3.
      rewrite <- append_assoc. apply slice_suffix_of_append. lia.
  - intros Hlt.
    rewrite slice_prefix_all by lia. rewrite slice_suffix_all by lia.
    reflexivity.
  - unfold Service.formatPublicKey.
    apply truthy_nonempty in Hne. now rewrite Hne.
Qed.
(** The amended C8 at ["ABCDE"] and 4, where prefix and suffix overlap. *)
Lemma formatAddress_overlapping_witness :
  formatAddress "ABCDE" 4 = "ABCD...BCDE"
  /\ slice (formatAddress "ABCDE" 4) 0 (Some 4) = "ABCD"
  /\ slice (formatAddress "ABCDE" 4) (- 4) None = "BCDE".
Proof.
  assert (Hne : "ABCDE" <> "") by discriminate.
  assert (Hlen : len "ABCDE" < 2 * 4) by (vm_compute; reflexivity).
  destruct (formatAddress_overlapping "ABCDE" 4 Hne Hlen) as (H1 & H2 & _).
  assert (Hle : 4 <= len "ABCDE") by (vm_compute; discriminate).
  destruct (H2 Hle) as (H3 & H4 & _).
  split; [exact H1|]. split; [exact H3 | exact H4].
Defined.


(** C4.  With the default cluster both builders return the bare path
    [https://explorer.solana.com/tx/<signature>] (respectively
    [/account/<address>]).  With [devnet] and [testnet] the code puts
    [?cluster=<cluster>] between the host and the path, so the result is
    not the bare-path URL with the query parameter appended to it. *)
Theorem explorer_url_query_before_path (signature address : string) :
  getExplorerUrl signature MainnetBeta
  = "https://explorer.solana.com/tx/" ++ signature
  /\ getAccountExplorerUrl address MainnetBeta
     = "https://explorer.solana.com/account/" ++ address
  /\ getExplorerUrl signature Devnet
     = "https://explorer.solana.com?cluster=devnet/tx/" ++ signature
  /\ getExplorerUrl signature Testnet
     = "https://explorer.solana.com?cluster=testnet/tx/" ++ signature
  /\ getAccountExplorerUrl address Devnet
     = "https://explorer.solana.com?cluster=devnet/account/" ++ address
  /\ getAccountExplorerUrl address Testnet
     = "https://explorer.solana.com?cluster=testnet/account/" ++ address
  /\ (forall cluster, cluster <> MainnetBeta ->
      getExplorerUrl signature cluster
      <> getExplorerUrl signature MainnetBeta ++ "?cluster=" ++ clusterName cluster
      /\ getAccountExplorerUrl address cluster
         <> getAccountExplorerUrl address MainnetBeta
            ++ "?cluster=" ++ clusterName cluster).
Proof.
  repeat split; try reflexivity;
    destruct cluster; try congruence; cbn; discriminate.
Qed.

(** C4 at the failing input: the transaction ["5ig"] on [devnet]. *)
Lemma explorer_url_query_before_path_witness :
  getExplorerUrl "5ig" Devnet = "https://explorer.solana.com?cluster=devnet/tx/5ig"
  /\ getExplorerUrl "5ig" Devnet <> "https://explorer.solana.com/tx/5ig?cluster=devnet".
Proof.
  destruct (explorer_url_query_before_path "5ig" "") as (_ & _ & H & _ & _ & _ & Hne).
  split; [exact H|].
  assert (Hd : Devnet <> MainnetBeta) by discriminate.
  exact (proj1 (Hne Devnet Hd)).
Defined.

End UtilsFacts.

Module EffectsFacts.
Import Effects Effects.Notations Spec.

Section Guarded.
Context {World A : Type}.
Variables (label message : string) (body : M World A).

Lemma guarded_fault (st st1 : State World) (fault : Thrown) :
  body st = (inl fault, st1) ->
  guarded label message body st
  = (inl (ErrorObj message),
     mkState (world st1) (trace st1 ++ [EvConsoleError label fault])).
Proof. intros H. unfold guarded, tryCatch. rewrite H. reflexivity. Qed.

Lemma guarded_value (st st1 : State World) (a : A) :
  body st = (inr a, st1) -> guarded label message body st = (inr a, st1).
Proof. intros H. unfold guarded, tryCatch. rewrite H. reflexivity. Qed.

(** Whatever the body does, a failure of the guarded computation is the
    method's own error, and a console line was written last. *)
Lemma guarded_raisesOnly : raisesOnly (guarded label message body) label message.
Proof.
  intros st e st' H. unfold guarded, tryCatch in H.
  destruct (body st) as [[fault | a] st1]; cbn in H.
  - injection H as <- <-. split; [reflexivity|].
    now exists fault, (trace st1).
  - discriminate.
Qed.

Lemma guarded_outcome (st : State World) :
  match guarded label message body st with
  | (inl e, st') =>
      e = ErrorObj message
      /\ exists fault st1,
           body st = (inl fault, st1)
           /\ st' = mkState (world st1) (trace st1 ++ [EvConsoleError label fault])
  | (inr a, st') => body st = (inr a, st')
  end.
Proof.
  unfold guarded, tryCatch. destruct (body st) as [[fault | a] st1]; cbn.
  - split; [reflexivity|]. now exists fault, st1.
  - reflexivity.
Qed.
End Guarded.

Section Calls.
Context {World : Type}.

Lemma call_fault {A : Type} (method : string) (o : Oracle World A)
    (st : State World) (fault : Thrown) (w : World) :
  o (world st) = (inl fault, w) ->
  call method o st = (inl fault, mkState w (trace st ++ [EvCall method (Some fault)])).
Proof. intros H. unfold call. rewrite H. reflexivity. Qed.

Lemma call_value {A : Type} (method : string) (o : Oracle World A)
    (st : State World) (a : A) (w : World) :
  o (world st) = (inr a, w) ->
  call method o st = (inr a, mkState w (trace st ++ [EvCall method None])).
Proof. intros H. unfold call. rewrite H. reflexivity. Qed.

Lemma bind_fault {A B : Type} (c : M World A) (k : A -> M World B)
    (st st1 : State World) (fault : Thrown) :
  c st = (inl fault, st1) -> bind c k st = (inl fault, st1).
Proof. intros H. unfold bind. now rewrite H. Qed.

Lemma bind_value {A B : Type} (c : M World A) (k : A -> M World B)
    (st st1 : State World) (a : A) :
  c st = (inr a, st1) -> bind c k st = k a st1.
Proof. intros H. unfold bind. now rewrite H. Qed.

End Calls.

Local Open Scope list_scope.

Section Promises.
Context {World A B : Type}.
Variable f : A -> M World B.
Variable method : string.
Variable R : A -> B -> Prop.
Variable Q : A -> Thrown -> Prop.

(** Every [f x] awaits the one call [method]. *)
Hypothesis one_call :
  forall x st,
    match f x st with
    | (inl e, st') => trace st' = trace st ++ [EvCall method (Some e)] /\ Q x e
    | (inr b, st') => trace st' = trace st ++ [EvCall method None] /\ R x b
    end.

Lemma settleAt_outcome (i : nat) (xs : list A) (slots : list (A + B))
    (st : State World) :
  slotsOf R xs slots ->
  match settleAt f i slots st with
  | (inr slots', st') =>
      slotsOf R xs slots'
      /\ ((slots' = slots /\ st' = st)
          \/ (S (pendingCount slots') = pendingCount slots
              /\ trace st' = trace st ++ [EvCall method None]))
  | (inl e, st') =>
      trace st' = trace st ++ [EvCall method (Some e)]
      /\ (0 < pendingCount slots)%nat
      /\ exists x, In x xs /\ Q x e
  end.
Proof.
  intros H. revert i. induction H as [|x slot xs slots Hx H IH]; intros i.
  - destruct i; cbn; (split; [constructor | now left]).
  - destruct i as [|i].
    + destruct slot as [x' | b]; cbn [settleAt].
      * subst x'. unfold bind. pose proof (one_call x st) as Hf.
        destruct (f x st) as [[e | b] st']; cbn.
        -- destruct Hf as [Ht Hq]. split; [exact Ht|]. split.
           ++ unfold pendingCount. cbn. lia.
           ++ exists x. split; [now left | exact Hq].
        -- destruct Hf as [Ht Hr]. split.
           ++ constructor; assumption.
           ++ right. split; [reflexivity | exact Ht].
      * cbn. split; [constructor; assumption | now left].
    + assert (E : settleAt f (S i) (slot :: slots)
                  = bind (settleAt f i slots) (fun rest' => ret (slot :: rest'))).
      { destruct slot; reflexivity. }
      rewrite E. clear E. unfold bind. specialize (IH i).
      destruct (settleAt f i slots st) as [[e | slots'] st']; cbn.
      * destruct IH as (Ht & Hp & x0 & Hin & Hq). split; [exact Ht|]. split.
        -- unfold pendingCount in *. cbn. destruct slot; cbn; lia.
        -- exists x0. split; [now right | exact Hq].
      * destruct IH as [Hs Hc]. split; [constructor; assumption|].
        destruct Hc as [[-> ->] | [Hp Ht]]; [now left|].
        right. split; [|exact Ht].
        unfold pendingCount in *. cbn. destruct slot; cbn; lia.
Qed.

Lemma settleRest_outcome (xs : list A) (slots : list (A + B)) (st : State World) :
  slotsOf R xs slots ->
  match settleRest f slots st with
  | (inr bs, st') =>
      Forall2 R xs bs
      /\ trace st' = trace st ++ repeat (EvCall method None) (pendingCount slots)
  | (inl e, st') =>
      exists k,
        (k < pendingCount slots)%nat
        /\ trace st' = trace st ++ repeat (EvCall method None) k
                       ++ [EvCall method (Some e)]
        /\ exists x, In x xs /\ Q x e
  end.
Proof.
  intros H. revert st. induction H as [|x slot xs slots Hx H IH]; intros st.
  - cbn. split; [constructor | now rewrite app_nil_r].
  - destruct slot as [x' | b]; cbn [settleRest].
    + subst x'. unfold bind at 1. pose proof (one_call x st) as Hf.
      destruct (f x st) as [[e | b] st1].
      * destruct Hf as [Ht Hq]. exists 0%nat. split; [unfold pendingCount; cbn; lia|].
        split; [exact Ht|]. exists x. split; [now left | exact Hq].
      * destruct Hf as [Ht Hr]. unfold bind. specialize (IH st1).
        destruct (settleRest f slots st1) as [[e | bs] st']; cbn.
        -- destruct IH as (k & Hk & Htr & x0 & Hin & Hq). exists (S k).
           split; [unfold pendingCount in *; cbn; lia|]. split.
           ++ rewrite Htr, Ht. cbn. rewrite <- !app_assoc. reflexivity.
           ++ exists x0. split; [now right | exact Hq].
        -- destruct IH as [Hbs Htr]. split; [constructor; assumption|].
           rewrite Htr, Ht. unfold pendingCount. cbn. rewrite <- app_assoc. reflexivity.
    + unfold bind. specialize (IH st).
      destruct (settleRest f slots st) as [[e | bs] st']; cbn.
      * destruct IH as (k & Hk & Htr & x0 & Hin & Hq). exists k.
        split; [exact Hk|]. split; [exact Htr|]. exists x0. split; [now right | exact Hq].
      * destruct IH as [Hbs Htr]. split; [constructor; assumption | exact Htr].
Qed.

Lemma settleInOrder_outcome (order : list nat) (xs : list A) (slots : list (A + B))
    (st : State World) :
  slotsOf R xs slots ->
  match settleInOrder f order slots st with
  | (inr bs, st') =>
      Forall2 R xs bs
      /\ trace st' = trace st ++ repeat (EvCall method None) (pendingCount slots)
  | (inl e, st') =>
      exists k,
        (k < pendingCount slots)%nat
        /\ trace st' = trace st ++ repeat (EvCall method None) k
                       ++ [EvCall method (Some e)]
        /\ exists x, In x xs /\ Q x e
  end.
Proof.
  revert slots st. induction order as [|i order IH]; intros slots st H.
  - now apply settleRest_outcome.
  - cbn [settleInOrder]. unfold bind.
    pose proof (settleAt_outcome i xs slots st H) as Hat.
    destruct (settleAt f i slots st) as [[e | slots'] st1].
    + destruct Hat as (Ht & Hp & Hx). exists 0%nat. split; [exact Hp|].
      split; [exact Ht | exact Hx].
    + destruct Hat as [Hs Hc]. specialize (IH slots' st1 Hs).
      destruct (settleInOrder f order slots' st1) as [[e | bs] st'].
      * destruct IH as (k & Hk & Htr & Hx).
        destruct Hc as [[-> ->] | [Hp Ht]].
        -- exists k. now repeat split.
        -- exists (S k). split; [lia|]. split; [|exact Hx].
           rewrite Htr, Ht. cbn. rewrite <- !app_assoc. reflexivity.
      * destruct IH as [Hbs Htr]. split; [exact Hbs|].
        destruct Hc as [[-> ->] | [Hp Ht]]; [exact Htr|].
        rewrite Htr, Ht, <- Hp. cbn. rewrite <- app_assoc. reflexivity.
Qed.

Lemma slotsOf_started (xs : list A) : slotsOf R xs (map inl xs).
Proof. induction xs; constructor; [reflexivity | assumption]. Qed.

Lemma pendingCount_started (xs : list A) :
  pendingCount (map (@inl A B) xs) = List.length xs.
Proof. unfold pendingCount. induction xs; cbn; [reflexivity | now f_equal]. Qed.

(** [Promise.all]: either every promise is fulfilled, with one call
    answered per element and the values in the order of the elements, or
    the rejection of the promise that settled first among the rejected
    ones is thrown, fewer calls than elements having been answered
    before it. *)
Lemma promiseAll_outcome (xs : list A) (order : list nat) (st : State World) :
  match promiseAll f xs order st with
  | (inr bs, st') =>
      Forall2 R xs bs
      /\ trace st' = trace st ++ repeat (EvCall method None) (List.length xs)
  | (inl e, st') =>
      exists k,
        (k < List.length xs)%nat
        /\ trace st' = trace st ++ repeat (EvCall method None) k
                       ++ [EvCall method (Some e)]
        /\ exists x, In x xs /\ Q x e
  end.
Proof.
  unfold promiseAll.
  pose proof (settleInOrder_outcome order xs (map inl xs) st (slotsOf_started xs)) as H.
  rewrite pendingCount_started in H. exact H.
Qed.
End Promises.
End EffectsFacts.


Module ServiceFacts.
Import Effects Effects.Notations Sdk Service Spec EffectsFacts.
Local Open Scope list_scope.

Section Facade.
Context {World PublicKey AccountInfo SdkTransaction Signer
         TransactionResponse EpochInfo : Type}.
Variable connection : Connection World PublicKey AccountInfo SdkTransaction
                        Signer TransactionResponse EpochInfo.
Variable transferTransaction :
  PublicKey -> PublicKey -> float -> Thrown + SdkTransaction.

(** The callback of [getTransactionHistory] awaits the one lookup. *)
Lemma fetchEntry_one_call (sig : ConfirmedSignatureInfo) (st : State World) :
  match fetchEntry connection sig st with
  | (inl e, st') =>
      trace st' = trace st ++ [EvCall "getTransaction" (Some e)]
      /\ lookupRejected connection sig e
  | (inr entry, st') =>
      trace st' = trace st ++ [EvCall "getTransaction" None]
      /\ entryOf connection sig entry
  end.
Proof.
  unfold fetchEntry, bind, call, ret.
  destruct (conn_getTransaction connection (sig_signature sig) (world st))
    as [[fault | tx] w] eqn:Hcall; cbn.
  - split; [reflexivity|]. now exists (world st), w.
  - split; [reflexivity|]. repeat split. now exists (world st), w.
Qed.

(** The lookups of [getTransactionHistory], in whatever order they are
    answered. *)
Lemma lookups_outcome (signatures : list ConfirmedSignatureInfo) (order : list nat)
    (st : State World) :
  match promiseAll (fetchEntry connection) signatures order st with
  | (inr entries, st') =>
      Forall2 (entryOf connection) signatures entries
      /\ trace st'
         = trace st ++ repeat (EvCall "getTransaction" None) (List.length signatures)
  | (inl fault, st') =>
      exists answered,
        (answered < List.length signatures)%nat
        /\ trace st' = trace st ++ repeat (EvCall "getTransaction" None) answered
                       ++ [EvCall "getTransaction" (Some fault)]
        /\ exists sig, In sig signatures /\ lookupRejected connection sig fault
  end.
Proof.
  exact (promiseAll_outcome (fetchEntry connection) "getTransaction"
           (entryOf connection) (lookupRejected connection) fetchEntry_one_call
           signatures order st).
Qed.

(** C3.  Each network-calling method of the facade, on a fault of an
    underlying call (or of building the transfer), throws its own fixed
    error, whatever the fault was, right after writing the fault to the
    console; the trace shows each underlying call answered, once,
    nothing after the faulting call but the console line, and no value
    is returned.  The lookups of [getTransactionHistory] are all started
    and answered in the order the network chooses: the fault written is
    the first rejection in time, whichever lookup it comes from, the
    trace shows the lookups answered before it, and the others are
    still pending.  Conversely a method never fails in any other way. *)
Theorem facade_fails_generically (st : State World) :
  (* getBalance *)
  (forall publicKey fault w,
      conn_getBalance connection publicKey (world st) = (inl fault, w) ->
      getBalance connection publicKey st
      = (inl (ErrorObj "Failed to fetch balance"),
         mkState w (trace st ++ [EvCall "getBalance" (Some fault);
                                 EvConsoleError "Error fetching balance:" fault])))
  (* getAccountInfo *)
  /\ (forall publicKey fault w,
      conn_getAccountInfo connection publicKey (world st) = (inl fault, w) ->
      getAccountInfo connection publicKey st
      = (inl (ErrorObj "Failed to fetch account info"),
         mkState w (trace st ++ [EvCall "getAccountInfo" (Some fault);
                                 EvConsoleError "Error fetching account info:" fault])))
  (* sendTransaction: the submission is rejected *)
  /\ (forall transaction signers fault w,
      conn_sendTransaction connection transaction signers (world st) = (inl fault, w) ->
      sendTransaction connection transaction signers st
      = (inl (ErrorObj "Failed to send transaction"),
         mkState w (trace st ++ [EvCall "sendTransaction" (Some fault);
                                 EvConsoleError "Error sending transaction:" fault])))
  (* sendTransaction: the confirmation is rejected *)
  /\ (forall transaction signers signature w1 fault w,
      conn_sendTransaction connection transaction signers (world st)
      = (inr signature, w1) ->
      conn_confirmTransaction connection signature "confirmed" w1 = (inl fault, w) ->
      sendTransaction connection transaction signers st
      = (inl (ErrorObj "Failed to send transaction"),
         mkState w (trace st ++ [EvCall "sendTransaction" None;
                                 EvCall "confirmTransaction" (Some fault);
                                 EvConsoleError "Error sending transaction:" fault])))
  (* transferSol: the transaction cannot be built *)
  /\ (forall fromPubkey toPubkey lamports signer fault,
      transferTransaction fromPubkey toPubkey lamports = inl fault ->
      transferSol connection transferTransaction fromPubkey toPubkey lamports signer st
      = (inl (ErrorObj "Failed to transfer SOL"),
         mkState (world st)
           (trace st ++ [EvConsoleError "Error transferring SOL:" fault])))
  (* transferSol: the submission is rejected *)
  /\ (forall fromPubkey toPubkey lamports signer transaction fault w,
      transferTransaction fromPubkey toPubkey lamports = inr transaction ->
      conn_sendTransaction connection transaction [signer] (world st) = (inl fault, w) ->
      transferSol connection transferTransaction fromPubkey toPubkey lamports signer st
      = (inl (ErrorObj "Failed to transfer SOL"),
         mkState w (trace st ++ [EvCall "sendTransaction" (Some fault);
                                 EvConsoleError "Error transferring SOL:" fault])))
  (* transferSol: the confirmation is rejected *)
  /\ (forall fromPubkey toPubkey lamports signer transaction signature w1 fault w,
      transferTransaction fromPubkey toPubkey lamports = inr transaction ->
      conn_sendTransaction connection transaction [signer] (world st)
      = (inr signature, w1) ->
      conn_confirmTransaction connection signature "confirmed" w1 = (inl fault, w) ->
      transferSol connection transferTransaction fromPubkey toPubkey lamports signer st
      = (inl (ErrorObj "Failed to transfer SOL"),
         mkState w (trace st ++ [EvCall "sendTransaction" None;
                                 EvCall "confirmTransaction" (Some fault);
                                 EvConsoleError "Error transferring SOL:" fault])))
  (* getRecentBlockhash *)
  /\ (forall fault w,
      conn_getLatestBlockhash connection (world st) = (inl fault, w) ->
      getRecentBlockhash connection st
      = (inl (ErrorObj "Failed to fetch recent blockhash"),
         mkState w (trace st ++ [EvCall "getLatestBlockhash" (Some fault);
                                 EvConsoleError "Error fetching recent blockhash:" fault])))
  (* getTransactionHistory: the signature list is rejected *)
  /\ (forall publicKey limit order fault w,
      conn_getSignaturesForAddress connection publicKey limit (world st)
      = (inl fault, w) ->
      getTransactionHistory connection publicKey limit order st
      = (inl (ErrorObj "Failed to fetch transaction history"),
         mkState w (trace st ++ [EvCall "getSignaturesForAddress" (Some fault);
                                 EvConsoleError "Error fetching transaction history:"
                                   fault])))
  (* getTransactionHistory: a transaction lookup is rejected, the
     lookups being answered in the order [order] *)
  /\ (forall publicKey limit order signatures w1 fault st2,
      conn_getSignaturesForAddress connection publicKey limit (world st)
      = (inr signatures, w1) ->
      promiseAll (fetchEntry connection) signatures order
        (mkState w1 (trace st ++ [EvCall "getSignaturesForAddress" None]))
      = (inl fault, st2) ->
      getTransactionHistory connection publicKey limit order st
      = (inl (ErrorObj "Failed to fetch transaction history"),
         mkState (world st2)
           (trace st2 ++ [EvConsoleError "Error fetching transaction history:" fault]))
      /\ exists answered,
           (answered < List.length signatures)%nat
           /\ trace st2
              = trace st ++ [EvCall "getSignaturesForAddress" None]
                ++ repeat (EvCall "getTransaction" None) answered
                ++ [EvCall "getTransaction" (Some fault)]
           /\ exists sig, In sig signatures /\ lookupRejected connection sig fault)
  (* getTransactionHistory: a lookup that is rejected whenever it is made *)
  /\ (forall publicKey limit order signatures w1 sig,
      conn_getSignaturesForAddress connection publicKey limit (world st)
      = (inr signatures, w1) ->
      In sig signatures ->
      (forall w, exists fault w',
          conn_getTransaction connection (sig_signature sig) w = (inl fault, w')) ->
      exists st',
        getTransactionHistory connection publicKey limit order st
        = (inl (ErrorObj "Failed to fetch transaction history"), st'))
  (* getSlot *)
  /\ (forall fault w,
      conn_getSlot connection (world st) = (inl fault, w) ->
      getSlot connection st
      = (inl (ErrorObj "Failed to fetch slot"),
         mkState w (trace st ++ [EvCall "getSlot" (Some fault);
                                 EvConsoleError "Error fetching slot:" fault])))
  (* getEpochInfo *)
  /\ (forall fault w,
      conn_getEpochInfo connection (world st) = (inl fault, w) ->
      getEpochInfo connection st
      = (inl (ErrorObj "Failed to fetch epoch info"),
         mkState w (trace st ++ [EvCall "getEpochInfo" (Some fault);
                                 EvConsoleError "Error fetching epoch info:" fault])))
  (* no other failure escapes *)
  /\ (forall publicKey,
      raisesOnly (getBalance connection publicKey)
        "Error fetching balance:" "Failed to fetch balance")
  /\ (forall publicKey,
      raisesOnly (getAccountInfo connection publicKey)
        "Error fetching account info:" "Failed to fetch account info")
  /\ (forall transaction signers,
      raisesOnly (sendTransaction connection transaction signers)
        "Error sending transaction:" "Failed to send transaction")
  /\ (forall fromPubkey toPubkey lamports signer,
      raisesOnly
        (transferSol connection transferTransaction fromPubkey toPubkey lamports signer)
        "Error transferring SOL:" "Failed to transfer SOL")
  /\ raisesOnly (getRecentBlockhash connection)
       "Error fetching recent blockhash:" "Failed to fetch recent blockhash"
  /\ (forall publicKey limit order,
      raisesOnly (getTransactionHistory connection publicKey limit order)
        "Error fetching transaction history:" "Failed to fetch transaction history")
  /\ raisesOnly (getSlot connection) "Error fetching slot:" "Failed to fetch slot"
  /\ raisesOnly (getEpochInfo connection)
       "Error fetching epoch info:" "Failed to fetch epoch info".
Proof.
  repeat match goal with |- _ /\ _ => split end; intros.
  all: try exact (guarded_raisesOnly _ _ _).
  all: try (match goal with
            | |- ?m = _ => unfold getBalance, getAccountInfo, sendTransaction,
                           transferSol, getRecentBlockhash, getTransactionHistory,
                           getSlot, getEpochInfo
            end;
            unfold tryCatch, bind, call, lift, consoleError, throw, ret;
            repeat (match goal with H : _ = _ |- _ => rewrite H; clear H end; cbn);
            rewrite <- ?app_assoc; reflexivity).
  - (* a rejected lookup *)
    pose proof (lookups_outcome signatures order
                  (mkState w1 (trace st ++ [EvCall "getSignaturesForAddress" None])))
      as Hrun.
    rewrite H0 in Hrun. destruct Hrun as (answered & Hlt & Htr & Hsig).
    split.
    + unfold getTransactionHistory.
      unfold tryCatch, bind at 1.
      rewrite (call_value _ _ _ _ _ H). rewrite H0.
      unfold bind, consoleError, throw. reflexivity.
    + exists answered. split; [exact Hlt|]. split; [|exact Hsig].
      rewrite Htr. cbn [trace]. rewrite <- !app_assoc. reflexivity.
  - (* a lookup that is always rejected *)
    pose proof (lookups_outcome signatures order
                  (mkState w1 (trace st ++ [EvCall "getSignaturesForAddress" None])))
      as Hrun.
    unfold getTransactionHistory.
    unfold tryCatch, bind at 1.
    rewrite (call_value _ _ _ _ _ H).
    destruct (promiseAll (fetchEntry connection) signatures order _)
      as [[fault | entries] st2].
    + eexists. unfold bind, consoleError, throw. reflexivity.
    + exfalso. destruct Hrun as [Hall _].
      clear - Hall H0 H1. induction Hall as [|s0 entry sigs entries Hentry Hall IH].
      * destruct H0.
      * destruct H0 as [<- | Hin]; [|exact (IH Hin)].
        destruct Hentry as (_ & _ & _ & w & w' & Hw).
        destruct (H1 w) as (fault & w2 & Hf). rewrite Hf in Hw. discriminate.
Qed.
End Facade.

Import Fixtures Scenarios.

(** C3 on three connections: one that is down, one that rejects
    confirmations, and one that rejects the lookups of ["b"] and ["c"],
    each with its own fault: when the lookup of ["c"] is answered first,
    its fault is the one written, and no other lookup has been
    answered by then; when the lookups are answered in the order they
    were started, it is the fault of ["b"], after the answer for
    ["a"]. *)
Lemma facade_fails_generically_witness :
  getBalance (downConnection timeout) "key" start
  = (inl (ErrorObj "Failed to fetch balance"),
     mkState tt [EvCall "getBalance" (Some timeout);
                 EvConsoleError "Error fetching balance:" timeout])
  /\ sendTransaction (flakyConnection timeout) tt [] start
     = (inl (ErrorObj "Failed to send transaction"),
        mkState tt [EvCall "sendTransaction" None;
                    EvCall "confirmTransaction" (Some timeout);
                    EvConsoleError "Error sending transaction:" timeout])
  /\ getTransactionHistory namingConnection "key" 10%float [2; 1; 0]%nat start
     = (inl (ErrorObj "Failed to fetch transaction history"),
        mkState tt [EvCall "getSignaturesForAddress" None;
                    EvCall "getTransaction" (Some (ErrorObj "no transaction c"));
                    EvConsoleError "Error fetching transaction history:"
                      (ErrorObj "no transaction c")])
  /\ getTransactionHistory namingConnection "key" 10%float [0; 1; 2]%nat start
     = (inl (ErrorObj "Failed to fetch transaction history"),
        mkState tt [EvCall "getSignaturesForAddress" None;
                    EvCall "getTransaction" None;
                    EvCall "getTransaction" (Some (ErrorObj "no transaction b"));
                    EvConsoleError "Error fetching transaction history:"
                      (ErrorObj "no transaction b")]).
Proof.
  split; [|split; [|split]].
  - pose proof (facade_fails_generically (downConnection timeout) buildTransfer start)
      as (H & _).
    exact (H "key" timeout tt eq_refl).
  - pose proof (facade_fails_generically (flakyConnection timeout) buildTransfer start)
      as (_ & _ & _ & H & _).
    exact (H tt [] "5ig" tt timeout tt eq_refl eq_refl).
  - pose proof (facade_fails_generically namingConnection buildTransfer start)
      as (_ & _ & _ & _ & _ & _ & _ & _ & _ & H & _).
    exact (proj1 (H "key" 10%float [2; 1; 0]%nat _ tt (ErrorObj "no transaction c")
                    (mkState tt [EvCall "getSignaturesForAddress" None;
                                 EvCall "getTransaction"
                                   (Some (ErrorObj "no transaction c"))])
                    eq_refl eq_refl)).
  - pose proof (facade_fails_generically namingConnection buildTransfer start)
      as (_ & _ & _ & _ & _ & _ & _ & _ & _ & H & _).
    exact (proj1 (H "key" 10%float [0; 1; 2]%nat _ tt (ErrorObj "no transaction b")
                    (mkState tt [EvCall "getSignaturesForAddress" None;
                                 EvCall "getTransaction" None;
                                 EvCall "getTransaction"
                                   (Some (ErrorObj "no transaction b"))])
                    eq_refl eq_refl)).
Defined.
End ServiceFacts.

Module UtilsEffectFacts.
Import Effects Effects.Notations Sdk Spec EffectsFacts.
Local Open Scope list_scope.

Section GetBalance.
Context {World PublicKey AccountInfo SdkTransaction Signer
         TransactionResponse EpochInfo : Type}.
Let Connection := Connection World PublicKey AccountInfo SdkTransaction
                    Signer TransactionResponse EpochInfo.

(** C10.  The free helper [getBalance] never raises: it always returns a
    number.  On a fault of the underlying call it writes the fault to
    the console and returns 0, the very value it returns when the
    balance is a genuine zero, while the facade's [getBalance] raises
    on the same fault. *)
Theorem utils_getBalance_never_raises (connection : Connection)
    (publicKey : PublicKey) (st : State World) :
  (exists balance st',
      Utils.getBalance connection publicKey st = (inr balance, st'))
  /\ (forall fault w,
      conn_getBalance connection publicKey (world st) = (inl fault, w) ->
      Utils.getBalance connection publicKey st
      = (inr 0%float,
         mkState w (trace st ++ [EvCall "getBalance" (Some fault);
                                 EvConsoleError "Error fetching balance:" fault]))
      /\ (forall (connection2 : Connection) st2 w2,
            conn_getBalance connection2 publicKey (world st2) = (inr 0%float, w2) ->
            fst (Utils.getBalance connection publicKey st)
            = fst (Utils.getBalance connection2 publicKey st2))
      /\ fst (Service.getBalance connection publicKey st)
         = inl (ErrorObj "Failed to fetch balance"))
  /\ (forall balance w,
      conn_getBalance connection publicKey (world st) = (inr balance, w) ->
      Utils.getBalance connection publicKey st
      = (inr balance, mkState w (trace st ++ [EvCall "getBalance" None]))).
Proof.
  unfold Utils.getBalance, Service.getBalance, tryCatch, bind, call,
    consoleError, ret, throw.
  destruct (conn_getBalance connection publicKey (world st)) as [[fault | b] w] eqn:E;
    cbn.
  - split; [eauto|]. split.
    + intros fault' w' [= <- <-]. rewrite <- app_assoc.
      split; [reflexivity|]. split; [|reflexivity].
      intros connection2 st2 w2 H2. rewrite H2. reflexivity.
    + intros b w' [=].
  - split; [eauto|]. split.
    + intros fault w' [=].
    + intros b' w' [= <- <-]. reflexivity.
Qed.
End GetBalance.

Import Fixtures.

(** C10 on a connection that is down. *)
Lemma utils_getBalance_never_raises_witness :
  Utils.getBalance (downConnection timeout) "key" start
  = (inr 0%float,
     mkState tt [EvCall "getBalance" (Some timeout);
                 EvConsoleError "Error fetching balance:" timeout])
  /\ fst (Utils.getBalance (downConnection timeout) "key" start)
     = fst (Utils.getBalance (flakyConnection timeout) "key" start).
Proof.
  pose proof (utils_getBalance_never_raises (downConnection timeout) "key" start)
    as (_ & H & _).
  destruct (H timeout tt eq_refl) as (H1 & H2 & _).
  split; [exact H1|].
  exact (H2 (flakyConnection timeout) start tt eq_refl).
Defined.
End UtilsEffectFacts.

Module FloatFacts.
Import JSNumber.

Lemma Prim2SF_zero : Prim2SF 0%float = S754_zero false.
Proof. reflexivity. Qed.

(** A number that [=== 0] is neither above nor below zero. *)
Lemma eqb_zero_not_ltb (x : float) :
  (x =? 0)%float = true -> (0 <? x)%float = false /\ (x <? 0)%float = false.
Proof.
  rewrite eqb_spec, !ltb_spec, Prim2SF_zero.
  destruct (Prim2SF x) as [s | s | | s m e]; cbn; try destruct s; cbn;
    intros H; try discriminate; split; reflexivity.
Qed.

(** Not [NaN] and not [<= 0] is [> 0]. *)
Lemma positive_iff (x : float) :
  (negb (isNaN x) && negb (x <=? 0)%float) = (0 <? x)%float.
Proof.
  unfold isNaN, PrimFloat.is_nan.
  rewrite eqb_spec, leb_spec, ltb_spec, Prim2SF_zero.
  destruct (Prim2SF x) as [s | s | | s m e]; cbn; try destruct s; cbn;
    try reflexivity.
  - unfold SFeqb, SFcompare. rewrite Z.compare_refl, Pos.compare_cont_refl. reflexivity.
  - unfold SFeqb, SFcompare. rewrite Z.compare_refl, Pos.compare_cont_refl. reflexivity.
Qed.
End FloatFacts.


Module RoundingFacts.
Import FloatSpec.

Lemma binary_round_aux_sign (s : bool) (m e : Z) (l : location) :
  binary_round_aux prec emax s m e l
  = withSign s (binary_round_aux prec emax false m e l).
Proof.
  unfold binary_round_aux.
  destruct (shr_fexp prec emax m e l) as [mrs' e'].
  destruct (shr_fexp prec emax _ e' loc_Exact) as [mrs'' e''].
  destruct (shr_m mrs''); [reflexivity | | reflexivity].
  destruct (e'' <=? emax - prec); reflexivity.
Qed.

Lemma binary_round_sign (s : bool) (m : positive) (e : Z) :
  binary_round prec emax s m e = withSign s (binary_round prec emax false m e).
Proof.
  unfold binary_round. destruct (shl_align m e _) as [mz ez].
  apply binary_round_aux_sign.
Qed.

Lemma shr_1_nonneg (mrs : shr_record) : 0 <= shr_m mrs -> 0 <= shr_m (shr_1 mrs).
Proof.
  destruct mrs as [m r s]. cbn. destruct m as [|p|p]; [cbn; lia | | lia].
  intros _. destruct p; cbn; lia.
Qed.

Lemma iter_pos_shr_1_nonneg (p : positive) (mrs : shr_record) :
  0 <= shr_m mrs -> 0 <= shr_m (iter_pos shr_1 p mrs).
Proof.
  revert mrs. induction p as [p IH | p IH |]; intros mrs H; cbn.
  - apply IH, IH, shr_1_nonneg, H.
  - apply IH, IH, H.
  - apply shr_1_nonneg, H.
Qed.

Lemma shr_fexp_nonneg (m e : Z) (l : location) :
  0 <= m -> 0 <= shr_m (fst (shr_fexp prec emax m e l)).
Proof.
  intros H. unfold shr_fexp, shr.
  assert (H0 : 0 <= shr_m (shr_record_of_loc m l))
    by (destruct l as [|[]]; exact H).
  destruct (fexp prec emax (Zdigits2 m + e) - e); cbn; try exact H0.
  apply iter_pos_shr_1_nonneg, H0.
Qed.

Lemma round_nearest_even_nonneg (m : Z) (l : location) :
  0 <= m -> 0 <= round_nearest_even m l.
Proof.
  intros H. destruct l as [|[]]; cbn; try lia.
  destruct (Z.even m); lia.
Qed.

(** Rounding a non-negative mantissa never yields [NaN]. *)
Lemma binary_round_aux_not_nan (s : bool) (m e : Z) (l : location) :
  0 <= m -> binary_round_aux prec emax s m e l <> S754_nan.
Proof.
  intros H. unfold binary_round_aux.
  pose proof (shr_fexp_nonneg m e l H) as H1.
  destruct (shr_fexp prec emax m e l) as [mrs' e']. cbn in H1.
  pose proof (shr_fexp_nonneg _ e' loc_Exact
                (round_nearest_even_nonneg _ (loc_of_shr_record mrs') H1)) as H2.
  destruct (shr_fexp prec emax _ e' loc_Exact) as [mrs'' e'']. cbn in H2.
  destruct (shr_m mrs''); [discriminate | | lia].
  destruct (e'' <=? emax - prec); discriminate.
Qed.

Lemma SFeqb_refl (x : spec_float) : x <> S754_nan -> SFeqb x x = true.
Proof.
  destruct x as [s | s | | s m e]; intros H; try reflexivity; try congruence.
  - destruct s; reflexivity.
  - unfold SFeqb, SFcompare.
    rewrite Z.compare_refl, Pos.compare_cont_refl. destruct s; reflexivity.
Qed.

(** A quotient by a finite non-zero divisor is [NaN] only when the
    dividend is. *)
Lemma SFdiv_finite_not_nan (x : spec_float) (s : bool) (m : positive) (e : Z) :
  x <> S754_nan -> SF64div x (S754_finite s m e) <> S754_nan.
Proof.
  intros H. destruct x as [sx | sx | | sx mx ex]; cbn; try discriminate; try congruence.
  unfold SFdiv_core_binary.
  set (e' := Z.min _ _). set (m' := match (ex - e - e') with Zpos _ => _ | _ => _ end).
  assert (Hm' : 0 <= m').
  { subst m'. destruct (ex - e - e'); try lia. apply Z.shiftl_nonneg. lia. }
  pose proof (Z.div_pos m' (Zpos m) Hm' eq_refl) as Hq.
  unfold Z.div in Hq. destruct (Z.div_eucl m' (Zpos m)) as [q r].
  apply binary_round_aux_not_nan, Hq.
Qed.

End RoundingFacts.


Module SentAmountFacts.
Import FloatSpec RoundingFacts.

Lemma withSign_abs (s : bool) (x : spec_float) : SFabs (withSign s x) = withSign false x.
Proof. destruct x; reflexivity. Qed.

(** For a negative [d] and [d + f <= 0], [|d + f|] and [|d| - f] are the
    same double, up to the sign of a zero. *)
Lemma abs_add_sub (D F : spec_float) :
  SFltb D (S754_zero false) = true ->
  SFleb (SF64add D F) (S754_zero false) = true ->
  SFabs (SF64add D F) = SF64sub (SFabs D) F
  \/ (SFabs (SF64add D F) = S754_zero false
      /\ SF64sub (SFabs D) F = S754_zero true).
Proof.
  intros HD Hle.
  destruct D as [sd | sd | | sd md ed]; try discriminate;
    destruct sd; try discriminate.
  - (* minus infinity *)
    destruct F as [sf | sf | | sf mf ef]; try discriminate;
      try destruct sf; try discriminate; left; reflexivity.
  - (* negative and finite *)
    destruct F as [sf | sf | | sf mf ef]; try discriminate.
    + left. reflexivity.
    + destruct sf; try discriminate. left. reflexivity.
    + unfold SF64add, SF64sub, SFadd, SFsub in *.
      cbn [SFabs] in *. cbv zeta in *.
      set (ez := Z.min ed ef) in *.
      set (a := Z.pos (fst (shl_align md ed ez))) in *.
      set (b := cond_Zopp sf (Z.pos (fst (shl_align mf ef ez)))) in *.
      change (cond_Zopp true a) with (- a) in *.
      change (cond_Zopp false a) with a.
      replace (a - b) with (- (- a + b)) by lia.
      destruct (- a + b) as [|p|p]; cbn [Z.opp binary_normalize] in *.
      * left. reflexivity.
      * (* the sum is positive: it can only be below zero as a zero *)
        rewrite (binary_round_sign true).
        pose proof (binary_round_sign false p ez) as HR.
        destruct (binary_round prec emax false p ez) as [s | s | | s m e];
          try discriminate; cbn in HR; injection HR as ->; try discriminate.
        right. split; reflexivity.
      * rewrite (binary_round_sign true), withSign_abs.
        left. symmetry. apply binary_round_sign.
Qed.
End SentAmountFacts.

Module TransactionListFacts.
Import JSString JSNumber Sdk TransactionList TransactionSpec FloatFacts RoundingFacts
  SentAmountFacts.

(** [includes] finds the needle exactly when it occurs somewhere. *)
Lemma prefix_iff (needle hay : string) :
  prefix needle hay = true <-> exists rest, hay = needle ++ rest.
Proof.
  revert hay. induction needle as [|c needle IH]; intros hay.
  - split; [intros _; now exists hay | intros _; destruct hay; reflexivity].
  - destruct hay as [|h hay]; simpl; [split; [discriminate | intros [r [=]]]|].
    destruct (ascii_dec c h) as [-> | Hne].
    + rewrite IH. split; intros [r Hr]; exists r; [now rewrite Hr | now injection Hr].
    + split; [discriminate | intros [r [= E _]]; congruence].
Qed.

Lemma includes_iff (hay needle : string) :
  includes hay needle = true <-> exists before after, hay = before ++ needle ++ after.
Proof.
  induction hay as [|h hay IH]; cbn [includes].
  - rewrite orb_false_r, prefix_iff. split.
    + intros [r Hr]. now exists "", r.
    + intros (b & a & H). destruct b; simpl in H; [now exists a | discriminate].
  - rewrite orb_true_iff, prefix_iff, IH. split.
    + intros [[r Hr] | (b & a & H)].
      * now exists "", r.
      * exists (String h b), a. simpl. now rewrite H.
    + intros (b & a & H). destruct b as [|c b]; simpl in H.
      * left. now exists a.
      * right. injection H as _ H. now exists b, a.
Qed.

Lemma hasStakeMarker_iff (tx : ParsedTransactionWithMeta) :
  hasStakeMarker tx = true
  <-> exists ix programId before after,
        In ix (tx_instructions tx)
        /\ ix_programId ix = Some programId
        /\ programId = before ++ "Stake" ++ after.
Proof.
  unfold hasStakeMarker. rewrite existsb_exists. split.
  - intros (ix & Hin & H). destruct (ix_programId ix) as [p|] eqn:E; [|discriminate].
    apply includes_iff in H. destruct H as (b & a & H). now exists ix, p, b, a.
  - intros (ix & p & b & a & Hin & E & H). exists ix. split; [exact Hin|].
    rewrite E. apply includes_iff. now exists b, a.
Qed.

(** The type is decided by the last applicable rule of the fixed order
    delta sign, token entries, stake marker. *)
Lemma type_precedence (publicKey : string) (signature : ConfirmedSignatureInfo)
    (tx : ParsedTransactionWithMeta) :
  type (parseTransaction publicKey signature tx)
  = if hasStakeMarker tx then stake
    else if 0 <? Z.of_nat (List.length (tokenEntriesOf tx)) then swap
    else if (0 <? balanceChangeOf tx)%float then received
    else if (balanceChangeOf tx <? 0)%float then sent
    else unknown.
Proof.
  unfold parseTransaction.
  fold (hasStakeMarker tx). fold (tokenEntriesOf tx). fold (balanceChangeOf tx).
  destruct (hasStakeMarker tx), (0 <? Z.of_nat (List.length (tokenEntriesOf tx))),
    (0 <? balanceChangeOf tx)%float, (balanceChangeOf tx <? 0)%float; reflexivity.
Qed.

(** Every record shown after a fetch is the classification of one of the
    fetched transactions. *)
Lemma mapWithIndex_elements {A B : Type} (f : A -> nat -> option B) (xs : list A) :
  forall index ys y,
    mapWithIndex f index xs = Some ys -> In y ys ->
    exists x i, In x xs /\ f x i = Some y.
Proof.
  induction xs as [|x xs IH]; intros index ys y H Hin; simpl in H.
  - injection H as <-. destruct Hin.
  - destruct (f x index) as [y0|] eqn:Ef; [|discriminate].
    destruct (mapWithIndex f (S index) xs) as [ys0|] eqn:Em; [|discriminate].
    injection H as <-. destruct Hin as [<- | Hin].
    + exists x, index. split; [now left | exact Ef].
    + destruct (IH _ _ _ Em Hin) as (x' & i & Hx & Hf).
      exists x', i. split; [now right | exact Hf].
Qed.

Lemma parsedTransactions_elements (publicKey : string)
    (signatures : list ConfirmedSignatureInfo)
    (txs : list (option ParsedTransactionWithMeta)) (records : list Transaction)
    (record : Transaction) :
  parsedTransactions publicKey signatures txs = Some records ->
  In record records ->
  exists signature tx,
    In (Some tx) txs /\ In signature signatures
    /\ record = parseTransaction publicKey signature tx.
Proof.
  unfold parsedTransactions. intros H Hin.
  destruct (mapWithIndex_elements _ _ _ _ _ H Hin) as (tx & i & Htx & Hf).
  destruct (nth_error signatures i) as [sig|] eqn:En; [|discriminate].
  injection Hf as <-. exists sig, tx. repeat split.
  - apply in_flat_map in Htx. destruct Htx as ([t|] & Ht & Hx); [|destruct Hx].
    destruct Hx as [<- | []]. exact Ht.
  - eapply nth_error_In, En.
Qed.

(** C1.  The type of a record follows a fixed precedence: a stake marker
    on any instruction gives [stake] whatever the delta and the token
    entries are; otherwise any token-balance entry gives [swap]; otherwise
    a positive first-account delta gives [received], a negative one
    [sent], and a zero delta leaves [unknown]. *)
Theorem classification_precedence (publicKey : string)
    (signature : ConfirmedSignatureInfo) (tx : ParsedTransactionWithMeta) :
  let record := parseTransaction publicKey signature tx in
  (hasStakeMarker tx = true -> type record = stake)
  /\ (hasStakeMarker tx = false -> tokenEntriesOf tx <> [] -> type record = swap)
  /\ (hasStakeMarker tx = false -> tokenEntriesOf tx = [] ->
      (0 <? balanceChangeOf tx)%float = true -> type record = received)
  /\ (hasStakeMarker tx = false -> tokenEntriesOf tx = [] ->
      (balanceChangeOf tx <? 0)%float = true -> type record = sent)
  /\ (hasStakeMarker tx = false -> tokenEntriesOf tx = [] ->
      (balanceChangeOf tx =? 0)%float = true -> type record = unknown).
Proof.
  cbv zeta. rewrite type_precedence.
  repeat split.
  - intros ->. reflexivity.
  - intros -> Hne. destruct (tokenEntriesOf tx); [congruence | reflexivity].
  - intros -> -> ->. reflexivity.
  - intros -> -> Hlt. rewrite Hlt.
    destruct (0 <? balanceChangeOf tx)%float eqn:Hgt; [|reflexivity].
    exfalso. revert Hlt Hgt. rewrite !ltb_spec, Prim2SF_zero.
    destruct (Prim2SF (balanceChangeOf tx)) as [s | s | | s m e]; cbn;
      try destruct s; cbn; discriminate.
  - intros -> -> Hz. destruct (eqb_zero_not_ltb _ Hz) as [-> ->]. reflexivity.
Qed.

Import Fixtures.

(** C1 on five transactions, one per rule. *)
Lemma classification_precedence_witness :
  type (parseTransaction "me" signatureInfo
          (transaction 5 9 0 [tokenEntry] [systemProgram; stakeProgram])) = stake
  /\ type (parseTransaction "me" signatureInfo
             (transaction 9 5 0 [tokenEntry] [systemProgram])) = swap
  /\ type (parseTransaction "me" signatureInfo
             (transaction 5 9 0 [] [systemProgram])) = received
  /\ type (parseTransaction "me" signatureInfo
             (transaction 9 5 0 [] [systemProgram])) = sent
  /\ type (parseTransaction "me" signatureInfo
             (transaction 5 5 0 [] [systemProgram])) = unknown.
Proof.
  split; [|split; [|split; [|split]]].
  - exact (proj1 (classification_precedence "me" signatureInfo
                    (transaction 5 9 0 [tokenEntry] [systemProgram; stakeProgram]))
             eq_refl).
  - refine (proj1 (proj2 (classification_precedence "me" signatureInfo
                            (transaction 9 5 0 [tokenEntry] [systemProgram])))
              eq_refl _).
    discriminate.
  - exact (proj1 (proj2 (proj2 (classification_precedence "me" signatureInfo
                                  (transaction 5 9 0 [] [systemProgram]))))
             eq_refl eq_refl eq_refl).
  - exact (proj1 (proj2 (proj2 (proj2 (classification_precedence "me" signatureInfo
                                         (transaction 9 5 0 [] [systemProgram])))))
             eq_refl eq_refl eq_refl).
  - exact (proj2 (proj2 (proj2 (proj2 (classification_precedence "me" signatureInfo
                                         (transaction 5 5 0 [] [systemProgram])))))
             eq_refl eq_refl eq_refl).
Defined.

Lemma Prim2SF_1e9 : Prim2SF 1e9%float = S754_finite false 8388608000000000 (-23).
Proof. reflexivity. Qed.

(** The amount of a record whose delta is negative. *)
Lemma amount_of_negative_delta (publicKey : string)
    (signature : ConfirmedSignatureInfo) (tx : ParsedTransactionWithMeta) :
  (balanceChangeOf tx <? 0)%float = true ->
  amount (parseTransaction publicKey signature tx)
  = (abs (balanceChangeOf tx + feeOf tx) / 1e9)%float.
Proof.
  intros Hlt. unfold parseTransaction.
  fold (balanceChangeOf tx). fold (feeOf tx). rewrite Hlt.
  assert (Hgt : (0 <? balanceChangeOf tx)%float = false).
  { revert Hlt. rewrite !ltb_spec, Prim2SF_zero.
    destruct (Prim2SF (balanceChangeOf tx)) as [s | s | | s m e]; cbn;
      try destruct s; cbn; congruence. }
  rewrite Hgt.
  destruct (0 <? Z.of_nat _); destruct (existsb _ _); reflexivity.
Qed.

(** Counterexample to C6 as stated: the first account pays a fee of 5000
    base units and receives 3000, so its delta is -2000.  The record is
    [sent] and its amount is [|-2000 + 5000| / 1e9 = 0.000003], whereas
    [(|delta| - fee) / 1e9] is [-0.000003]. *)
Lemma sent_amount_counterexample :
  let tx := transaction 10000 8000 5000 [] [systemProgram] in
  let record := parseTransaction "me" signatureInfo tx in
  (balanceChangeOf tx <? 0)%float = true
  /\ type record = sent
  /\ amount record = 3e-6%float
  /\ ((abs (balanceChangeOf tx) - feeOf tx) / 1e9)%float = (-3e-6)%float
  /\ (amount record =? (abs (balanceChangeOf tx) - feeOf tx) / 1e9)%float = false.
Proof. vm_compute. repeat split. Qed.

(** C6 (amended).  For every record with a negative first-account delta,
    the displayed amount is [|delta + fee| / 1e9]: the fee is added back
    to the delta before the magnitude is taken.  Whenever the fee does
    not exceed the magnitude of the delta ([delta + fee <= 0]) this is
    the number [(|delta| - fee) / 1e9]. *)
Theorem sent_amount_excludes_fee (publicKey : string)
    (signature : ConfirmedSignatureInfo) (tx : ParsedTransactionWithMeta) :
  (balanceChangeOf tx <? 0)%float = true ->
  amount (parseTransaction publicKey signature tx)
  = (abs (balanceChangeOf tx + feeOf tx) / 1e9)%float
  /\ ((balanceChangeOf tx + feeOf tx <=? 0)%float = true ->
      (amount (parseTransaction publicKey signature tx)
       =? (abs (balanceChangeOf tx) - feeOf tx) / 1e9)%float = true).
Proof.
  intros Hlt. rewrite (amount_of_negative_delta _ _ _ Hlt).
  split; [reflexivity|]. intros Hle.
  rewrite eqb_spec, !div_spec, abs_spec, sub_spec, abs_spec, add_spec, Prim2SF_1e9.
  rewrite ltb_spec, Prim2SF_zero in Hlt.
  rewrite leb_spec, add_spec, Prim2SF_zero in Hle.
  destruct (abs_add_sub _ _ Hlt Hle) as [E | [E1 E2]].
  - rewrite <- E. apply SFeqb_refl, SFdiv_finite_not_nan.
    destruct (SF64add (Prim2SF (balanceChangeOf tx)) (Prim2SF (feeOf tx)));
      discriminate.
  - rewrite E1, E2. reflexivity.
Qed.

(** The amended C6 on a transfer of one SOL with a fee of 5000 base
    units. *)
Lemma sent_amount_excludes_fee_witness :
  let tx := transaction 1000005000 0 5000 [] [systemProgram] in
  amount (parseTransaction "me" signatureInfo tx)
  = (abs (balanceChangeOf tx + feeOf tx) / 1e9)%float
  /\ (amount (parseTransaction "me" signatureInfo tx)
      =? (abs (balanceChangeOf tx) - feeOf tx) / 1e9)%float = true.
Proof.
  cbv zeta.
  destruct (sent_amount_excludes_fee "me" signatureInfo
              (transaction 1000005000 0 5000 [] [systemProgram]) eq_refl) as [H1 H2].
  split; [exact H1 | exact (H2 eq_refl)].
Defined.
End TransactionListFacts.

Module SendSolFacts.
Import JSString JSNumber Effects Effects.Notations Sdk SendSol StringFacts FloatFacts.

(** [x <= 0] is [x === 0] or [x < 0]. *)
Lemma leb_zero_iff (x : float) :
  (x <=? 0)%float = ((x =? 0)%float || (x <? 0)%float).
Proof.
  rewrite leb_spec, eqb_spec, ltb_spec, Prim2SF_zero.
  destruct (Prim2SF x) as [s | s | | s m e]; cbn; try destruct s; reflexivity.
Qed.

(** What the amount test rejects: a blank text, a text that is not a
    number, zero, and negative numbers. *)
Lemma amountInvalid_iff (amount : string) :
  amountInvalid amount = true
  <-> trim amount = ""
      \/ isNaN (StringToNumber amount) = true
      \/ (StringToNumber amount =? 0)%float = true
      \/ (StringToNumber amount <? 0)%float = true.
Proof.
  unfold amountInvalid. rewrite leb_zero_iff, !orb_true_iff, negb_true_iff.
  assert (Ht : truthy (trim amount) = false <-> trim amount = "")
    by (destruct (trim amount); simpl; split; congruence).
  rewrite Ht. tauto.
Qed.

(** What it lets through: a non-blank text whose number is above zero. *)
Lemma amountValid_iff (amount : string) :
  amountInvalid amount = false
  <-> trim amount <> "" /\ (0 <? StringToNumber amount)%float = true.
Proof.
  unfold amountInvalid. rewrite <- positive_iff.
  rewrite !orb_false_iff, andb_true_iff, !negb_true_iff, negb_false_iff.
  rewrite truthy_nonempty. tauto.
Qed.

Section Component.
Context {World PublicKey AccountInfo Instruction Signer
         TransactionResponse EpochInfo : Type}.
Variable newPublicKey : string -> Thrown + PublicKey.
Variable systemTransfer : PublicKey -> PublicKey -> float -> Thrown + Instruction.
Variable connection :
  Connection World PublicKey AccountInfo (SdkTransaction (PublicKey := PublicKey) (Instruction := Instruction))
    Signer TransactionResponse EpochInfo.
Variable connected : bool.
Variable publicKey : option PublicKey.
Variable walletSendTransaction :
  SdkTransaction (PublicKey := PublicKey) (Instruction := Instruction) -> Oracle World string.

Let rejected (message : string) (st : FormState) : bool * FormState :=
  (false, setStatus (mkStatus (Some StatusError) message) st).

Lemma validateInputs_no_recipient (st : FormState) :
  trim (recipient st) = "" ->
  validateInputs newPublicKey st = rejected "Recipient address is required" st.
Proof.
  intros H. unfold validateInputs. rewrite H. reflexivity.
Qed.

Lemma validateInputs_bad_amount (st : FormState) :
  trim (recipient st) <> "" ->
  amountInvalid (amount st) = true ->
  validateInputs newPublicKey st = rejected "Please enter a valid amount" st.
Proof.
  intros Hr Ha. unfold validateInputs.
  apply truthy_nonempty in Hr. rewrite Hr, Ha. reflexivity.
Qed.

Lemma validateInputs_bad_address (st : FormState) (thrown : Thrown) :
  trim (recipient st) <> "" ->
  amountInvalid (amount st) = false ->
  newPublicKey (recipient st) = inl thrown ->
  validateInputs newPublicKey st = rejected "Invalid recipient address" st.
Proof.
  intros Hr Ha Hk. unfold validateInputs.
  apply truthy_nonempty in Hr. rewrite Hr, Ha, Hk. reflexivity.
Qed.

Lemma validateInputs_accepts (st : FormState) (key : PublicKey) :
  trim (recipient st) <> "" ->
  amountInvalid (amount st) = false ->
  newPublicKey (recipient st) = inr key ->
  validateInputs newPublicKey st = (true, st).
Proof.
  intros Hr Ha Hk. unfold validateInputs.
  apply truthy_nonempty in Hr. rewrite Hr, Ha, Hk. reflexivity.
Qed.

(** The four outcomes, in the order in which they are tried. *)
Lemma validateInputs_outcome (st : FormState) :
  (trim (recipient st) = ""
   /\ validateInputs newPublicKey st = rejected "Recipient address is required" st)
  \/ (trim (recipient st) <> "" /\ amountInvalid (amount st) = true
      /\ validateInputs newPublicKey st = rejected "Please enter a valid amount" st)
  \/ (trim (recipient st) <> "" /\ amountInvalid (amount st) = false
      /\ (exists thrown, newPublicKey (recipient st) = inl thrown)
      /\ validateInputs newPublicKey st = rejected "Invalid recipient address" st)
  \/ (trim (recipient st) <> "" /\ amountInvalid (amount st) = false
      /\ (exists key, newPublicKey (recipient st) = inr key)
      /\ validateInputs newPublicKey st = (true, st)).
Proof.
  destruct (string_dec (trim (recipient st)) "") as [Hr | Hr].
  - left. split; [exact Hr | apply validateInputs_no_recipient, Hr].
  - right. destruct (amountInvalid (amount st)) eqn:Ha.
    + left. repeat split; [exact Hr | now apply validateInputs_bad_amount].
    + right. destruct (newPublicKey (recipient st)) as [thrown | key] eqn:Hk.
      * left. repeat split; [exact Hr | now exists thrown |].
        now apply (validateInputs_bad_address st thrown).
      * right. repeat split; [exact Hr | now exists key |].
        now apply (validateInputs_accepts st key).
Qed.

(** C2 (amended).  Validation short-circuits on the first failure in the
    order: recipient non-blank, then amount non-blank and a number above
    zero, then recipient accepted by the [PublicKey] constructor.  A blank
    recipient, a blank or non-numeric amount, a zero or negative amount and
    a malformed address are each rejected, and a rejection ends the handler
    with the world and the trace untouched: no network call has been made.
    Validation succeeds exactly when the three checks pass.  The amount
    check is [!isNaN(n) && n > 0]: it does not ask for a finite number. *)
Theorem validation_short_circuits (st : FormState) :
  (* an empty recipient is rejected first *)
  (trim (recipient st) = "" ->
   validateInputs newPublicKey st = rejected "Recipient address is required" st)
  (* then the amount *)
  /\ (trim (recipient st) <> "" ->
      amountInvalid (amount st) = true ->
      validateInputs newPublicKey st = rejected "Please enter a valid amount" st)
  (* then the address *)
  /\ (trim (recipient st) <> "" ->
      amountInvalid (amount st) = false ->
      forall thrown, newPublicKey (recipient st) = inl thrown ->
      validateInputs newPublicKey st = rejected "Invalid recipient address" st)
  (* it succeeds exactly when the three checks pass *)
  /\ (fst (validateInputs newPublicKey st) = true
      <-> trim (recipient st) <> ""
          /\ (trim (amount st) <> "" /\ (0 <? StringToNumber (amount st))%float = true)
          /\ exists key, newPublicKey (recipient st) = inr key)
  /\ (fst (validateInputs newPublicKey st) = true ->
      validateInputs newPublicKey st = (true, st))
  (* the amount check rejects blank, non-numeric, zero and negative amounts *)
  /\ (trim (amount st) = ""
      \/ isNaN (StringToNumber (amount st)) = true
      \/ (StringToNumber (amount st) =? 0)%float = true
      \/ (StringToNumber (amount st) <? 0)%float = true ->
      fst (validateInputs newPublicKey st) = false)
  (* a rejection leaves the world and the trace as they were *)
  /\ (fst (validateInputs newPublicKey st) = false ->
      forall s, exists st',
        handleSendSol newPublicKey systemTransfer connection connected publicKey
          walletSendTransaction st s
        = (inr st', s)
        /\ (connected = true -> publicKey <> None ->
            st' = snd (validateInputs newPublicKey st))).
Proof.
  split; [apply validateInputs_no_recipient|].
  split; [apply validateInputs_bad_amount|].
  split; [intros Hr Ha thrown Hk; now apply (validateInputs_bad_address st thrown)|].
  split; [|split; [|split]].
  - rewrite <- amountValid_iff.
    destruct (validateInputs_outcome st)
      as [[Hr E] | [(Hr & Ha & E) | [(Hr & Ha & [t Hk] & E) | (Hr & Ha & [k Hk] & E)]]];
      rewrite E; cbn; split; try discriminate; try tauto.
    + intros (_ & Hv & _). congruence.
    + intros (_ & _ & [k Hk']). congruence.
    + intros _. repeat split; try assumption. now exists k.
  - destruct (validateInputs_outcome st)
      as [[Hr E] | [(Hr & Ha & E) | [(Hr & Ha & [t Hk] & E) | (Hr & Ha & [k Hk] & E)]]];
      rewrite E; cbn; try discriminate. reflexivity.
  - intros Hbad. apply amountInvalid_iff in Hbad.
    destruct (validateInputs_outcome st)
      as [[Hr E] | [(Hr & Ha & E) | [(Hr & Ha & [t Hk] & E) | (Hr & Ha & [k Hk] & E)]]];
      rewrite E; cbn; try reflexivity. congruence.
  - intros Hf s. unfold handleSendSol.
    destruct connected; [destruct publicKey as [pk|]|].
    + destruct (validateInputs newPublicKey st) as [valid st1]. cbn in Hf. subst valid.
      cbn. exists st1. split; [reflexivity | reflexivity].
    + eexists. split; [reflexivity | congruence].
    + eexists. split; [reflexivity | congruence].
Qed.
End Component.

Import Fixtures.

(** Counterexample to C2 as stated: with a well-formed address, the amount
    texts ["Infinity"] and ["1e400"] pass validation although the number
    they denote, [Infinity], is not finite. *)
Lemma validation_accepts_infinity :
  fst (validateInputs Base58.newPublicKey (form systemProgram "Infinity")) = true
  /\ fst (validateInputs Base58.newPublicKey (form systemProgram "1e400")) = true
  /\ StringToNumber "Infinity" = infinity
  /\ StringToNumber "1e400" = infinity
  /\ PrimFloat.is_finite infinity = false.
Proof. vm_compute. repeat split. Qed.

(** The amended C2 on the four kinds of input, and on a handler run. *)
Lemma validation_short_circuits_witness :
  validateInputs Base58.newPublicKey (form "  " "abc")
  = (false, setStatus (mkStatus (Some StatusError) "Recipient address is required")
              (form "  " "abc"))
  /\ validateInputs Base58.newPublicKey (form "not a key" "-1")
     = (false, setStatus (mkStatus (Some StatusError) "Please enter a valid amount")
                 (form "not a key" "-1"))
  /\ validateInputs Base58.newPublicKey (form "not a key" "1.5")
     = (false, setStatus (mkStatus (Some StatusError) "Invalid recipient address")
                 (form "not a key" "1.5"))
  /\ fst (validateInputs Base58.newPublicKey (form systemProgram "1.5")) = true
  /\ exists st',
       handleSendSol Base58.newPublicKey buildTransfer formConnection true (Some "me")
         walletSend (form systemProgram "0") start
       = (inr st', start).
Proof.
  pose (thm := fun st =>
          validation_short_circuits Base58.newPublicKey buildTransfer formConnection
            true (Some "me") walletSend st).
  assert (Hne : trim "not a key" <> "") by (vm_compute; discriminate).
  split; [|split; [|split; [|split]]].
  - exact (proj1 (thm (form "  " "abc")) eq_refl).
  - exact (proj1 (proj2 (thm (form "not a key" "-1"))) Hne eq_refl).
  - refine (proj1 (proj2 (proj2 (thm (form "not a key" "1.5")))) Hne eq_refl _ eq_refl).
  - apply (proj1 (proj2 (proj2 (proj2 (thm (form systemProgram "1.5")))))).
    split; [vm_compute; discriminate|].
    split; [split; [vm_compute; discriminate | reflexivity]|].
    eexists. reflexivity.
  - destruct (proj2 (proj2 (proj2 (proj2 (proj2 (proj2 (thm (form systemProgram "0")))))))
                eq_refl start) as (st' & H & _).
    exists st'. exact H.
Defined.

End SendSolFacts.

Module FormatFacts.
Import JSString JSNumber FormatSpec StringFacts.

Lemma allDigits_app (a b : string) : allDigits (a ++ b) = allDigits a && allDigits b.
Proof.
  induction a as [|c a IH]; simpl; [reflexivity|]. now rewrite IH, andb_assoc.
Qed.

Lemma allDigits_zeros (n : nat) : allDigits (zeros n) = true.
Proof. induction n; simpl; [reflexivity | exact IHn]. Qed.

Lemma length_zeros (n : nat) : String.length (zeros n) = n.
Proof. induction n; simpl; [reflexivity | now rewrite IHn]. Qed.

Lemma allDigits_substring (s : string) (a b : nat) :
  allDigits s = true -> allDigits (substring a b s) = true.
Proof.
  revert a b. induction s as [|c s IH]; intros [|a] [|b] H; simpl in *;
    try reflexivity; apply andb_true_iff in H; destruct H as [Hc Hs].
  - rewrite Hc. apply (IH 0%nat), Hs.
  - apply IH, Hs.
  - apply IH, Hs.
Qed.

Lemma allDigits_uint (d : Decimal.uint) : allDigits (NilEmpty.string_of_uint d) = true.
Proof. induction d; simpl; try reflexivity; exact IHd. Qed.

Lemma decimalDigits_allDigits (n : Z) : allDigits (decimalDigits n) = true.
Proof.
  unfold decimalDigits, NilZero.string_of_uint.
  destruct (N.to_uint (Z.to_N n)) eqn:E; try reflexivity;
    rewrite <- E; apply allDigits_uint.
Qed.

Lemma decimalDigits_nonempty (n : Z) : (1 <= String.length (decimalDigits n))%nat.
Proof.
  unfold decimalDigits, NilZero.string_of_uint.
  destruct (N.to_uint (Z.to_N n)); simpl; lia.
Qed.

(** Digits, a point and [k] digits make a fixed decimal. *)
Lemma isFixedDecimal_intro (k : nat) (i f : string) :
  allDigits i = true -> (1 <= String.length i)%nat ->
  allDigits f = true -> String.length f = k ->
  isFixedDecimal k (i ++ "." ++ f) = true.
Proof.
  intros Hi Hli Hf Hlf. unfold isFixedDecimal.
  rewrite !length_append. cbn [String.length].
  replace (String.length i + (1 + String.length f) - k - 1)%nat
    with (String.length i) by lia.
  replace (String.length i + (1 + String.length f) - k)%nat
    with (String.length (i ++ ".")) by (rewrite length_append; simpl; lia).
  assert (E1 : substring 0 (String.length i) (i ++ "." ++ f) = i)
    by (rewrite substring_0_app_l, substring_0_all; [reflexivity | lia | lia]).
  assert (E2 : substring (String.length i) 1 (i ++ "." ++ f) = ".")
    by (rewrite substring_app_r; destruct f; reflexivity).
  assert (E3 : substring (String.length (i ++ ".")) k (i ++ "." ++ f) = f)
    by (rewrite <- (append_assoc i "." f), substring_app_r;
        apply substring_0_all; lia).
  rewrite E1, E2, E3, Hi, Hf.
  replace (k + 2 <=? _)%nat with true by (symmetry; apply Nat.leb_le; lia).
  reflexivity.
Qed.

(** The digits of [toFixed] always have the fixed-decimal shape. *)
Lemma fixedDigits_shape (n : Z) (f : nat) :
  (0 < f)%nat -> isFixedDecimal f (fixedDigits n f) = true.
Proof.
  intros Hf. unfold fixedDigits.
  destruct (Nat.eqb_spec f 0); [lia|].
  pose proof (decimalDigits_allDigits n) as Hd.
  pose proof (decimalDigits_nonempty n) as Hl.
  set (m := if (String.length (decimalDigits n) <=? f)%nat
            then zeros (f + 1 - String.length (decimalDigits n)) ++ decimalDigits n
            else decimalDigits n).
  assert (Hm : allDigits m = true).
  { subst m. destruct (_ <=? _)%nat; [|exact Hd].
    now rewrite allDigits_app, allDigits_zeros. }
  assert (Hlm : (f + 1 <= String.length m)%nat).
  { subst m. destruct (Nat.leb_spec (String.length (decimalDigits n)) f).
    - rewrite length_append, length_zeros. lia.
    - lia. }
  apply isFixedDecimal_intro.
  - now apply allDigits_substring.
  - rewrite length_substring; lia.
  - now apply allDigits_substring.
  - rewrite length_substring; lia.
Qed.

End FormatFacts.

Module FloatOrderFacts.
Import JSNumber FloatFacts.

Lemma digits2_pos_upper (m : positive) : Z.pos m < 2 ^ Z.pos (digits2_pos m).
Proof.
  induction m as [m IH | m IH |]; cbn [digits2_pos];
    rewrite ?Pos2Z.inj_succ, ?Z.pow_succ_r by lia; lia.
Qed.

Lemma digits2_pos_lower (m : positive) : 2 ^ (Z.pos (digits2_pos m) - 1) <= Z.pos m.
Proof.
  induction m as [m IH | m IH |]; cbn [digits2_pos];
    rewrite ?Pos2Z.inj_succ; try (cbn; lia);
    replace (Z.succ (Z.pos (digits2_pos m)) - 1) with (Z.succ (Z.pos (digits2_pos m) - 1))
      by lia;
    rewrite Z.pow_succ_r by lia; lia.
Qed.

(** The mantissa and exponent of a finite double. *)
Lemma valid_finite (s : bool) (m : positive) (e : Z) :
  valid_binary (S754_finite s m e) = true ->
  Z.pos m < 2 ^ 53 /\ -1074 <= e <= 971
  /\ (-1074 < e -> Z.pos (digits2_pos m) = 53).
Proof.
  intros H.
  unfold SpecFloat.valid_binary, bounded, canonical_mantissa, fexp, SpecFloat.emin,
    emax, prec in H.
  rewrite andb_true_iff, Z.eqb_eq, Z.leb_le in H. destruct H as [Hc He].
  pose proof (digits2_pos_upper m) as Hu. pose proof (digits2_pos_lower m) as Hl.
  assert (Hd : Z.pos (digits2_pos m) <= 53) by lia.
  split; [|split; lia].
  eapply Z.lt_le_trans; [exact Hu|]. apply Z.pow_le_mono_r; lia.
Qed.

Lemma Prim2SF_finite_valid (x : float) (s : bool) (m : positive) (e : Z) :
  Prim2SF x = S754_finite s m e ->
  Z.pos m < 2 ^ 53 /\ -1074 <= e <= 971
  /\ (-1074 < e -> Z.pos (digits2_pos m) = 53).
Proof.
  intros H. apply (valid_finite s). rewrite <- H. apply Prim2SF_valid.
Qed.

Lemma SFcompare_antisym (x y : spec_float) :
  SFcompare y x = option_map CompOpp (SFcompare x y).
Proof.
  destruct x as [sx | sx | | sx mx ex], y as [sy | sy | | sy my ey]; cbn;
    try reflexivity; try (destruct sx; reflexivity); try (destruct sy; reflexivity);
    try (destruct sx, sy; reflexivity).
  destruct sx, sy; try reflexivity;
    rewrite (Z.compare_antisym ex ey); destruct (ex ?= ey); cbn; try reflexivity;
    change (Pos.compare_cont Eq my mx) with (Pos.compare my mx);
    change (Pos.compare_cont Eq mx my) with (Pos.compare mx my);
    rewrite (Pos.compare_antisym mx my); destruct (mx ?= my)%positive; reflexivity.
Qed.

(** [c <= x] excludes [x < c]. *)
Lemma leb_not_ltb (c x : float) : (c <=? x)%float = true -> (x <? c)%float = false.
Proof.
  rewrite leb_spec, ltb_spec. unfold SFleb, SFltb.
  rewrite (SFcompare_antisym (Prim2SF c) (Prim2SF x)).
  destruct (SFcompare (Prim2SF c) (Prim2SF x)) as [[]|]; cbn; congruence.
Qed.

(** Constants of the sources as mantissa and exponent. *)
Lemma Prim2SF_0_001 : Prim2SF 0.001%float = S754_finite false 4611686018427388 (-62).
Proof. reflexivity. Qed.
Lemma Prim2SF_1 : Prim2SF 1%float = S754_finite false 4503599627370496 (-52).
Proof. reflexivity. Qed.
Lemma Prim2SF_1e3 : Prim2SF 1e3%float = S754_finite false 8796093022208000 (-43).
Proof. reflexivity. Qed.
Lemma Prim2SF_1e6 : Prim2SF 1e6%float = S754_finite false 8589934592000000 (-33).
Proof. reflexivity. Qed.
Lemma Prim2SF_1e21 : Prim2SF 1e21%float = S754_finite false 7629394531250000 17.
Proof. reflexivity. Qed.

(** Comparisons of finite positive doubles, read on mantissa and
    exponent. *)
Lemma SFltb_finite (m1 m2 : positive) (e1 e2 : Z) :
  SFltb (S754_finite false m1 e1) (S754_finite false m2 e2) = true
  <-> e1 < e2 \/ (e1 = e2 /\ (m1 < m2)%positive).
Proof.
  unfold SFltb, SFcompare.
  change (Pos.compare_cont Eq m1 m2) with (Pos.compare m1 m2).
  destruct (Z.compare_spec e1 e2); [destruct (Pos.compare_spec m1 m2)| |];
    split; intros H'; try discriminate; try reflexivity; try lia; try tauto.
Qed.

Lemma SFleb_finite (m1 m2 : positive) (e1 e2 : Z) :
  SFleb (S754_finite false m1 e1) (S754_finite false m2 e2) = true
  <-> e1 < e2 \/ (e1 = e2 /\ (m1 <= m2)%positive).
Proof.
  unfold SFleb, SFcompare.
  change (Pos.compare_cont Eq m1 m2) with (Pos.compare m1 m2).
  destruct (Z.compare_spec e1 e2); [destruct (Pos.compare_spec m1 m2)| |];
    split; intros H'; try discriminate; try reflexivity; try lia; try tauto.
Qed.

(** A number at least a positive finite constant and below another finite
    constant is positive and finite. *)
Lemma between_finite (x lo hi : float) (ml : positive) (el : Z) :
  Prim2SF lo = S754_finite false ml el ->
  (lo <=? x)%float = true -> (x <? hi)%float = true ->
  exists m e, Prim2SF x = S754_finite false m e.
Proof.
  intros Hlo. rewrite leb_spec, ltb_spec, Hlo.
  destruct (Prim2SF x) as [s | s | | s m e]; cbn; try discriminate.
  - destruct s; [discriminate|]. destruct (Prim2SF hi) as [[]|[]| |[] ? ?]; discriminate.
  - destruct s; [discriminate|]. intros _ _. now exists m, e.
Qed.

Lemma above_zero_finite (x hi : float) :
  (0 <? x)%float = true -> (x <? hi)%float = true ->
  exists m e, Prim2SF x = S754_finite false m e.
Proof.
  rewrite !ltb_spec, Prim2SF_zero.
  destruct (Prim2SF x) as [s | s | | s m e]; cbn; try discriminate.
  - destruct s; [discriminate|]. destruct (Prim2SF hi) as [[]|[]| |[] ? ?]; discriminate.
  - destruct s; [discriminate|]. intros _ _. now exists m, e.
Qed.

(** A non-negative number below some number is a zero or positive and
    finite. *)
Lemma nonneg_below_finite (x hi : float) :
  (0 <=? x)%float = true -> (x <? hi)%float = true ->
  (exists s, Prim2SF x = S754_zero s)
  \/ exists m e, Prim2SF x = S754_finite false m e.
Proof.
  rewrite leb_spec, ltb_spec, Prim2SF_zero.
  destruct (Prim2SF x) as [s | s | | s m e]; cbn; try discriminate.
  - intros _ _. left. now exists s.
  - destruct s; [discriminate|]. destruct (Prim2SF hi) as [[]|[]| |[] ? ?]; discriminate.
  - destruct s; [discriminate|]. intros _ _. right. now exists m, e.
Qed.

(** *** The real value of a double below [1e21] *)

Lemma pow2_pos (e : Z) : (0 < pow2 e)%Q.
Proof. apply Qpower_0_lt. reflexivity. Qed.

Lemma pow2_mono (e1 e2 : Z) : e1 <= e2 -> (pow2 e1 <= pow2 e2)%Q.
Proof. intros H. apply Qpower_le_compat_l; [exact H | discriminate]. Qed.

Lemma realValue_mono (m1 m2 : positive) (e1 e2 : Z) :
  Z.pos m1 <= Z.pos m2 -> e1 <= e2 -> (realValue m1 e1 <= realValue m2 e2)%Q.
Proof.
  intros Hm He. unfold realValue.
  apply Qle_trans with (inject_Z (Z.pos m1) * pow2 e2)%Q.
  - apply Qmult_le_l; [reflexivity | apply pow2_mono, He].
  - apply Qmult_le_compat_r; [|apply Qlt_le_weak, pow2_pos].
    rewrite <- Zle_Qle. exact Hm.
Qed.

Lemma realValue_below_1e21 (x : float) (m : positive) (e : Z) :
  Prim2SF x = S754_finite false m e ->
  (x <? 1e21)%float = true ->
  Qle_bool (pow10 21) (realValue m e) = false.
Proof.
  intros Hx Hlt.
  destruct (Prim2SF_finite_valid x false m e Hx) as (Hm & _ & _).
  rewrite ltb_spec, Hx, Prim2SF_1e21 in Hlt. apply SFltb_finite in Hlt.
  clear Hx.
  assert (H : (realValue m e <= realValue 9007199254740991 16)%Q
              \/ (realValue m e <= realValue 7629394531249999 17)%Q).
  { change (2 ^ 53) with 9007199254740992 in Hm.
    destruct Hlt as [He | [-> Hlt]]; [left | right]; apply realValue_mono.
    - apply Z.lt_succ_r. exact Hm.
    - apply Z.lt_succ_r, He.
    - apply Z.lt_succ_r. exact Hlt.
    - apply Z.le_refl. }
  destruct (Qle_bool (pow10 21) (realValue m e)) eqn:E; [|reflexivity].
  apply Qle_bool_iff in E. exfalso.
  destruct H as [H | H]; pose proof (Qle_trans _ _ _ E H) as H';
    vm_compute in H'; apply H'; reflexivity.
Qed.

End FloatOrderFacts.

Module ToFixedFacts.
Import JSNumber FormatSpec FormatFacts FloatFacts FloatOrderFacts.

(** [toFixed] on a positive finite double below [1e21]. *)
Lemma toFixed_finite (x : float) (m : positive) (e : Z) (f : nat) :
  Prim2SF x = S754_finite false m e ->
  (x <? 1e21)%float = true ->
  toFixed x f = fixedDigits (nearestScaled (realValue m e) f) f.
Proof.
  intros Hx Hlt. unfold toFixed. rewrite Hx.
  rewrite (realValue_below_1e21 x m e Hx Hlt). reflexivity.
Qed.

(** The integer that [toFixed] prints is the nearest to the scaled value,
    the larger one on a tie. *)
Lemma nearestScaled_nearest (q : Q) (f : nat) :
  (inject_Z (nearestScaled q f) - (1 # 2) <= q * pow10 (Z.of_nat f))%Q
  /\ (q * pow10 (Z.of_nat f) < inject_Z (nearestScaled q f) + (1 # 2))%Q.
Proof.
  unfold nearestScaled. set (y := (q * pow10 (Z.of_nat f))%Q).
  pose proof (Qfloor_le (y + (1 # 2))) as Hlo.
  pose proof (Qlt_floor (y + (1 # 2))) as Hhi.
  rewrite inject_Z_plus in Hhi.
  split.
  - apply Qplus_le_l with (z := (1 # 2)%Q). 
    setoid_replace (inject_Z (Qfloor (y + (1 # 2))) - (1 # 2) + (1 # 2))%Q
      with (inject_Z (Qfloor (y + (1 # 2)))) by ring.
    exact Hlo.
  - apply Qplus_lt_l with (z := (1 # 2)%Q).
    setoid_replace (inject_Z (Qfloor (y + (1 # 2))) + (1 # 2) + (1 # 2))%Q
      with (inject_Z (Qfloor (y + (1 # 2))) + inject_Z 1)%Q by ring.
    exact Hhi.
Qed.

(** A non-negative number below [1e21] prints as a fixed decimal. *)
Lemma toFixed_shape (x : float) (f : nat) :
  (0 < f)%nat ->
  (0 <=? x)%float = true -> (x <? 1e21)%float = true ->
  isFixedDecimal f (toFixed x f) = true.
Proof.
  intros Hf Hge Hlt.
  destruct (nonneg_below_finite x 1e21 Hge Hlt) as [[s Hx] | (m & e & Hx)].
  - unfold toFixed. rewrite Hx. now apply fixedDigits_shape.
  - rewrite (toFixed_finite x m e f Hx Hlt). now apply fixedDigits_shape.
Qed.

End ToFixedFacts.

Module BalanceDisplayFacts.
Import JSNumber FormatSpec FormatFacts FloatFacts FloatOrderFacts ToFixedFacts
  BalanceDisplay.

(** Below a constant, hence below any constant of larger exponent. *)
Lemma ltb_larger_exponent (x c1 c2 : float) (m1 m2 : positive) (e1 e2 : Z) :
  Prim2SF c1 = S754_finite false m1 e1 ->
  Prim2SF c2 = S754_finite false m2 e2 ->
  e1 < e2 ->
  (x <? c1)%float = true -> (x <? c2)%float = true.
Proof.
  intros H1 H2 He. rewrite !ltb_spec, H1, H2.
  destruct (Prim2SF x) as [s | s | | s m e]; cbn; try discriminate;
    try (destruct s; (discriminate || reflexivity)).
  destruct s; [reflexivity|].
  intros H. apply SFltb_finite in H. apply SFltb_finite. lia.
Qed.

(** A double at least a positive constant is not zero, and not below a
    constant of smaller exponent. *)
Lemma leb_not_zero (x c : float) (mc : positive) (ec : Z) :
  Prim2SF c = S754_finite false mc ec ->
  (c <=? x)%float = true -> (x =? 0)%float = false /\ (0 <=? x)%float = true.
Proof.
  intros Hc. rewrite leb_spec, eqb_spec, leb_spec, Hc, Prim2SF_zero.
  destruct (Prim2SF x) as [s | s | | s m e]; cbn; try discriminate;
    destruct s; try discriminate; split; reflexivity.
Qed.

Lemma leb_not_ltb_smaller (x c1 c2 : float) (m1 m2 : positive) (e1 e2 : Z) :
  Prim2SF c1 = S754_finite false m1 e1 ->
  Prim2SF c2 = S754_finite false m2 e2 ->
  e1 < e2 ->
  (c2 <=? x)%float = true -> (x <? c1)%float = false.
Proof.
  intros H1 H2 He. rewrite leb_spec, ltb_spec, H1, H2.
  destruct (Prim2SF x) as [s | s | | s m e]; cbn; try discriminate;
    try (destruct s; (discriminate || reflexivity)).
  destruct s; [discriminate|].
  intros H. apply SFleb_finite in H.
  apply not_true_iff_false. intros E.
  apply (proj1 (SFltb_finite m m1 e e1)) in E. lia.
Qed.

Lemma ltb_zero_lt (x : float) :
  (0 <? x)%float = true -> (x =? 0)%float = false /\ (0 <=? x)%float = true.
Proof.
  rewrite ltb_spec, eqb_spec, leb_spec, Prim2SF_zero.
  destruct (Prim2SF x) as [s | s | | s m e]; cbn; try discriminate;
    destruct s; try discriminate; split; reflexivity.
Qed.

(** Counterexample to C5 as stated: [1e21] is a balance of at least 1 and
    [formatBalance(1e21)] is ["1e+21"], which is not a 2-decimal string. *)
Lemma formatBalance_huge_counterexample :
  (1 <=? 1e21)%float = true
  /\ formatBalance 1e21 = "1e+21"
  /\ isFixedDecimal 2 (formatBalance 1e21) = false.
Proof. vm_compute. repeat split. Qed.

(** C5 (amended).  [formatBalance] has three precision tiers: 0 gives
    ["0.00"]; a positive balance below 0.001 gives a 6-decimal string; a
    balance of at least 0.001 and below 1 gives a 4-decimal string; a
    balance of at least 1 and below [1e21] gives a 2-decimal string.  (From
    [1e21] on, [toFixed] switches to exponent notation.) *)
Theorem formatBalance_tiers (balance : float) :
  formatBalance 0 = "0.00"
  /\ ((balance =? 0)%float = true -> formatBalance balance = "0.00")
  /\ ((0 <? balance)%float = true -> (balance <? 0.001)%float = true ->
      formatBalance balance = toFixed balance 6
      /\ isFixedDecimal 6 (formatBalance balance) = true)
  /\ ((0.001 <=? balance)%float = true -> (balance <? 1)%float = true ->
      formatBalance balance = toFixed balance 4
      /\ isFixedDecimal 4 (formatBalance balance) = true)
  /\ ((1 <=? balance)%float = true -> (balance <? 1e21)%float = true ->
      formatBalance balance = toFixed balance 2
      /\ isFixedDecimal 2 (formatBalance balance) = true).
Proof.
  split; [reflexivity|]. split; [|split; [|split]].
  - intros H. unfold formatBalance. now rewrite H.
  - intros Hpos Hlt.
    destruct (ltb_zero_lt balance Hpos) as [Hz Hge].
    assert (E : formatBalance balance = toFixed balance 6)
      by (unfold formatBalance; now rewrite Hz, Hlt).
    split; [exact E|]. rewrite E. apply toFixed_shape; [lia | exact Hge |].
    apply (ltb_larger_exponent balance 0.001 1e21 _ _ _ _ Prim2SF_0_001 Prim2SF_1e21);
      [lia | exact Hlt].
  - intros Hge Hlt.
    destruct (leb_not_zero balance 0.001 _ _ Prim2SF_0_001 Hge) as [Hz Hnn].
    assert (E : formatBalance balance = toFixed balance 4)
      by (unfold formatBalance; now rewrite Hz, (leb_not_ltb _ _ Hge), Hlt).
    split; [exact E|]. rewrite E. apply toFixed_shape; [lia | exact Hnn |].
    apply (ltb_larger_exponent balance 1 1e21 _ _ _ _ Prim2SF_1 Prim2SF_1e21);
      [lia | exact Hlt].
  - intros Hge Hlt.
    destruct (leb_not_zero balance 1 _ _ Prim2SF_1 Hge) as [Hz Hnn].
    assert (E : formatBalance balance = toFixed balance 2).
    { unfold formatBalance. rewrite Hz, (leb_not_ltb _ _ Hge).
      now rewrite (leb_not_ltb_smaller balance 0.001 1 _ _ _ _
                     Prim2SF_0_001 Prim2SF_1 ltac:(lia) Hge). }
    split; [exact E|]. rewrite E. now apply toFixed_shape; [lia | |].
Qed.

(** The amended C5 on the balances of the specification: 0.0005, 0.5
    and 5. *)
Lemma formatBalance_tiers_witness :
  formatBalance 0.0005 = "0.000500"
  /\ formatBalance 0.5 = "0.5000"
  /\ formatBalance 5 = "5.00"
  /\ isFixedDecimal 6 (formatBalance 0.0005) = true
  /\ isFixedDecimal 4 (formatBalance 0.5) = true
  /\ isFixedDecimal 2 (formatBalance 5) = true.
Proof.
  destruct (formatBalance_tiers 0.0005) as (_ & _ & H1 & _).
  destruct (formatBalance_tiers 0.5) as (_ & _ & _ & H2 & _).
  destruct (formatBalance_tiers 5) as (_ & _ & _ & _ & H3).
  destruct (H1 eq_refl eq_refl) as [E1 S1].
  destruct (H2 eq_refl eq_refl) as [E2 S2].
  destruct (H3 eq_refl eq_refl) as [E3 S3].
  split; [rewrite E1; vm_compute; reflexivity|].
  split; [rewrite E2; vm_compute; reflexivity|].
  split; [rewrite E3; vm_compute; reflexivity|].
  split; [exact S1 | split; [exact S2 | exact S3]].
Defined.

End BalanceDisplayFacts.

Module DivisionFacts.
Import JSNumber FloatSpec FloatFacts RoundingFacts FloatOrderFacts.

Lemma Zdigits2_le (m k : Z) : 0 <= m < 2 ^ k -> 0 <= k -> Zdigits2 m <= k.
Proof.
  intros [H0 Hk] Hk0. destruct m as [|p|p]; cbn [Zdigits2]; try lia.
  pose proof (digits2_pos_lower p) as Hl.
  assert (H : 2 ^ (Z.pos (digits2_pos p) - 1) < 2 ^ k) by lia.
  apply Z.pow_lt_mono_r_iff in H; lia.
Qed.

Lemma shr_1_le (mrs : shr_record) : 0 <= shr_m mrs -> shr_m (shr_1 mrs) <= shr_m mrs.
Proof.
  destruct mrs as [m r s]. cbn. destruct m as [|p|p]; [cbn; lia | | lia].
  intros _. destruct p; cbn; lia.
Qed.

Lemma iter_pos_shr_1_le (p : positive) (mrs : shr_record) :
  0 <= shr_m mrs -> shr_m (iter_pos shr_1 p mrs) <= shr_m mrs.
Proof.
  revert mrs. induction p as [p IH | p IH |]; intros mrs H; cbn.
  - pose proof (shr_1_nonneg mrs H) as H1. pose proof (shr_1_le mrs H) as H2.
    pose proof (iter_pos_shr_1_nonneg p _ H1) as H3. pose proof (IH _ H1) as H4.
    pose proof (IH _ H3) as H5. lia.
  - pose proof (iter_pos_shr_1_nonneg p _ H) as H3. pose proof (IH _ H) as H4.
    pose proof (IH _ H3) as H5. lia.
  - apply shr_1_le, H.
Qed.

(** A right shift to the canonical exponent: the mantissa does not grow,
    and the exponent is the larger of the given one and the canonical
    one. *)
Lemma shr_fexp_bounds (m e : Z) (l : location) :
  0 <= m ->
  0 <= shr_m (fst (shr_fexp prec emax m e l)) <= m
  /\ snd (shr_fexp prec emax m e l) = Z.max e (fexp prec emax (Zdigits2 m + e)).
Proof.
  intros H. unfold shr_fexp, shr.
  assert (H0 : shr_m (shr_record_of_loc m l) = m) by (destruct l as [|[]]; reflexivity).
  destruct (fexp prec emax (Zdigits2 m + e) - e) as [|p|p] eqn:E; cbn [fst snd].
  - rewrite H0. split; lia.
  - pose proof (iter_pos_shr_1_nonneg p (shr_record_of_loc m l)) as H1.
    pose proof (iter_pos_shr_1_le p (shr_record_of_loc m l)) as H2.
    rewrite H0 in *. split; [split; [apply H1, H | apply H2, H]|]. lia.
  - rewrite H0. split; lia.
Qed.

Lemma round_nearest_even_le (m : Z) (l : location) : round_nearest_even m l <= m + 1.
Proof. destruct l as [|[]]; cbn; try lia. destruct (Z.even m); lia. Qed.

(** Rounding a mantissa below [2^k] (with [k >= 53]) at an exponent in the
    normal range raises the exponent by at most [2k - 105]. *)
Lemma binary_round_aux_exponent (m e : Z) (l : location) (k : Z) :
  0 <= m < 2 ^ k -> 53 <= k -> -1074 <= e -> e + (2 * k - 105) <= 971 ->
  binary_round_aux prec emax false m e l = S754_zero false
  \/ exists p e3,
       binary_round_aux prec emax false m e l = S754_finite false p e3
       /\ e3 <= e + (2 * k - 105).
Proof.
  intros Hm Hk He Hmax. unfold binary_round_aux.
  destruct (shr_fexp_bounds m e l (proj1 Hm)) as [Hm1 He1].
  destruct (shr_fexp prec emax m e l) as [mrs' e1]. cbn [fst snd] in *.
  set (m2 := round_nearest_even (shr_m mrs') (loc_of_shr_record mrs')).
  assert (Hm2 : 0 <= m2 < 2 ^ (k + 1)).
  { split; [apply round_nearest_even_nonneg; lia|].
    pose proof (round_nearest_even_le (shr_m mrs') (loc_of_shr_record mrs')).
    rewrite Z.pow_add_r by lia. fold m2 in H. change (2 ^ 1) with 2. lia. }
  destruct (shr_fexp_bounds m2 e1 loc_Exact (proj1 Hm2)) as [Hm3 He3].
  destruct (shr_fexp prec emax m2 e1 loc_Exact) as [mrs'' e3]. cbn [fst snd] in *.
  pose proof (Zdigits2_le m k Hm ltac:(lia)) as Hd1.
  pose proof (Zdigits2_le m2 (k + 1) Hm2 ltac:(lia)) as Hd2.
  unfold fexp, SpecFloat.emin, emax, prec in *.
  assert (Hb : e3 <= e + (2 * k - 105)) by lia.
  destruct (shr_m mrs'') as [|p|p]; [now left | | lia].
  right. exists p, e3. split; [|exact Hb].
  replace (e3 <=? 1024 - 53) with true by (symmetry; apply Z.leb_le; lia).
  reflexivity.
Qed.

(** The quotient of two positive normal doubles: its exponent is at most
    [e1 - e2 - 50]. *)
Lemma SFdiv_normal_exponent (m1 m2 : positive) (e1 e2 : Z) :
  Z.pos (digits2_pos m1) = 53 -> Z.pos (digits2_pos m2) = 53 ->
  -1021 <= e1 - e2 <= 1021 ->
  SF64div (S754_finite false m1 e1) (S754_finite false m2 e2) = S754_zero false
  \/ exists p e3,
       SF64div (S754_finite false m1 e1) (S754_finite false m2 e2)
       = S754_finite false p e3
       /\ e3 <= e1 - e2 - 50.
Proof.
  intros Hd1 Hd2 He. unfold SF64div, SFdiv, SFdiv_core_binary. cbn [xorb Zdigits2].
  rewrite Hd1, Hd2.
  replace (Z.min (fexp prec emax (53 + e1 - (53 + e2))) (e1 - e2))
    with (e1 - e2 - 53)
    by (unfold fexp, SpecFloat.emin, emax, prec; lia).
  replace (e1 - e2 - (e1 - e2 - 53)) with 53 by lia.
  pose proof (digits2_pos_upper m1) as Hu1. rewrite Hd1 in Hu1.
  pose proof (digits2_pos_lower m2) as Hl2. rewrite Hd2 in Hl2.
  change (53 - 1) with 52 in Hl2.
  assert (Hq : 0 <= Z.shiftl (Z.pos m1) 53 / Z.pos m2 < 2 ^ 54).
  { rewrite Z.shiftl_mul_pow2 by lia. split.
    - apply Z.div_pos; lia.
    - apply Z.div_lt_upper_bound; [lia|].
      change (2 ^ 54) with (2 ^ 52 * 4). change (2 ^ 53) with (2 ^ 52 * 2) in *.
      nia. }
  unfold Z.div in Hq.
  destruct (Z.div_eucl (Z.shiftl (Z.pos m1) 53) (Z.pos m2)) as [q r].
  destruct (binary_round_aux_exponent q (e1 - e2 - 53) (new_location (Z.pos m2) r) 54
              Hq ltac:(lia) ltac:(lia) ltac:(lia))
    as [Hz | (p & e3 & Hf & Hb)].
  - now left.
  - right. exists p, e3. split; [exact Hf | lia].
Qed.

(** A quotient of positive doubles is not negative. *)
Lemma SFdiv_positive_sign (x : spec_float) (m2 : positive) (e2 : Z) :
  SFleb (S754_zero false) x = true ->
  SF64div x (S754_finite false m2 e2) = S754_nan
  \/ SFleb (S754_zero false) (SF64div x (S754_finite false m2 e2)) = true.
Proof.
  destruct x as [s | s | | s m e]; cbn; try discriminate;
    try (destruct s; try discriminate; intros _; right; reflexivity).
  destruct s; [discriminate|]. intros _.
  destruct (SFdiv_core_binary prec emax (Z.pos m) e (Z.pos m2) e2) as [[mz ez] lz].
  rewrite binary_round_aux_sign.
  destruct (binary_round_aux prec emax false mz ez lz); cbn; auto.
Qed.

End DivisionFacts.

Module ToStringFacts.
Import JSString JSNumber FormatSpec FormatFacts StringFacts.

Lemma lastChar_app (a b : string) : b <> "" -> lastChar (a ++ b) = lastChar b.
Proof.
  intros Hb. induction a as [|c a IH]; [reflexivity|].
  cbn [append lastChar]. rewrite IH.
  destruct (a ++ b) eqn:E; [|reflexivity].
  destruct a; [cbn in E; congruence | discriminate].
Qed.

Lemma endsWithDigit_allDigits (s : string) :
  allDigits s = true -> s <> "" -> endsWithDigit s.
Proof.
  induction s as [|c s IH]; [congruence|]. cbn [allDigits].
  rewrite andb_true_iff. intros [Hc Hs] _.
  destruct s as [|c' s'].
  - exists c. split; [reflexivity | exact Hc].
  - destruct (IH Hs ltac:(discriminate)) as (d & Hd & Hdig).
    exists d. split; [exact Hd | exact Hdig].
Qed.

Lemma endsWithDigit_app (a b : string) : endsWithDigit b -> endsWithDigit (a ++ b).
Proof.
  intros (c & Hc & Hd). exists c. split; [|exact Hd].
  rewrite lastChar_app; [exact Hc|]. destruct b; [discriminate | congruence].
Qed.

Lemma decimalDigits_nonempty' (n : Z) : decimalDigits n <> "".
Proof.
  pose proof (decimalDigits_nonempty n). destruct (decimalDigits n); [cbn in *; lia|].
  discriminate.
Qed.

Lemma endsWithDigit_decimalDigits (n : Z) : endsWithDigit (decimalDigits n).
Proof.
  apply endsWithDigit_allDigits;
    [apply decimalDigits_allDigits | apply decimalDigits_nonempty'].
Qed.

Lemma endsWithDigit_exponentPart (n : Z) : endsWithDigit (exponentPart n).
Proof.
  unfold exponentPart. do 2 apply endsWithDigit_app. apply endsWithDigit_decimalDigits.
Qed.

Lemma endsWithDigit_formatDecimal (d n : Z) :
  endsWithDigit (formatDecimal (decimalDigits d) n).
Proof.
  unfold formatDecimal.
  pose proof (decimalDigits_allDigits d) as Hd.
  pose proof (decimalDigits_nonempty d) as Hl.
  pose proof (decimalDigits_nonempty' d) as Hne.
  set (digits := decimalDigits d) in *.
  set (k := Z.of_nat (String.length digits)).
  destruct ((k <=? n) && (n <=? 21)) eqn:E1.
  - apply endsWithDigit_allDigits.
    + now rewrite allDigits_app, Hd, allDigits_zeros.
    + destruct digits; [congruence | discriminate].
  - destruct ((0 <? n) && (n <=? 21)) eqn:E2.
    + do 2 apply endsWithDigit_app. apply endsWithDigit_allDigits.
      * now apply allDigits_substring.
      * assert (Hlen : String.length (substring (Z.to_nat n) (Z.to_nat (k - n)) digits)
                       = Z.to_nat (k - n)) by (apply length_substring; lia).
        apply andb_true_iff in E2. destruct E2 as [E2 E3].
        apply Z.ltb_lt in E2. apply Z.leb_le in E3.
        assert (Hk : n < k).
        { destruct (Z.leb_spec k n); [|assumption].
          rewrite (proj2 (Z.leb_le n 21) E3) in E1. discriminate. }
        destruct (substring (Z.to_nat n) (Z.to_nat (k - n)) digits);
          [cbn in Hlen; lia | discriminate].
    + destruct ((-6 <? n) && (n <=? 0)).
      * do 2 apply endsWithDigit_app. now apply endsWithDigit_allDigits.
      * destruct (k =? 1).
        -- apply endsWithDigit_app, endsWithDigit_exponentPart.
        -- do 3 apply endsWithDigit_app. apply endsWithDigit_exponentPart.
Qed.

(** The text of a number ends with a digit, or is [NaN] or an
    [Infinity]: it never ends with a suffix letter. *)
Lemma toString_last (x : float) :
  endsWithDigit (toString x)
  \/ toString x = "NaN" \/ toString x = "Infinity" \/ toString x = "-Infinity".
Proof.
  unfold toString. destruct (Prim2SF x) as [s | s | | s m e].
  - left. exists "0"%char. split; reflexivity.
  - right. right. destruct s; [right | left]; reflexivity.
  - right. left. reflexivity.
  - left. destruct (shortestDecimal m e) as [d n].
    apply endsWithDigit_app, endsWithDigit_formatDecimal.
Qed.

Lemma toString_no_suffix (x : float) (c : ascii) :
  lastChar (toString x) = Some c -> c <> "B"%char /\ c <> "M"%char /\ c <> "K"%char.
Proof.
  destruct (toString_last x) as [(d & Hd & Hdig) | [E | [E | E]]].
  - rewrite Hd. intros [= <-]. repeat split; intros ->; discriminate.
  - rewrite E. intros [= <-]. repeat split; discriminate.
  - rewrite E. intros [= <-]. repeat split; discriminate.
  - rewrite E. intros [= <-]. repeat split; discriminate.
Qed.

End ToStringFacts.

Module FormatNumberFacts.
Import JSString JSNumber FormatSpec RoundingSpec FormatFacts FloatFacts RoundingFacts
  FloatOrderFacts ToFixedFacts DivisionFacts ToStringFacts Utils.

(** [toFixed] prints the nearest multiple of [10^-f]. *)
Lemma toFixed_rounds (x : float) (f : nat) :
  (0 <=? x)%float = true -> (x <? 1e21)%float = true ->
  isRoundingOf f x (toFixed x f).
Proof.
  intros Hge Hlt. unfold isRoundingOf, realOf.
  destruct (nonneg_below_finite x 1e21 Hge Hlt) as [[s Hx] | (m & e & Hx)].
  - exists 0. unfold toFixed. rewrite Hx. split; [reflexivity|].
    split; [rewrite Qmult_0_l; discriminate | rewrite Qmult_0_l; reflexivity].
  - exists (nearestScaled (realValue m e) f).
    rewrite (toFixed_finite x m e f Hx Hlt), Hx.
    split; [reflexivity | apply nearestScaled_nearest].
Qed.

(** At least a constant, hence at least any constant of smaller
    exponent. *)
Lemma leb_smaller_exponent (x c1 c2 : float) (m1 m2 : positive) (e1 e2 : Z) :
  Prim2SF c1 = S754_finite false m1 e1 ->
  Prim2SF c2 = S754_finite false m2 e2 ->
  e1 < e2 ->
  (c2 <=? x)%float = true -> (c1 <=? x)%float = true.
Proof.
  intros H1 H2 He. rewrite !leb_spec, H1, H2.
  destruct (Prim2SF x) as [s | s | | s m e]; cbn; try discriminate;
    try (destruct s; (discriminate || reflexivity)).
  destruct s; [discriminate|].
  intros H. apply SFleb_finite in H. apply SFleb_finite. lia.
Qed.

(** Dividing a double of a tier by the tier's unit gives a non-negative
    double below [1e21]. *)
Lemma quotient_in_range (x lo hi c : float)
    (ml mh mc : positive) (el eh ec : Z) :
  Prim2SF lo = S754_finite false ml el ->
  Prim2SF hi = S754_finite false mh eh ->
  Prim2SF c = S754_finite false mc ec ->
  Z.pos (digits2_pos mc) = 53 ->
  -1074 < el -> -1021 <= el - ec -> eh - ec <= 66 ->
  (lo <=? x)%float = true -> (x <? hi)%float = true ->
  (0 <=? x / c)%float = true /\ (x / c <? 1e21)%float = true.
Proof.
  intros Hlo Hhi Hc Hdc Hel Hlow Hhigh Hge Hlt.
  destruct (between_finite x lo hi ml el Hlo Hge Hlt) as (m & e & Hx).
  destruct (Prim2SF_finite_valid x false m e Hx) as (_ & _ & Hdx).
  rewrite leb_spec, Hlo, Hx in Hge. apply SFleb_finite in Hge.
  rewrite ltb_spec, Hx, Hhi in Hlt. apply SFltb_finite in Hlt.
  rewrite leb_spec, ltb_spec, div_spec, Hx, Hc, Prim2SF_zero, Prim2SF_1e21.
  destruct (SFdiv_normal_exponent m mc e ec (Hdx ltac:(lia)) Hdc ltac:(lia))
    as [Hz | (p & e3 & Hf & Hb)].
  - rewrite Hz. split; reflexivity.
  - rewrite Hf. split; [reflexivity|]. apply SFltb_finite. left. lia.
Qed.

Lemma digits_1e3 : Z.pos (digits2_pos 8796093022208000) = 53.
Proof. reflexivity. Qed.
Lemma digits_1e6 : Z.pos (digits2_pos 8589934592000000) = 53.
Proof. reflexivity. Qed.

(** In the top tier the quotient is not negative. *)
Lemma quotient_nonneg (x lo c : float) (ml mc : positive) (el ec : Z) :
  Prim2SF lo = S754_finite false ml el ->
  Prim2SF c = S754_finite false mc ec ->
  (lo <=? x)%float = true -> (x / c <? 1e21)%float = true ->
  (0 <=? x / c)%float = true.
Proof.
  intros Hlo Hc Hge Hlt.
  assert (H0 : SFleb (S754_zero false) (Prim2SF x) = true).
  { rewrite leb_spec, Hlo in Hge.
    destruct (Prim2SF x) as [s | s | | s m e]; try discriminate;
      destruct s; try discriminate; reflexivity. }
  rewrite leb_spec, Prim2SF_zero, div_spec, Hc.
  rewrite ltb_spec, div_spec, Hc in Hlt.
  destruct (SFdiv_positive_sign (Prim2SF x) mc ec H0) as [Hn | Hp]; [|exact Hp].
  rewrite Hn in Hlt. discriminate.
Qed.

(** Counterexample to C9 as stated: the magnitude of [-5e9] is at least
    [1e9], yet [formatNumber(-5e9)] is ["-5000000000"], not the magnitude
    over [1e9] with the suffix ["B"]; and [formatNumber(1e30)] is
    ["1e+21B"], which is not a quotient rounded to two decimals. *)
Lemma formatNumber_negative_counterexample :
  (1e9 <=? abs (-5e9))%float = true
  /\ formatNumber (-5e9) = "-5000000000"
  /\ toFixed (abs (-5e9) / 1e9) 2 ++ "B" = "5.00B"
  /\ (1e9 <=? 1e30)%float = true
  /\ formatNumber 1e30 = "1e+21B"
  /\ isFixedDecimal 2 (toFixed (1e30 / 1e9) 2) = false.
Proof. vm_compute. repeat split. Qed.

(** C9 (amended).  [formatNumber] compares the number itself, not its
    magnitude.  For [num >= 1e9] the result is [(num / 1e9).toFixed(2)]
    followed by ["B"]; for [1e6 <= num < 1e9] it is
    [(num / 1e6).toFixed(2)] followed by ["M"]; for [1e3 <= num < 1e6] it is
    [(num / 1e3).toFixed(2)] followed by ["K"].  In the two lower tiers, and
    in the top tier while the quotient is below [1e21], that text is a
    2-decimal string, the multiple of 0.01 nearest to the quotient.  Every
    other number, all negative numbers included, is returned as its text
    [String(num)], which never ends in a suffix letter. *)
Theorem formatNumber_tiers (num : float) :
  ((1e9 <=? num)%float = true ->
   formatNumber num = toFixed (num / 1e9) 2 ++ "B"
   /\ ((num / 1e9 <? 1e21)%float = true ->
       isFixedDecimal 2 (toFixed (num / 1e9) 2) = true
       /\ isRoundingOf 2 (num / 1e9) (toFixed (num / 1e9) 2)))
  /\ ((1e6 <=? num)%float = true -> (num <? 1e9)%float = true ->
      formatNumber num = toFixed (num / 1e6) 2 ++ "M"
      /\ isFixedDecimal 2 (toFixed (num / 1e6) 2) = true
      /\ isRoundingOf 2 (num / 1e6) (toFixed (num / 1e6) 2))
  /\ ((1e3 <=? num)%float = true -> (num <? 1e6)%float = true ->
      formatNumber num = toFixed (num / 1e3) 2 ++ "K"
      /\ isFixedDecimal 2 (toFixed (num / 1e3) 2) = true
      /\ isRoundingOf 2 (num / 1e3) (toFixed (num / 1e3) 2))
  /\ ((1e3 <=? num)%float = false ->
      formatNumber num = toString num
      /\ forall c, lastChar (formatNumber num) = Some c ->
                   c <> "B"%char /\ c <> "M"%char /\ c <> "K"%char)
  /\ ((num <? 0)%float = true -> formatNumber num = toString num).
Proof.
  assert (Hplain : (1e3 <=? num)%float = false -> formatNumber num = toString num).
  { intros H3. unfold formatNumber. rewrite H3.
    destruct (1e9 <=? num)%float eqn:H9.
    - rewrite (leb_smaller_exponent num 1e3 1e9 _ _ _ _ Prim2SF_1e3
                 TransactionListFacts.Prim2SF_1e9 ltac:(lia) H9) in H3.
      discriminate.
    - destruct (1e6 <=? num)%float eqn:H6; [|reflexivity].
      rewrite (leb_smaller_exponent num 1e3 1e6 _ _ _ _ Prim2SF_1e3 Prim2SF_1e6
                 ltac:(lia) H6) in H3.
      discriminate. }
  split; [|split; [|split; [|split]]].
  - intros H9. split; [unfold formatNumber; now rewrite H9|].
    intros Hq.
    pose proof (quotient_nonneg num 1e9 1e9 _ _ _ _ TransactionListFacts.Prim2SF_1e9
                  TransactionListFacts.Prim2SF_1e9 H9 Hq) as H0.
    split; [apply toFixed_shape; [lia | exact H0 | exact Hq]
           | now apply toFixed_rounds].
  - intros H6 Hlt.
    destruct (quotient_in_range num 1e6 1e9 1e6 _ _ _ _ _ _ Prim2SF_1e6
                TransactionListFacts.Prim2SF_1e9 Prim2SF_1e6 digits_1e6
                ltac:(lia) ltac:(lia) ltac:(lia) H6 Hlt) as [H0 Hq].
    split; [|split; [apply toFixed_shape; [lia | exact H0 | exact Hq]
                    | now apply toFixed_rounds]].
    unfold formatNumber.
    destruct (1e9 <=? num)%float eqn:H9;
      [rewrite (leb_not_ltb _ _ H9) in Hlt; discriminate|].
    now rewrite H6.
  - intros H3 Hlt.
    destruct (quotient_in_range num 1e3 1e6 1e3 _ _ _ _ _ _ Prim2SF_1e3
                Prim2SF_1e6 Prim2SF_1e3 digits_1e3
                ltac:(lia) ltac:(lia) ltac:(lia) H3 Hlt) as [H0 Hq].
    split; [|split; [apply toFixed_shape; [lia | exact H0 | exact Hq]
                    | now apply toFixed_rounds]].
    unfold formatNumber.
    destruct (1e6 <=? num)%float eqn:H6;
      [rewrite (leb_not_ltb _ _ H6) in Hlt; discriminate|].
    destruct (1e9 <=? num)%float eqn:H9.
    + rewrite (leb_smaller_exponent num 1e6 1e9 _ _ _ _ Prim2SF_1e6
                 TransactionListFacts.Prim2SF_1e9 ltac:(lia) H9) in H6.
      discriminate.
    + now rewrite H3.
  - intros H3. split; [now apply Hplain|].
    rewrite (Hplain H3). apply toString_no_suffix.
  - intros Hneg. apply Hplain.
    revert Hneg. rewrite ltb_spec, leb_spec, Prim2SF_zero, Prim2SF_1e3.
    destruct (Prim2SF num) as [s | s | | s m e]; try discriminate;
      destruct s; try discriminate; reflexivity.
Qed.

(** The amended C9 on one number of each tier, and on a negative one. *)
Lemma formatNumber_tiers_witness :
  formatNumber 5e9 = "5.00B"
  /\ formatNumber 1500000 = "1.50M"
  /\ formatNumber 1234 = "1.23K"
  /\ formatNumber 999 = "999"
  /\ formatNumber (-5e9) = toString (-5e9).
Proof.
  destruct (formatNumber_tiers 5e9) as (H1 & _).
  destruct (formatNumber_tiers 1500000) as (_ & H2 & _).
  destruct (formatNumber_tiers 1234) as (_ & _ & H3 & _).
  destruct (formatNumber_tiers 999) as (_ & _ & _ & H4 & _).
  destruct (formatNumber_tiers (-5e9)) as (_ & _ & _ & _ & H5).
  split; [rewrite (proj1 (H1 eq_refl)); vm_compute; reflexivity|].
  split; [rewrite (proj1 (H2 eq_refl eq_refl)); vm_compute; reflexivity|].
  split; [rewrite (proj1 (H3 eq_refl eq_refl)); vm_compute; reflexivity|].
  split; [rewrite (proj1 (H4 eq_refl)); vm_compute; reflexivity|].
  exact (H5 eq_refl).
Defined.

End FormatNumberFacts.

(** *** Locations: where the exact value lies during a rounding *)
Module LocationFacts.
Import JSNumber RoundingSpec RoundingFacts.

(** [located] respects the equality of rationals. *)
Lemma located_ext (m : Z) (l : location) (w w' : Q) :
  (w == w')%Q -> located m l w -> located m l w'.
Proof. intros E. destruct l as [|[]]; cbn; rewrite E; auto. Qed.

(** A located value lies in [[m, m + 1)]. *)
Lemma located_bounds (m : Z) (l : location) (w : Q) :
  located m l w -> (inject_Z m <= w /\ w < inject_Z m + 1)%Q.
Proof. destruct l as [|[]]; cbn; intros H; lra. Qed.

(** The two binary successors of a mantissa, as rationals. *)
Lemma inject_Z_double (p : positive) : (inject_Z (Z.pos p~0) == 2 * inject_Z (Z.pos p))%Q.
Proof. change (Z.pos p~0) with (2 * Z.pos p). rewrite inject_Z_mult. reflexivity. Qed.

Lemma inject_Z_double_succ (p : positive) :
  (inject_Z (Z.pos p~1) == 2 * inject_Z (Z.pos p) + 1)%Q.
Proof.
  change (Z.pos p~1) with (2 * Z.pos p + 1). rewrite inject_Z_plus, inject_Z_mult.
  reflexivity.
Qed.

(** One shift to the right: the mantissa, the round bit and the sticky
    bit locate half the value. *)
Lemma shr_1_located (mrs : shr_record) (w : Q) :
  0 <= shr_m mrs ->
  located (shr_m mrs) (loc_of_shr_record mrs) w ->
  located (shr_m (shr_1 mrs)) (loc_of_shr_record (shr_1 mrs)) (w * (1 # 2)).
Proof.
  destruct mrs as [m r s]. cbn [shr_m]. intros Hm.
  destruct m as [|p|p]; [| |lia].
  - destruct r, s; cbn; change (inject_Z 0) with 0%Q; intros H; lra.
  - destruct p as [p|p|]; destruct r, s; cbn;
      rewrite ?inject_Z_double, ?inject_Z_double_succ;
      change (inject_Z 0) with 0%Q; change (inject_Z 1) with 1%Q; intros H; lra.
Qed.

Lemma pow2_halve (e : Z) : (pow2 (- (e + 1)) == pow2 (- e) * (1 # 2))%Q.
Proof.
  unfold pow2. replace (- (e + 1)) with (- e + - 1) by lia.
  rewrite Qpower_plus by discriminate. reflexivity.
Qed.

(** [p] shifts take the location of [v] from exponent [e] to exponent
    [e + p]. *)
Lemma iter_pos_shr_1_located (p : positive) (mrs : shr_record) (v : Q) (e : Z) :
  0 <= shr_m mrs ->
  located (shr_m mrs) (loc_of_shr_record mrs) (v * pow2 (- e)) ->
  located (shr_m (iter_pos shr_1 p mrs)) (loc_of_shr_record (iter_pos shr_1 p mrs))
          (v * pow2 (- (e + Z.pos p))).
Proof.
  assert (step : forall mrs e, 0 <= shr_m mrs ->
            located (shr_m mrs) (loc_of_shr_record mrs) (v * pow2 (- e)) ->
            located (shr_m (shr_1 mrs)) (loc_of_shr_record (shr_1 mrs))
                    (v * pow2 (- (e + 1)))).
  { intros mrs0 e0 H0 H. apply (located_ext _ _ (v * pow2 (- e0) * (1 # 2))).
    - rewrite pow2_halve. ring.
    - apply shr_1_located; assumption. }
  revert mrs e. induction p as [p IH | p IH |]; intros mrs e H0 H; cbn [iter_pos].
  - replace (e + Z.pos p~1) with (e + 1 + Z.pos p + Z.pos p) by lia.
    apply IH; [apply iter_pos_shr_1_nonneg, shr_1_nonneg, H0|].
    apply IH; [apply shr_1_nonneg, H0|]. apply step; assumption.
  - replace (e + Z.pos p~0) with (e + Z.pos p + Z.pos p) by lia.
    apply IH; [apply iter_pos_shr_1_nonneg, H0|]. apply IH; assumption.
  - apply step; assumption.
Qed.

Lemma shr_record_of_loc_m (m : Z) (l : location) : shr_m (shr_record_of_loc m l) = m.
Proof. destruct l as [|[]]; reflexivity. Qed.

Lemma shr_record_of_loc_loc (m : Z) (l : location) :
  loc_of_shr_record (shr_record_of_loc m l) = l.
Proof. destruct l as [|[]]; reflexivity. Qed.

(** The shift to the canonical exponent keeps the value located. *)
Lemma shr_fexp_located (m e : Z) (l : location) (v : Q) :
  0 <= m -> located m l (v * pow2 (- e)) ->
  located (shr_m (fst (shr_fexp prec emax m e l)))
          (loc_of_shr_record (fst (shr_fexp prec emax m e l)))
          (v * pow2 (- snd (shr_fexp prec emax m e l))).
Proof.
  intros H0 H. unfold shr_fexp, shr.
  destruct (fexp prec emax (Zdigits2 m + e) - e) as [|p|p]; cbn [fst snd];
    try (rewrite shr_record_of_loc_m, shr_record_of_loc_loc; exact H).
  apply iter_pos_shr_1_located; rewrite shr_record_of_loc_m, ?shr_record_of_loc_loc;
    assumption.
Qed.

(** Rounding to nearest, ties to even, moves a located value by at most
    a half. *)
Lemma round_nearest_even_located (m : Z) (l : location) (w : Q) :
  located m l w ->
  (inject_Z (round_nearest_even m l) - w <= 1 # 2
   /\ w - inject_Z (round_nearest_even m l) <= 1 # 2)%Q.
Proof.
  destruct l as [|[]]; cbn; try destruct (Z.even m);
    rewrite ?inject_Z_plus; change (inject_Z 1) with 1%Q; intros H; lra.
Qed.

End LocationFacts.

(** *** The shifts of a rounding, on integers *)
Module ShiftFacts.
Import JSNumber RoundingSpec RoundingFacts FloatOrderFacts DivisionFacts LocationFacts.

(** On the mantissa a shift is a division by two. *)
Lemma shr_1_div2 (mrs : shr_record) : 0 <= shr_m mrs -> shr_m (shr_1 mrs) = shr_m mrs / 2.
Proof.
  destruct mrs as [m r s]. cbn [shr_m]. intros Hm.
  destruct m as [|p|p]; [reflexivity | | lia].
  destruct p as [p|p|]; cbn [shr_1 shr_m].
  - apply Z.div_unique with 1; lia.
  - apply Z.div_unique with 0; lia.
  - reflexivity.
Qed.

Lemma iter_pos_shr_1_div (p : positive) (mrs : shr_record) :
  0 <= shr_m mrs -> shr_m (iter_pos shr_1 p mrs) = shr_m mrs / 2 ^ Z.pos p.
Proof.
  revert mrs. induction p as [p IH | p IH |]; intros mrs H; cbn [iter_pos].
  - rewrite IH by (apply iter_pos_shr_1_nonneg, shr_1_nonneg, H).
    rewrite IH by (apply shr_1_nonneg, H). rewrite shr_1_div2 by exact H.
    rewrite !Z.div_div by lia. f_equal.
    replace (Z.pos p~1) with (1 + Z.pos p + Z.pos p) by lia.
    rewrite !Z.pow_add_r by lia. change (2 ^ 1) with 2. ring.
  - rewrite IH by (apply iter_pos_shr_1_nonneg, H). rewrite IH by exact H.
    rewrite Z.div_div by lia. f_equal.
    replace (Z.pos p~0) with (Z.pos p + Z.pos p) by lia.
    rewrite Z.pow_add_r by lia. reflexivity.
  - rewrite shr_1_div2 by exact H. reflexivity.
Qed.

(** The mantissa after the shift to the canonical exponent. *)
Lemma shr_fexp_m (m e : Z) (l : location) :
  0 <= m ->
  shr_m (fst (shr_fexp prec emax m e l))
  = m / 2 ^ Z.max 0 (fexp prec emax (Zdigits2 m + e) - e).
Proof.
  intros H. unfold shr_fexp, shr.
  destruct (fexp prec emax (Zdigits2 m + e) - e) as [|p|p]; cbn [fst snd].
  - rewrite shr_record_of_loc_m. cbn. symmetry. apply Z.div_1_r.
  - rewrite iter_pos_shr_1_div by (rewrite shr_record_of_loc_m; exact H).
    rewrite shr_record_of_loc_m. reflexivity.
  - rewrite shr_record_of_loc_m. cbn. symmetry. apply Z.div_1_r.
Qed.

(** The bit length of a mantissa. *)
Lemma Zdigits2_upper (m : Z) : 0 <= m -> m < 2 ^ Zdigits2 m.
Proof.
  destruct m as [|p|p]; intros H; [reflexivity | apply digits2_pos_upper | lia].
Qed.

Lemma Zdigits2_lower (m : Z) : 0 < m -> 2 ^ (Zdigits2 m - 1) <= m.
Proof.
  destruct m as [|p|p]; intros H; [lia | apply digits2_pos_lower | lia].
Qed.

Lemma Zdigits2_nonneg (m : Z) : 0 <= Zdigits2 m.
Proof. destruct m; cbn; lia. Qed.

Lemma Zdigits2_pow2 (k : Z) : 0 <= k -> Zdigits2 (2 ^ k) = k + 1.
Proof.
  intros Hk. assert (H0 : 0 < 2 ^ k) by (apply Z.pow_pos_nonneg; lia).
  pose proof (Zdigits2_upper (2 ^ k) ltac:(lia)) as Hu.
  pose proof (Zdigits2_lower (2 ^ k) H0) as Hl.
  pose proof (Zdigits2_nonneg (2 ^ k)) as Hn.
  apply Z.pow_lt_mono_r_iff in Hu; [|lia|lia].
  apply Z.pow_le_mono_r_iff in Hl; [|lia|lia]. lia.
Qed.

Lemma round_nearest_even_ge (m : Z) (l : location) : m <= round_nearest_even m l.
Proof. destruct l as [|[]]; cbn; try lia. destruct (Z.even m); lia. Qed.

(** After the first shift the mantissa has at most 53 bits. *)
Lemma shr_fexp_m_bound (m e : Z) (l : location) :
  0 <= m -> shr_m (fst (shr_fexp prec emax m e l)) < 2 ^ 53.
Proof.
  intros H. rewrite shr_fexp_m by exact H.
  pose proof (Zdigits2_upper m H) as Hu. pose proof (Zdigits2_nonneg m) as Hd.
  set (d := Zdigits2 m) in *.
  set (n := Z.max 0 (fexp prec emax (d + e) - e)).
  assert (Hn : 0 <= n /\ d <= 53 + n)
    by (subst n; unfold fexp, SpecFloat.emin, emax, prec; lia).
  apply Z.div_lt_upper_bound; [apply Z.pow_pos_nonneg; lia|].
  rewrite <- Z.pow_add_r by lia.
  eapply Z.lt_le_trans; [exact Hu|]. apply Z.pow_le_mono_r; lia.
Qed.

(** The second shift loses nothing: it is the identity, or it halves
    [2^53]. *)
Lemma shr_fexp_exact (m2 E : Z) :
  0 <= m2 <= 2 ^ 53 -> -1074 <= E ->
  (shr_m (fst (shr_fexp prec emax m2 E loc_Exact)) = m2
   /\ snd (shr_fexp prec emax m2 E loc_Exact) = E)
  \/ (m2 = 2 ^ 53
      /\ shr_m (fst (shr_fexp prec emax m2 E loc_Exact)) = 2 ^ 52
      /\ snd (shr_fexp prec emax m2 E loc_Exact) = E + 1).
Proof.
  intros Hm HE. destruct (shr_fexp_bounds m2 E loc_Exact (proj1 Hm)) as [_ He].
  rewrite He, shr_fexp_m by lia.
  destruct (Z.eq_dec m2 (2 ^ 53)) as [-> | Hne].
  - right. rewrite Zdigits2_pow2 by lia.
    replace (Z.max 0 (fexp prec emax (53 + 1 + E) - E)) with 1
      by (unfold fexp, SpecFloat.emin, emax, prec; lia).
    split; [reflexivity|]. split; [reflexivity|].
    unfold fexp, SpecFloat.emin, emax, prec; lia.
  - left. pose proof (Zdigits2_le m2 53 ltac:(lia) ltac:(lia)) as Hd.
    replace (Z.max 0 (fexp prec emax (Zdigits2 m2 + E) - E)) with 0
      by (unfold fexp, SpecFloat.emin, emax, prec; lia).
    split; [apply Z.div_1_r|].
    unfold fexp, SpecFloat.emin, emax, prec; lia.
Qed.

End ShiftFacts.

(** *** The error of a rounding to nearest *)
Module RoundingErrorFacts.
Import JSNumber RoundingSpec RoundingFacts FloatOrderFacts DivisionFacts LocationFacts
  ShiftFacts.

(** Powers of two, as rationals. *)
Lemma pow2_inverse (e : Z) : (pow2 (- e) * pow2 e == 1)%Q.
Proof.
  unfold pow2. rewrite <- Qpower_plus by discriminate.
  replace (- e + e) with 0 by lia. reflexivity.
Qed.

Lemma pow2_pred (e : Z) : (pow2 (e - 1) == pow2 e * (1 # 2))%Q.
Proof.
  unfold pow2. replace (e - 1) with (e + - 1) by lia.
  rewrite Qpower_plus by discriminate. reflexivity.
Qed.

Lemma pow2_succ (e : Z) : (pow2 (e + 1) == pow2 e * 2)%Q.
Proof. unfold pow2. rewrite Qpower_plus by discriminate. reflexivity. Qed.

Lemma pow2_add (a b : Z) : (pow2 (a + b) == pow2 a * pow2 b)%Q.
Proof. unfold pow2. apply Qpower_plus. discriminate. Qed.

(** An error of half a unit on the mantissa is half a unit in the last
    place on the value. *)
Lemma scale_error (a v : Q) (E : Z) :
  (a - v * pow2 (- E) <= 1 # 2 /\ v * pow2 (- E) - a <= 1 # 2)%Q ->
  (a * pow2 E - v <= pow2 (E - 1) /\ v - a * pow2 E <= pow2 (E - 1))%Q.
Proof.
  intros [H1 H2]. pose proof (pow2_pos E) as HP. pose proof (pow2_inverse E) as HI.
  rewrite pow2_pred.
  assert (Hv : (v == v * pow2 (- E) * pow2 E)%Q)
    by (rewrite <- Qmult_assoc, HI; ring).
  revert H1 H2 Hv. generalize (v * pow2 (- E))%Q. revert HP. generalize (pow2 E).
  intros P HP w H1 H2 Hv.
  apply Qmult_le_compat_r with (z := P) in H1; [|lra].
  apply Qmult_le_compat_r with (z := P) in H2; [|lra].
  rewrite Hv. split; lra.
Qed.

Lemma scale_nonneg (v : Q) (e : Z) : (0 <= v * pow2 (- e) -> 0 <= v)%Q.
Proof.
  intros H. pose proof (pow2_pos e) as HP. pose proof (pow2_inverse e) as HI.
  assert (Hv : (v == v * pow2 (- e) * pow2 e)%Q)
    by (rewrite <- Qmult_assoc, HI; ring).
  rewrite Hv. apply Qmult_le_0_compat; lra.
Qed.

(** Rounding to nearest: the result is within half a unit in the last
    place, taken at the exponent [E] the rounding happens at, of the
    located value [v]; a zero result of a non-zero mantissa means [E] is
    the least exponent. *)
Lemma binary_round_aux_error (m e : Z) (l : location) (v : Q) :
  0 <= m -> located m l (v * pow2 (- e)) ->
  match binary_round_aux prec emax false m e l with
  | S754_zero _ =>
      (0 <= v /\ v <= pow2 (Z.max e (fexp prec emax (Zdigits2 m + e)) - 1))%Q
      /\ (0 < m \/ e <= -1074 -> Z.max e (fexp prec emax (Zdigits2 m + e)) = -1074)
  | S754_finite _ p e3 =>
      (realValue p e3 - v <= pow2 (Z.max e (fexp prec emax (Zdigits2 m + e)) - 1)
       /\ v - realValue p e3 <= pow2 (Z.max e (fexp prec emax (Zdigits2 m + e)) - 1))%Q
      /\ Z.max e (fexp prec emax (Zdigits2 m + e)) <= e3
  | _ => True
  end.
Proof.
  intros Hm Hloc. unfold binary_round_aux.
  pose proof (shr_fexp_located m e l v Hm Hloc) as HL.
  pose proof (shr_fexp_m_bound m e l Hm) as HB.
  pose proof (shr_fexp_m m e l Hm) as HM.
  destruct (shr_fexp_bounds m e l Hm) as [Hm1 He1].
  destruct (shr_fexp prec emax m e l) as [mrs' e1]. cbn [fst snd] in *.
  rewrite <- He1.
  assert (HE : -1074 <= e1) by (unfold fexp, SpecFloat.emin, emax, prec in He1; lia).
  pose proof (round_nearest_even_located _ _ _ HL) as HR.
  pose proof (round_nearest_even_ge (shr_m mrs') (loc_of_shr_record mrs')) as Hge.
  pose proof (round_nearest_even_le (shr_m mrs') (loc_of_shr_record mrs')) as Hle.
  apply scale_error in HR.
  assert (Hv0 : (0 <= v)%Q).
  { apply (scale_nonneg v e). apply located_bounds in Hloc.
    assert (0 <= inject_Z m)%Q by (change 0%Q with (inject_Z 0); rewrite <- Zle_Qle; lia).
    lra. }
  set (m2 := round_nearest_even (shr_m mrs') (loc_of_shr_record mrs')) in *.
  destruct (shr_fexp_exact m2 e1 ltac:(lia) HE) as [[H3 He3] | (Hm2 & H3 & He3)];
    destruct (shr_fexp prec emax m2 e1 loc_Exact) as [mrs'' e3]; cbn [fst snd] in *;
    rewrite H3; subst e3.
  - destruct m2 as [|p|p]; [| |lia].
    + split.
      * split; [exact Hv0|]. change (inject_Z 0) with 0%Q in HR. lra.
      * intros Hcond. assert (H1 : shr_m mrs' = 0) by lia. rewrite H1 in HM.
        pose proof (Zdigits2_nonneg m) as Hd.
        destruct (Z.eq_dec m 0) as [-> | Hne].
        { cbn [Zdigits2] in *. unfold fexp, SpecFloat.emin, emax, prec in *. lia. }
        symmetry in HM. apply Z.div_small_iff in HM; [|apply Z.pow_nonzero; lia].
        destruct HM as [HM | HM]; [|pose proof (Z.pow_pos_nonneg 2 (Z.max 0 (fexp prec emax (Zdigits2 m + e) - e)) ltac:(lia) ltac:(lia)); lia].
        pose proof (Zdigits2_lower m ltac:(lia)) as Hl.
        assert (Hd1 : 0 < Zdigits2 m) by (destruct m; cbn; lia).
        assert (Hlt : 2 ^ (Zdigits2 m - 1) < 2 ^ Z.max 0 (fexp prec emax (Zdigits2 m + e) - e)) by lia.
        apply Z.pow_lt_mono_r_iff in Hlt; [|lia|lia].
        unfold fexp, SpecFloat.emin, emax, prec in *. lia.
    + destruct (e1 <=? emax - prec); [|exact I].
      split; [exact HR | lia].
  - change (2 ^ 52) with (Z.pos 4503599627370496).
    cbv iota. destruct (e1 + 1 <=? emax - prec); [|exact I].
    split; [|lia].
    assert (Hval : (realValue 4503599627370496 (e1 + 1) == inject_Z m2 * pow2 e1)%Q).
    { unfold realValue. rewrite pow2_succ, Hm2. 
      change (inject_Z (2 ^ 53)) with (inject_Z (Z.pos 4503599627370496) * 2)%Q. ring. }
    rewrite Hval. exact HR.
Qed.

Lemma realValue_nonneg (p : positive) (e : Z) : (0 <= realValue p e)%Q.
Proof.
  unfold realValue. apply Qmult_le_0_compat; [|apply Qlt_le_weak, pow2_pos].
  change 0%Q with (inject_Z 0). rewrite <- Zle_Qle. lia.
Qed.

(** Half a unit in the last place of a double is at most [2^-53] of its
    value, or [2^-1075] for a subnormal one. *)
Lemma half_ulp_bound (p : positive) (e3 E : Z) :
  -1074 <= e3 -> (-1074 < e3 -> Z.pos (digits2_pos p) = 53) -> E <= e3 ->
  (pow2 (E - 1) <= (1 # 9007199254740992) * realValue p e3 + pow2 (-1075))%Q.
Proof.
  intros He Hd HE. pose proof (realValue_nonneg p e3) as H0.
  pose proof (pow2_pos (-1075)) as Heta.
  destruct (Z.eq_dec e3 (-1074)) as [-> | Hne].
  - pose proof (pow2_mono (E - 1) (-1075) ltac:(lia)). lra.
  - pose proof (pow2_mono (E - 1) (e3 - 1) ltac:(lia)) as Hm.
    rewrite (pow2_pred e3) in Hm.
    pose proof (digits2_pos_lower p) as Hl. rewrite Hd in Hl by lia.
    change (2 ^ (53 - 1)) with 4503599627370496 in Hl.
    assert (Hr : (4503599627370496 * pow2 e3 <= realValue p e3)%Q).
    { unfold realValue. apply Qmult_le_compat_r; [|apply Qlt_le_weak, pow2_pos].
      change (4503599627370496%Q) with (inject_Z 4503599627370496).
      rewrite <- Zle_Qle. exact Hl. }
    lra.
Qed.

(** A rounding with a positive sign bit keeps it. *)
Lemma binary_round_aux_positive (m e : Z) (l : location) :
  match binary_round_aux prec emax false m e l with
  | S754_zero s | S754_infinity s | S754_finite s _ _ => s = false
  | S754_nan => True
  end.
Proof.
  unfold binary_round_aux.
  destruct (shr_fexp prec emax m e l) as [mrs' e'].
  destruct (shr_fexp prec emax _ e' loc_Exact) as [mrs'' e''].
  destruct (shr_m mrs''); [reflexivity | | exact I].
  destruct (e'' <=? emax - prec); reflexivity.
Qed.

(** A rounding that does not overflow stays within a relative error of
    [2^-53], or [2^-1075], of the value rounded. *)
Lemma binary_round_aux_within (m e : Z) (l : location) (v : Q) :
  0 <= m -> (0 < m \/ e <= -1074) -> located m l (v * pow2 (- e)) ->
  valid_binary (binary_round_aux prec emax false m e l) = true ->
  (forall s, binary_round_aux prec emax false m e l <> S754_infinity s) ->
  let r := valueOf (binary_round_aux prec emax false m e l) in
  (0 <= r
   /\ r - v <= (1 # 9007199254740992) * r + pow2 (-1075)
   /\ v - r <= (1 # 9007199254740992) * r + pow2 (-1075))%Q.
Proof.
  intros Hm Hc Hloc Hvalid Hfin.
  pose proof (binary_round_aux_error m e l v Hm Hloc) as H.
  pose proof (binary_round_aux_positive m e l) as Hs.
  pose proof (binary_round_aux_not_nan false m e l Hm) as Hn.
  pose proof (pow2_pos (-1075)) as Heta.
  destruct (binary_round_aux prec emax false m e l) as [s | s | | s p e3];
    cbn [valueOf]; cbv zeta.
  - destruct H as [[H0 H1] HE]. rewrite (HE Hc) in H1. change (-1074 - 1) with (-1075) in H1.
    lra.
  - exfalso. apply (Hfin s). reflexivity.
  - congruence.
  - subst s. destruct H as [[H1 H2] HE].
    destruct (valid_finite false p e3 Hvalid) as (_ & He3 & Hd).
    pose proof (half_ulp_bound p e3 _ (proj1 He3) Hd HE) as Hu.
    pose proof (realValue_nonneg p e3) as H0.
    lra.
Qed.

End RoundingErrorFacts.

(** *** Products and quotients of doubles *)
Module QuotientFacts.
Import JSNumber RoundingSpec FloatFacts RoundingFacts FloatOrderFacts DivisionFacts
  LocationFacts ShiftFacts RoundingErrorFacts.

(** The product of two mantissas is the exact product of the values. *)
Lemma SFmul_located (mx my : positive) (ex ey : Z) :
  located (Z.pos (mx * my)) loc_Exact
          (realValue mx ex * realValue my ey * pow2 (- (ex + ey))).
Proof.
  cbn [located]. unfold realValue. rewrite Pos2Z.inj_mul, inject_Z_mult.
  pose proof (pow2_inverse (ex + ey)) as HI. rewrite (pow2_add ex ey) in HI.
  transitivity (inject_Z (Z.pos mx) * inject_Z (Z.pos my)
                * (pow2 (- (ex + ey)) * (pow2 ex * pow2 ey)))%Q; [ring|].
  rewrite HI. ring.
Qed.

(** Comparing a fraction with a constant. *)
Lemma fraction_below (K N c : Q) : (0 < N -> K < c * N -> K / N < c)%Q.
Proof. intros HN H. apply Qlt_shift_div_r; assumption. Qed.

Lemma fraction_above (K N c : Q) : (0 < N -> c * N < K -> c < K / N)%Q.
Proof. intros HN H. apply Qlt_shift_div_l; assumption. Qed.

(** The location computed from a remainder [k] of a division by [nb]
    locates the exact quotient. *)
Lemma new_location_located (nb k q : Z) :
  0 < nb -> 0 <= k < nb ->
  located q (new_location nb k) (inject_Z q + inject_Z k / inject_Z nb).
Proof.
  intros Hnb Hk.
  assert (HN : (0 < inject_Z nb)%Q)
    by (change 0%Q with (inject_Z 0); rewrite <- Zlt_Qlt; exact Hnb).
  assert (cmp : forall a b : Z, a < b -> (inject_Z a < inject_Z b)%Q)
    by (intros a b H; rewrite <- Zlt_Qlt; exact H).
  assert (Hlt1 : (inject_Z k / inject_Z nb < 1)%Q).
  { apply fraction_below; [exact HN|]. rewrite Qmult_1_l. apply cmp. lia. }
  assert (lower : 2 * k < nb -> (inject_Z k / inject_Z nb < 1 # 2)%Q).
  { intros H. apply fraction_below; [exact HN|]. apply cmp in H.
    rewrite inject_Z_mult in H. change (inject_Z 2) with 2%Q in H. lra. }
  assert (upper : nb < 2 * k -> (1 # 2 < inject_Z k / inject_Z nb)%Q).
  { intros H. apply fraction_above; [exact HN|]. apply cmp in H.
    rewrite inject_Z_mult in H. change (inject_Z 2) with 2%Q in H. lra. }
  assert (pos : k <> 0 -> (0 < inject_Z k / inject_Z nb)%Q).
  { intros H. apply fraction_above; [exact HN|]. rewrite Qmult_0_l.
    change 0%Q with (inject_Z 0). apply cmp. lia. }
  unfold new_location, new_location_even, new_location_odd.
  destruct (Z.even nb) eqn:Ev; destruct (Z.eqb_spec k 0) as [-> | Hk0].
  - cbn [located]. unfold Qdiv. change (inject_Z 0) with 0%Q. ring.
  - specialize (pos Hk0).
    destruct (Z.compare_spec (2 * k) nb) as [He | Hl | Hg]; cbn [located].
    + rewrite <- He, inject_Z_mult. change (inject_Z 2) with 2%Q.
      assert (Hk' : ~ (inject_Z k == 0)%Q).
      { change 0%Q with (inject_Z 0). rewrite inject_Z_injective. exact Hk0. }
      field. exact Hk'.
    + specialize (lower Hl). lra.
    + specialize (upper Hg). lra.
  - cbn [located]. unfold Qdiv. change (inject_Z 0) with 0%Q. ring.
  - specialize (pos Hk0).
    assert (Hodd : exists j, nb = 2 * j + 1).
    { apply Z.odd_spec. rewrite <- Z.negb_even, Ev. reflexivity. }
    destruct Hodd as [j Hj].
    destruct (Z.compare_spec (2 * k + 1) nb) as [He | Hl | Hg]; cbn [located].
    + specialize (lower ltac:(lia)). lra.
    + specialize (lower ltac:(lia)). lra.
    + specialize (upper ltac:(lia)). lra.
Qed.

Lemma pow2_inject (s : Z) : 0 <= s -> (pow2 s == inject_Z (2 ^ s))%Q.
Proof. intros H. unfold pow2. rewrite Zpower_Qpower by exact H. reflexivity. Qed.

Lemma pow2_nonzero (e : Z) : ~ (pow2 e == 0)%Q.
Proof. pose proof (pow2_pos e). lra. Qed.

(** The integer quotient, its exponent and its location for a division
    of a double by a normal double with exponent in [-50, 0]. *)
Lemma SFdiv_core_binary_located (m1 m2 : positive) (e1 e2 : Z) :
  Z.pos m1 < 2 ^ 53 -> -1074 <= e1 <= 971 ->
  Z.pos (digits2_pos m2) = 53 -> -50 <= e2 <= 0 ->
  let '(q, e', l) := SFdiv_core_binary prec emax (Z.pos m1) e1 (Z.pos m2) e2 in
  0 <= q < 2 ^ 54 /\ -1074 <= e' <= 968 /\ (0 < q \/ e' <= -1074)
  /\ located q l (realValue m1 e1 / realValue m2 e2 * pow2 (- e')).
Proof.
  intros Hm1 He1 Hd2 He2. unfold SFdiv_core_binary. cbn [Zdigits2]. rewrite Hd2.
  pose proof (digits2_pos_lower m1) as Hl1. pose proof (digits2_pos_upper m1) as Hu1.
  pose proof (digits2_pos_lower m2) as Hl2. pose proof (digits2_pos_upper m2) as Hu2.
  rewrite Hd2 in Hl2, Hu2. change (53 - 1) with 52 in Hl2.
  set (d1 := Z.pos (digits2_pos m1)) in *.
  assert (Hd1 : 1 <= d1 <= 53).
  { split; [subst d1; lia|].
    assert (H : 2 ^ (d1 - 1) < 2 ^ 53) by lia.
    apply Z.pow_lt_mono_r_iff in H; lia. }
  set (e' := Z.min (fexp prec emax (d1 + e1 - (53 + e2))) (e1 - e2)).
  set (s := e1 - e2 - e').
  assert (Hs : 0 <= s <= 106 - d1)
    by (subst s e'; unfold fexp, SpecFloat.emin, emax, prec; lia).
  assert (He' : -1074 <= e' <= 968)
    by (subst e'; unfold fexp, SpecFloat.emin, emax, prec; lia).
  assert (Hm' : match s with
                | 0 => Z.pos m1
                | Z.pos _ => Z.shiftl (Z.pos m1) s
                | Z.neg _ => 0
                end = Z.pos m1 * 2 ^ s).
  { destruct s as [|p|p] eqn:Es; [lia | apply Z.shiftl_mul_pow2; lia | lia]. }
  rewrite Hm'. clear Hm'.
  set (M := Z.pos m1 * 2 ^ s).
  assert (H2s : 0 < 2 ^ s) by (apply Z.pow_pos_nonneg; lia).
  assert (HM0 : 0 <= M) by (subst M; lia).
  assert (HMu : M < Z.pos m2 * 2 ^ 54).
  { apply Z.lt_le_trans with (2 ^ 106).
    - apply Z.lt_le_trans with (2 ^ d1 * 2 ^ s).
      + subst M. apply Z.mul_lt_mono_pos_r; assumption.
      + rewrite <- Z.pow_add_r by lia. apply Z.pow_le_mono_r; lia.
    - change (2 ^ 106) with (2 ^ 52 * 2 ^ 54). apply Z.mul_le_mono_nonneg_r; lia. }
  pose proof (Z_div_mod M (Z.pos m2) eq_refl) as Hdiv.
  destruct (Z.div_eucl M (Z.pos m2)) as [q r]. destruct Hdiv as [Heq Hr].
  assert (Hq : q = M / Z.pos m2) by (apply Z.div_unique with r; lia).
  split; [|split; [exact He'|split]].
  - rewrite Hq. split; [apply Z.div_pos; lia|].
    apply Z.div_lt_upper_bound; lia.
  - destruct (Z_le_gt_dec e' (-1074)) as [Hle | Hgt]; [right; exact Hle | left].
    assert (Hs' : s = 106 - d1)
      by (subst s e'; unfold fexp, SpecFloat.emin, emax, prec in *; lia).
    rewrite Hq. apply Z.div_str_pos. split; [lia|].
    apply Z.le_trans with (2 ^ 105); [lia|].
    apply Z.le_trans with (2 ^ (d1 - 1) * 2 ^ s).
    + rewrite <- Z.pow_add_r by lia. apply Z.pow_le_mono_r; lia.
    + subst M. apply Z.mul_le_mono_nonneg_r; lia.
  - apply (located_ext _ _ (inject_Z q + inject_Z r / inject_Z (Z.pos m2))).
    + assert (HB : ~ (inject_Z (Z.pos m2) == 0)%Q).
      { change 0%Q with (inject_Z 0). rewrite inject_Z_injective. lia. }
      assert (HMq : (inject_Z M == inject_Z (Z.pos m2) * inject_Z q + inject_Z r)%Q)
        by (rewrite Heq, inject_Z_plus, inject_Z_mult; reflexivity).
      assert (HMs : (inject_Z M == inject_Z (Z.pos m1) * pow2 s)%Q)
        by (subst M; rewrite inject_Z_mult, pow2_inject by lia; reflexivity).
      assert (Hp : (pow2 e1 == pow2 s * pow2 e2 * pow2 e')%Q).
      { rewrite <- !pow2_add. replace (s + e2 + e') with e1 by (subst s; lia).
        reflexivity. }
      unfold realValue. rewrite Hp.
      assert (Hopp : (pow2 (- e') == / pow2 e')%Q) by (unfold pow2; apply Qpower_opp).
      rewrite Hopp.
      pose proof (pow2_nonzero e2) as H2. pose proof (pow2_nonzero e') as H3.
      transitivity (inject_Z M / inject_Z (Z.pos m2))%Q.
      * rewrite HMq. field. exact HB.
      * rewrite HMs. field. repeat split; assumption.
    + apply new_location_located; lia.
Qed.

(** [realOf] reads the value off the unpacked double. *)
Lemma realOf_valueOf (x : float) : realOf x = valueOf (Prim2SF x).
Proof. reflexivity. Qed.

(** A product of positive doubles that does not overflow. *)
Lemma mul_within (x c : float) (mx mc : positive) (ex ec : Z) :
  Prim2SF x = S754_finite false mx ex -> Prim2SF c = S754_finite false mc ec ->
  (x * c <? infinity)%float = true ->
  ((exists s, Prim2SF (x * c) = S754_zero s)
   \/ exists p e, Prim2SF (x * c) = S754_finite false p e)
  /\ (0 <= realOf (x * c)
      /\ realOf (x * c) - realOf x * realOf c
         <= (1 # 9007199254740992) * realOf (x * c) + pow2 (-1075)
      /\ realOf x * realOf c - realOf (x * c)
         <= (1 # 9007199254740992) * realOf (x * c) + pow2 (-1075))%Q.
Proof.
  intros Hx Hc Hlt.
  pose proof (Prim2SF_valid (x * c)) as Hvalid.
  rewrite ltb_spec in Hlt. rewrite !realOf_valueOf.
  rewrite mul_spec, Hx, Hc in *. cbn [valueOf].
  unfold SF64mul, SFmul in *. cbn [xorb] in *.
  pose proof (binary_round_aux_positive (Z.pos (mx * mc)) (ex + ec) loc_Exact) as Hs.
  pose proof (binary_round_aux_not_nan false (Z.pos (mx * mc)) (ex + ec) loc_Exact
                ltac:(lia)) as Hn.
  assert (Hfin : forall s, binary_round_aux prec emax false (Z.pos (mx * mc)) (ex + ec)
                             loc_Exact <> S754_infinity s).
  { intros s E. rewrite E in Hlt, Hs. subst s. discriminate. }
  split.
  - destruct (binary_round_aux prec emax false (Z.pos (mx * mc)) (ex + ec) loc_Exact)
      as [s | s | | s p e].
    + left. now exists s.
    + exfalso. apply (Hfin s). reflexivity.
    + congruence.
    + subst s. right. now exists p, e.
  - apply binary_round_aux_within; try assumption; try lia.
    apply SFmul_located.
Qed.

(** A quotient of a positive double by a normal double with exponent in
    [-50, 0] does not overflow. *)
Lemma div_within (a c : float) (ma mc : positive) (ea ec : Z) :
  Prim2SF a = S754_finite false ma ea -> Prim2SF c = S754_finite false mc ec ->
  Z.pos (digits2_pos mc) = 53 -> -50 <= ec <= 0 ->
  (0 <=? a / c)%float = true /\ (a / c <? infinity)%float = true
  /\ (0 <= realOf (a / c)
      /\ realOf (a / c) - realOf a / realOf c
         <= (1 # 9007199254740992) * realOf (a / c) + pow2 (-1075)
      /\ realOf a / realOf c - realOf (a / c)
         <= (1 # 9007199254740992) * realOf (a / c) + pow2 (-1075))%Q.
Proof.
  intros Ha Hc Hd He.
  pose proof (Prim2SF_valid (a / c)) as Hvalid.
  destruct (Prim2SF_finite_valid a false ma ea Ha) as (Hma & Hea & _).
  rewrite leb_spec, ltb_spec, !realOf_valueOf.
  rewrite div_spec, Ha, Hc in *. cbn [valueOf].
  unfold SF64div, SFdiv in *. cbn [xorb] in *.
  pose proof (SFdiv_core_binary_located ma mc ea ec Hma Hea Hd He) as Hcore.
  destruct (SFdiv_core_binary prec emax (Z.pos ma) ea (Z.pos mc) ec) as [[q e'] l].
  destruct Hcore as (Hq & He' & Hz & Hloc).
  assert (Hshape : binary_round_aux prec emax false q e' l = S754_zero false
                   \/ exists p e3, binary_round_aux prec emax false q e' l
                                   = S754_finite false p e3).
  { destruct (binary_round_aux_exponent q e' l 54 Hq ltac:(lia) ltac:(lia) ltac:(lia))
      as [H | (p & e3 & H & _)]; [left; exact H | right; now exists p, e3]. }
  split; [|split].
  - destruct Hshape as [-> | (p & e3 & ->)]; reflexivity.
  - destruct Hshape as [-> | (p & e3 & ->)]; reflexivity.
  - apply binary_round_aux_within; try assumption; try lia.
    intros s E. destruct Hshape as [H | (p & e3 & H)]; congruence.
Qed.

End QuotientFacts.

Module ConversionFacts.
Import JSNumber RoundingSpec FloatFacts RoundingFacts FloatOrderFacts DivisionFacts
  LocationFacts ShiftFacts RoundingErrorFacts QuotientFacts.
Import Service.

(** The conversion factor is exactly [10^9]. *)
Lemma realOf_LAMPORTS_PER_SOL : (realOf LAMPORTS_PER_SOL == 1000000000)%Q.
Proof. reflexivity. Qed.

(** The round trip of a non-negative double whose product with [1e9]
    does not overflow: two roundings to nearest away from the input. *)
Lemma roundtrip_within (y : float) :
  (0 <=? y)%float = true -> (solToLamports y <? infinity)%float = true ->
  (0 <=? lamportsToSol (solToLamports y))%float = true
  /\ (lamportsToSol (solToLamports y) <? infinity)%float = true
  /\ (Qabs (realOf (lamportsToSol (solToLamports y)) - realOf y)
      <= pow2 (-51) * realOf y + pow2 (-1074))%Q.
Proof.
  unfold lamportsToSol, solToLamports, lamportsToSolOver, solToLamportsOver.
  intros H0 Hfin.
  pose proof TransactionListFacts.Prim2SF_1e9 as Hc.
  change 1e9%float with LAMPORTS_PER_SOL in Hc.
  pose proof realOf_LAMPORTS_PER_SOL as Hrc.
  pose proof (pow2_pos (-1075)) as Heta.
  assert (H51 : (pow2 (-51) == 1 # 2251799813685248)%Q) by reflexivity.
  assert (H74 : (pow2 (-1074) == 2 * pow2 (-1075))%Q).
  { change (-1074) with (-1075 + 1). rewrite pow2_succ. ring. }
  rewrite H51, H74. clear H51 H74.
  revert Hc Hrc H0 Hfin. generalize LAMPORTS_PER_SOL. intros c Hc Hrc H0 Hfin.
  rewrite leb_spec, Prim2SF_zero in H0.
  destruct (Prim2SF y) as [s | s | | s my ey] eqn:Hy; try discriminate.
  - (* a zero *)
    assert (Hm : Prim2SF (y * c) = S754_zero s)
      by (rewrite mul_spec, Hy, Hc; destruct s; reflexivity).
    assert (Hd : Prim2SF (y * c / c) = S754_zero s)
      by (rewrite div_spec, Hm, Hc; destruct s; reflexivity).
    rewrite leb_spec, ltb_spec, Hd, Prim2SF_zero.
    split; [destruct s; reflexivity|]. split; [destruct s; reflexivity|].
    unfold realOf. rewrite Hd, Hy. cbn. lra.
  - (* an infinity *)
    destruct s; [discriminate|]. exfalso.
    rewrite ltb_spec, mul_spec, Hy, Hc in Hfin. discriminate.
  - (* positive and finite *)
    destruct s; [discriminate|].
    destruct (mul_within y c _ _ _ _ Hy Hc Hfin) as [Hshape (Ha0 & Ha1 & Ha2)].
    assert (Hry : (0 <= realOf y)%Q)
      by (unfold realOf; rewrite Hy; apply realValue_nonneg).
    rewrite Hrc in Ha1, Ha2.
    destruct Hshape as [[s Hz] | (p & e & Hf)].
    + assert (Hd : Prim2SF (y * c / c) = S754_zero s)
        by (rewrite div_spec, Hz, Hc; destruct s; reflexivity).
      rewrite leb_spec, ltb_spec, Hd, Prim2SF_zero.
      split; [destruct s; reflexivity|]. split; [destruct s; reflexivity|].
      assert (Hra : (realOf (y * c) == 0)%Q) by (unfold realOf; rewrite Hz; reflexivity).
      assert (Hrd : (realOf (y * c / c) == 0)%Q)
        by (unfold realOf; rewrite Hd; reflexivity).
      rewrite Hrd. rewrite Hra in Ha1, Ha2.
      apply Qabs_Qle_condition. split; lra.
    + destruct (div_within (y * c) c _ _ _ _ Hf Hc eq_refl ltac:(lia))
        as (Hd0 & Hd1 & Hb0 & Hb1 & Hb2).
      split; [exact Hd0|]. split; [exact Hd1|].
      rewrite Hrc in Hb1, Hb2. unfold Qdiv in Hb1, Hb2.
      change (/ 1000000000)%Q with (1 # 1000000000)%Q in Hb1, Hb2.
      apply Qabs_Qle_condition. split; lra.
Qed.

(** Over exact rational arithmetic the round trip is the identity. *)
Lemma roundtrip_exact (x : Q) : (lamportsToSolExact (solToLamportsExact x) == x)%Q.
Proof.
  unfold lamportsToSolExact, solToLamportsExact, lamportsToSolOver, solToLamportsOver.
  apply Qdiv_mult_l. discriminate.
Qed.

(** A product that overflows comes back as [Infinity]. *)
Lemma roundtrip_overflow (y : float) :
  (0 <=? y)%float = true -> (solToLamports y <? infinity)%float = false ->
  lamportsToSol (solToLamports y) = infinity.
Proof.
  unfold lamportsToSol, solToLamports, lamportsToSolOver, solToLamportsOver.
  intros H0 Hinf.
  pose proof TransactionListFacts.Prim2SF_1e9 as Hc.
  change 1e9%float with LAMPORTS_PER_SOL in Hc.
  revert Hc H0 Hinf. generalize LAMPORTS_PER_SOL. intros c Hc H0 Hinf.
  apply Prim2SF_inj. rewrite div_spec.
  rewrite ltb_spec in Hinf. rewrite leb_spec, Prim2SF_zero in H0.
  rewrite mul_spec, Hc in *.
  change (Prim2SF infinity) with (S754_infinity false) in *.
  destruct (Prim2SF y) as [s | s | | s my ey]; try discriminate.
  - destruct s; [cbn in H0; discriminate | reflexivity].
  - destruct s; [cbn in H0; discriminate|].
    unfold SF64mul, SFmul in *. cbn [xorb] in *.
    pose proof (binary_round_aux_positive (Z.pos (my * 8388608000000000)) (ey + -23)
                  loc_Exact) as Hs.
    pose proof (binary_round_aux_not_nan false (Z.pos (my * 8388608000000000))
                  (ey + -23) loc_Exact ltac:(lia)) as Hn.
    destruct (binary_round_aux prec emax false (Z.pos (my * 8388608000000000))
                (ey + -23) loc_Exact) as [s | s | | s p e];
      try subst s; try discriminate; try congruence.
    reflexivity.
Qed.

(** Counterexample to C7 as stated, in the arithmetic of the code:
    [1e300] is not negative, [1e300 * 1e9] overflows, and the round trip
    returns [Infinity], which is within no tolerance of [1e300]. *)
Lemma roundtrip_overflow_counterexample :
  (0 <=? 1e300)%float = true
  /\ solToLamports 1e300 = infinity
  /\ lamportsToSol (solToLamports 1e300) = infinity
  /\ (lamportsToSol (solToLamports 1e300) =? 1e300)%float = false.
Proof. vm_compute. repeat split. Qed.

(** C7 (amended).  Over exact rational arithmetic the round trip
    [lamportsToSol(solToLamports(q))] is [q].  In the double arithmetic of
    the code, for every [x >= 0]: when [x * 1e9] does not overflow, the
    round trip is a finite double, not negative, within
    [2^-51 * x + 2^-1074] of [x]; when it overflows, the round trip
    returns [Infinity]. *)
Theorem unit_conversion_roundtrip (q : Q) (x : float) :
  (lamportsToSolExact (solToLamportsExact q) == q)%Q
  /\ ((0 <=? x)%float = true ->
      ((solToLamports x <? infinity)%float = true ->
       (0 <=? lamportsToSol (solToLamports x))%float = true
       /\ (lamportsToSol (solToLamports x) <? infinity)%float = true
       /\ (Qabs (realOf (lamportsToSol (solToLamports x)) - realOf x)
           <= pow2 (-51) * realOf x + pow2 (-1074))%Q)
      /\ ((solToLamports x <? infinity)%float = false ->
          lamportsToSol (solToLamports x) = infinity)).
Proof.
  split; [apply roundtrip_exact|].
  intros H0. split.
  - intros Hfin. apply roundtrip_within; assumption.
  - intros Hinf. apply roundtrip_overflow; assumption.
Qed.

(** The amended C7 at three halves: exactly over the rationals and, with
    nothing overflowing, within the tolerance over the doubles; and at
    [1e300], where the product overflows. *)
Lemma unit_conversion_roundtrip_witness :
  ((0 <=? 1.5)%float = true /\ (0 <=? 1e300)%float = true)
  /\ (lamportsToSolExact (solToLamportsExact (3 # 2)) == 3 # 2)%Q
  /\ (Qabs (realOf (lamportsToSol (solToLamports 1.5)) - realOf 1.5)
      <= pow2 (-51) * realOf 1.5 + pow2 (-1074))%Q
  /\ lamportsToSol (solToLamports 1e300) = infinity.
Proof.
  split; [split; reflexivity|].
  destruct (unit_conversion_roundtrip (3 # 2) 1.5%float) as [Hq H1].
  destruct (unit_conversion_roundtrip (3 # 2) 1e300%float) as [_ H2].
  split; [exact Hq|].
  split; [exact (proj2 (proj2 (proj1 (H1 eq_refl) eq_refl)))
         | exact (proj2 (H2 eq_refl) eq_refl)].
Defined.

(** On everyday amounts the doubles do round-trip exactly; on others the
    result is the neighbouring double. *)
Example roundtrip_samples :
  map (fun x => lamportsToSol (solToLamports x)) [0; 0.000000001; 0.1; 1.5; 123.456]%float
  = [0; 0.000000001; 0.1; 1.5; 123.456]%float
  /\ lamportsToSol (solToLamports 0.0089197224975222991)
     = 0.0089197224975222974%float.
Proof. split; reflexivity. Qed.

End ConversionFacts.

Module TruncationFacts.
Import JSString StringFacts Utils.

(** Keeping the first [c] and the last [c] code units of a string that
    has at least [c] of them. *)
Lemma ends_of_long (s : string) (c : Z) :
  0 < c <= len s ->
  len (slice s 0 (Some c) ++ "..." ++ slice s (- c) None) = 2 * c + 3
  /\ slice (slice s 0 (Some c) ++ "..." ++ slice s (- c) None) 0 (Some c)
     = slice s 0 (Some c)
  /\ slice (slice s 0 (Some c) ++ "..." ++ slice s (- c) None) (- c) None
     = slice s (- c) None.
Proof.
  intros H.
  pose proof (len_slice_prefix s c ltac:(lia)) as Hp.
  pose proof (len_slice_suffix s c H) as Hs.
  split; [|split].
  - rewrite !len_append, Hp, Hs. change (len "...") with 3. lia.
  - rewrite <- Hp at 3. apply slice_prefix_of_append.
  - rewrite <- Hs at 3. rewrite <- append_assoc. apply slice_suffix_of_append. lia.
Qed.

(** X1.  For every address of at least [chars >= 1] code units,
    [formatAddress(address, chars)] is the first [chars] code units, three
    dots and the last [chars] code units: [2 * chars + 3] code units in
    all, so it is shorter than the address only when the address has more
    than [2 * chars + 3].  [formatPublicKey], [shortenSignature] and, for
    [chars = 4], the wallet button's own [formatAddress] return the same
    text. *)
Theorem truncation_keeps_both_ends (address : string) (chars : Z) :
  0 < chars <= len address ->
  formatAddress address chars
  = substring 0 (Z.to_nat chars) address ++ "..."
    ++ substring (Z.to_nat (len address - chars)) (Z.to_nat chars) address
  /\ len (formatAddress address chars) = 2 * chars + 3
  /\ (len (formatAddress address chars) < len address <-> 2 * chars + 3 < len address)
  /\ slice (formatAddress address chars) 0 (Some chars) = slice address 0 (Some chars)
  /\ slice (formatAddress address chars) (- chars) None = slice address (- chars) None
  /\ Service.formatPublicKey address chars = formatAddress address chars
  /\ Service.shortenSignature address chars = formatAddress address chars
  /\ (chars = 4 -> WalletButton.formatAddress address = formatAddress address chars).
Proof.
  intros H.
  assert (Hne : address <> "") by (intros ->; cbn in H; lia).
  assert (Ht : truthy address = true) by (now apply truthy_nonempty).
  unfold Service.formatPublicKey, Service.shortenSignature, WalletButton.formatAddress,
    formatAddress. rewrite Ht. cbn [negb].
  destruct (ends_of_long address chars H) as (Hl & Hp & Hs).
  split; [|split; [|split; [|split; [|split; [|split; [|split]]]]]];
    try reflexivity; try assumption.
  - rewrite slice_prefix by lia. rewrite slice_suffix by lia. reflexivity.
  - rewrite Hl. reflexivity.
  - intros ->. reflexivity.
Qed.

(** X1 on a key of 32 code units, shortened to 4 and 4. *)
Lemma truncation_keeps_both_ends_witness :
  formatAddress "11111111111111111111111111111111" 4 = "1111...1111"
  /\ len (formatAddress "11111111111111111111111111111111" 4) = 11.
Proof.
  assert (H : 0 < 4 <= len "11111111111111111111111111111111") by (vm_compute; split; [reflexivity | discriminate]).
  destruct (truncation_keeps_both_ends "11111111111111111111111111111111" 4 H)
    as (H1 & H2 & _).
  split; [exact H1 | exact H2].
Defined.

(** X2.  With [chars = 0] nothing is cut: [address.slice(-0)] is the
    whole address, so the result is three dots followed by the address,
    three code units longer than the address. *)
Theorem truncation_to_zero_chars (address : string) :
  address <> "" ->
  formatAddress address 0 = "..." ++ address
  /\ Service.formatPublicKey address 0 = "..." ++ address
  /\ Service.shortenSignature address 0 = "..." ++ address
  /\ len (formatAddress address 0) = len address + 3.
Proof.
  intros Hne. apply truthy_nonempty in Hne.
  unfold Service.formatPublicKey, Service.shortenSignature, formatAddress.
  rewrite Hne. cbn [negb].
  assert (Hp : slice address 0 (Some 0) = "").
  { unfold slice, clampIndex. cbn. destruct address; reflexivity. }
  assert (Hs : slice address (- 0) None = address).
  { unfold slice, clampIndex. change (- 0) with 0. cbn [Z.ltb Z.compare].
    pose proof (len_nonneg address) as Hl.
    rewrite Z.min_l by lia. rewrite Z.sub_0_r. rewrite Z.max_l by lia.
    apply substring_0_all. unfold len. lia. }
  rewrite Hp, Hs. cbn [append]. repeat split; try reflexivity.
  change (len (String "." (String "." (String "." address)))) with (len ("..." ++ address)).
  rewrite len_append. change (len "...") with 3. lia.
Qed.

Lemma truncation_to_zero_chars_witness :
  formatAddress "ABCDEFGH" 0 = "...ABCDEFGH".
Proof.
  assert (Hne : "ABCDEFGH" <> "") by discriminate.
  exact (proj1 (truncation_to_zero_chars "ABCDEFGH" Hne)).
Defined.

(** X3.  [truncateText] returns a text that fits unchanged; a longer text
    is cut to its first [maxLength] code units and three dots are added,
    so the result has [maxLength + 3] code units, more than [maxLength];
    truncating the result again changes nothing. *)
Theorem truncateText_cuts_and_marks (text : string) (maxLength : Z) :
  (len text <= maxLength -> truncateText text maxLength = text)
  /\ (0 <= maxLength < len text ->
      truncateText text maxLength = substring 0 (Z.to_nat maxLength) text ++ "..."
      /\ len (truncateText text maxLength) = maxLength + 3)
  /\ (0 <= maxLength ->
      truncateText (truncateText text maxLength) maxLength
      = truncateText text maxLength).
Proof.
  assert (cut : 0 <= maxLength < len text ->
                truncateText text maxLength = slice text 0 (Some maxLength) ++ "..."
                /\ len (slice text 0 (Some maxLength)) = maxLength).
  { intros H. unfold truncateText. destruct (Z.leb_spec (len text) maxLength); [lia|].
    split; [reflexivity | apply len_slice_prefix; lia]. }
  split; [|split].
  - intros H. unfold truncateText. destruct (Z.leb_spec (len text) maxLength); [reflexivity | lia].
  - intros H. destruct (cut H) as [E Hl]. rewrite E. split.
    + rewrite slice_prefix by lia. reflexivity.
    + rewrite len_append, Hl. change (len "...") with 3. lia.
  - intros H0. destruct (Z.le_gt_cases (len text) maxLength) as [Hfit | Hlong].
    + unfold truncateText. destruct (Z.leb_spec (len text) maxLength); [|lia].
      destruct (Z.leb_spec (len text) maxLength); [reflexivity | lia].
    + destruct (cut ltac:(lia)) as [E Hl]. rewrite E.
      unfold truncateText at 1. rewrite len_append, Hl. change (len "...") with 3.
      destruct (Z.leb_spec (maxLength + 3) maxLength); [lia|].
      f_equal. rewrite <- Hl at 2. apply slice_prefix_of_append.
Qed.

Lemma truncateText_cuts_and_marks_witness :
  truncateText "hello" 5 = "hello"
  /\ truncateText "hello world" 5 = "hello..."
  /\ truncateText (truncateText "hello world" 5) 5 = "hello...".
Proof.
  destruct (truncateText_cuts_and_marks "hello" 5) as (H1 & _).
  destruct (truncateText_cuts_and_marks "hello world" 5) as (_ & H2 & H3).
  split; [apply H1; vm_compute; discriminate|].
  split; [apply H2; vm_compute; split; [discriminate | reflexivity]|].
  rewrite H3 by lia. apply H2. vm_compute; split; [discriminate | reflexivity].
Defined.

End TruncationFacts.

(** *** The order of the doubles and the order of the reals *)
Module FloatRealFacts.
Import JSNumber RoundingSpec FloatFacts FloatOrderFacts RoundingErrorFacts.

Lemma realValue_pos (m : positive) (e : Z) : (0 < realValue m e)%Q.
Proof.
  unfold realValue. apply Qmult_lt_0_compat; [|apply pow2_pos].
  change 0%Q with (inject_Z 0). rewrite <- Zlt_Qlt. lia.
Qed.

(** [2^53 * 2^e] is [2^52 * 2^(e+1)]. *)
Lemma realValue_carry (e : Z) :
  (realValue 9007199254740992 e == realValue 4503599627370496 (e + 1))%Q.
Proof.
  unfold realValue. rewrite pow2_succ.
  change (inject_Z (Z.pos 9007199254740992))
    with (inject_Z (Z.pos 4503599627370496) * 2)%Q.
  ring.
Qed.

(** On canonical mantissas and exponents, the order of the doubles is
    the order of the values. *)
Lemma SFleb_realValue (ma mb : positive) (ea eb : Z) :
  Z.pos ma < 2 ^ 53 -> -1074 <= ea ->
  (-1074 < eb -> Z.pos (digits2_pos mb) = 53) ->
  SFleb (S754_finite false ma ea) (S754_finite false mb eb) = true ->
  (realValue ma ea <= realValue mb eb)%Q.
Proof.
  intros Hma Hea Hdb Hle. apply SFleb_finite in Hle.
  destruct Hle as [He | [-> Hm]].
  - pose proof (digits2_pos_lower mb) as Hl. rewrite Hdb in Hl by lia.
    change (2 ^ (53 - 1)) with (Z.pos 4503599627370496) in Hl.
    change (2 ^ 53) with (Z.pos 9007199254740992) in Hma.
    apply Qle_trans with (realValue 9007199254740992 ea).
    + apply realValue_mono; [apply Z.lt_le_incl; exact Hma | apply Z.le_refl].
    + rewrite realValue_carry. apply realValue_mono; [exact Hl | apply Z.le_succ_l, He].
  - apply realValue_mono; [exact Hm | apply Z.le_refl].
Qed.

Lemma ltb_leb (a b : float) : (a <? b)%float = true -> (a <=? b)%float = true.
Proof.
  rewrite ltb_spec, leb_spec. unfold SFltb, SFleb.
  destruct (SFcompare (Prim2SF a) (Prim2SF b)) as [[]|]; congruence.
Qed.

(** Among the doubles that are not negative and not [NaN], [a <= b]
    gives [a <= b] on the values, for a finite [b]. *)
Lemma leb_realOf (a b : float) :
  (0 <=? a)%float = true -> (a <=? b)%float = true -> (b <? infinity)%float = true ->
  (realOf a <= realOf b)%Q.
Proof.
  rewrite !leb_spec, ltb_spec, Prim2SF_zero. unfold realOf.
  change (Prim2SF infinity) with (S754_infinity false).
  intros H0 Hle Hfin.
  pose proof (Prim2SF_valid a) as Va. pose proof (Prim2SF_valid b) as Vb.
  destruct (Prim2SF a) as [sa | sa | | sa ma ea], (Prim2SF b) as [sb | sb | | sb mb eb];
    try (exfalso; try destruct sa; try destruct sb; cbn in H0, Hle, Hfin; discriminate).
  - apply Qle_refl.
  - destruct sb; [exfalso; destruct sa; cbn in Hle; discriminate|].
    apply realValue_nonneg.
  - destruct sa; [exfalso; cbn in H0; discriminate|].
    destruct sb; [exfalso; cbn in Hle; discriminate|].
    destruct (valid_finite false ma ea Va) as (Hma & Hea & _).
    destruct (valid_finite false mb eb Vb) as (_ & _ & Hdb).
    apply SFleb_realValue; try assumption. lia.
Qed.

(** Conversely a smaller value is a smaller double. *)
Lemma ltb_of_realOf (a b : float) :
  (0 <=? a)%float = true -> (0 <=? b)%float = true -> (a <? infinity)%float = true ->
  (realOf a < realOf b)%Q -> (a <? b)%float = true.
Proof.
  intros Ha Hb Hfa Hlt.
  destruct (a <? b)%float eqn:E; [reflexivity | exfalso].
  assert (Hba : (b <=? a)%float = true).
  { rewrite leb_spec in *. rewrite ltb_spec in E. rewrite Prim2SF_zero in *.
    unfold SFleb, SFltb in *.
    rewrite (SFcompare_antisym (Prim2SF a) (Prim2SF b)).
    destruct (SFcompare (Prim2SF a) (Prim2SF b)) as [[]|] eqn:Ec;
      try discriminate; try reflexivity.
    exfalso.
    destruct (Prim2SF a) as [sa | sa | | sa ma ea], (Prim2SF b) as [sb | sb | | sb mb eb];
      try destruct sa; try destruct sb; cbn in Ha, Hb, Ec; try discriminate.
    all: destruct (ea ?= eb); try discriminate;
      destruct (Pos.compare_cont Eq ma mb); discriminate. }
  pose proof (leb_realOf b a Hb Hba Hfa). lra.
Qed.

End FloatRealFacts.

Module FormatSOLFacts.
Import JSNumber FormatSpec RoundingSpec FloatFacts FloatOrderFacts ToFixedFacts
  RoundingErrorFacts QuotientFacts FloatRealFacts Utils.

(** The quotient by [1e9] of a number of base units below [1e21] is not
    negative and below [1e21]. *)
Lemma sol_in_range (lamports : float) :
  (0 <=? lamports)%float = true -> (lamports <? 1e21)%float = true ->
  (0 <=? lamports / LAMPORTS_PER_SOL)%float = true
  /\ (lamports / LAMPORTS_PER_SOL <? 1e21)%float = true.
Proof.
  intros H0 Hlt.
  pose proof TransactionListFacts.Prim2SF_1e9 as Hc.
  change 1e9%float with LAMPORTS_PER_SOL in Hc.
  assert (Hrc : (realOf LAMPORTS_PER_SOL == 1000000000)%Q) by reflexivity.
  assert (Hr21 : (realOf 1e21 == 1000000000000000000000)%Q) by reflexivity.
  assert (H21 : (0 <=? 1e21)%float = true /\ (1e21 <? infinity)%float = true)
    by (split; reflexivity).
  pose proof (leb_realOf lamports 1e21 H0 (ltb_leb _ _ Hlt) (proj2 H21)) as Hx.
  revert Hc Hrc Hx. generalize LAMPORTS_PER_SOL. intros c Hc Hrc Hx.
  destruct (nonneg_below_finite lamports 1e21 H0 Hlt) as [[s Hz] | (m & e & Hf)].
  - assert (Hq : Prim2SF (lamports / c) = S754_zero s)
      by (rewrite div_spec, Hz, Hc; destruct s; reflexivity).
    rewrite leb_spec, ltb_spec, Hq, Prim2SF_zero, Prim2SF_1e21.
    destruct s; split; reflexivity.
  - destruct (div_within lamports c _ _ _ _ Hf Hc eq_refl ltac:(lia))
      as (Hq0 & Hqf & Hr0 & Hr1 & Hr2).
    split; [exact Hq0|].
    apply ltb_of_realOf; try assumption; [apply H21|].
    rewrite Hrc in Hr1. unfold Qdiv in Hr1.
    change (/ 1000000000)%Q with (1 # 1000000000)%Q in Hr1.
    pose proof (pow2_mono (-1075) 0 ltac:(lia)) as Heta.
    change (pow2 0) with 1%Q in Heta.
    rewrite Hr21 in *. lra.
Qed.

(** X4.  For every number of base units from 0 up to, but not including,
    [1e21], [formatSOL] prints the quotient by [1e9] with exactly four
    decimals, rounded to the nearest multiple of [0.0001]. *)
Theorem formatSOL_four_decimals (lamports : float) :
  (0 <=? lamports)%float = true -> (lamports <? 1e21)%float = true ->
  isFixedDecimal 4 (formatSOL lamports) = true
  /\ isRoundingOf 4 (lamports / LAMPORTS_PER_SOL) (formatSOL lamports).
Proof.
  intros H0 Hlt. destruct (sol_in_range lamports H0 Hlt) as [Hq0 Hq1].
  unfold formatSOL. split.
  - apply toFixed_shape; [lia | exact Hq0 | exact Hq1].
  - apply FormatNumberFacts.toFixed_rounds; assumption.
Qed.

Lemma formatSOL_four_decimals_witness :
  isFixedDecimal 4 (formatSOL 1500000000) = true /\ formatSOL 1500000000 = "1.5000".
Proof.
  split; [|reflexivity].
  exact (proj1 (formatSOL_four_decimals 1500000000%float eq_refl eq_refl)).
Defined.

End FormatSOLFacts.

Module AmountFormatFacts.
Import JSNumber Effects FormatSpec RoundingSpec FloatFacts FloatOrderFacts ToFixedFacts.

(** Truncation against an integer bound [c], read on the canonical
    mantissa and exponent; [mc] and [ec] are those of the double [c]. *)
Lemma truncation_bound (m : positive) (e c mc ec : Z) :
  Z.pos m < 2 ^ 53 -> (-1074 < e -> 2 ^ 52 <= Z.pos m) ->
  -1074 <= ec <= 0 -> mc = c * 2 ^ (- ec) -> 2 ^ 52 <= mc < 2 ^ 53 ->
  c <= Z.shiftl (Z.pos m) e <-> ec < e \/ (e = ec /\ mc <= Z.pos m).
Proof.
  intros Hm Hnorm Hec Hmc Hrange.
  assert (Hpow : 0 < 2 ^ (- ec)) by (apply Z.pow_pos_nonneg; lia).
  assert (Hc : 0 < c) by nia.
  assert (H53 : 2 ^ 53 = 2 * 2 ^ 52) by reflexivity.
  remember (2 ^ 52) as P eqn:HP.
  destruct (Z.lt_trichotomy e ec) as [Hlt | [Heq | Hgt]].
  - (* below the exponent of the bound: the truncation is smaller *)
    split; [|lia]. intros Hle. exfalso.
    rewrite <- (Z.opp_involutive e), Z.shiftl_opp_r, Z.shiftr_div_pow2 in Hle by lia.
    assert (Hsplit : 2 ^ (- e) = 2 ^ (- ec) * 2 ^ (ec - e)).
    { rewrite <- Z.pow_add_r by lia. f_equal. lia. }
    assert (Htwo : 2 <= 2 ^ (ec - e)).
    { change 2 with (2 ^ 1) at 1. apply Z.pow_le_mono_r; lia. }
    assert (Hbig : Z.pos m < c * 2 ^ (- e)) by (rewrite Hsplit; nia).
    assert (Hdiv : Z.pos m / 2 ^ (- e) < c).
    { apply Z.div_lt_upper_bound; [apply Z.pow_pos_nonneg; lia | lia]. }
    lia.
  - (* the exponent of the bound *)
    subst e.
    rewrite <- (Z.opp_involutive ec) at 1.
    rewrite Z.shiftl_opp_r, Z.shiftr_div_pow2 by lia. split.
    + intros Hle. right. split; [reflexivity|].
      pose proof (Z.mul_div_le (Z.pos m) (2 ^ (- ec)) Hpow). nia.
    + intros [Hlt | [_ Hle]]; [lia|].
      apply Z.div_le_lower_bound; [exact Hpow | lia].
  - (* above it: the truncation is larger *)
    split; [intros _; now left | intros _].
    assert (Hn : P <= Z.pos m) by (apply Hnorm; lia).
    destruct (Z.le_gt_cases 0 e) as [He | He].
    + rewrite Z.shiftl_mul_pow2 by exact He.
      destruct (Z.eq_dec ec 0) as [-> | Hneg].
      * assert (Htwo : 2 <= 2 ^ e).
        { change 2 with (2 ^ 1) at 1. apply Z.pow_le_mono_r; lia. }
        change (2 ^ (- 0)) with 1 in Hmc. nia.
      * assert (Htwo : 2 <= 2 ^ (- ec)).
        { change 2 with (2 ^ 1) at 1. apply Z.pow_le_mono_r; lia. }
        assert (0 < 2 ^ e) by (apply Z.pow_pos_nonneg; lia). nia.
    + rewrite <- (Z.opp_involutive e), Z.shiftl_opp_r, Z.shiftr_div_pow2 by lia.
      apply Z.div_le_lower_bound; [apply Z.pow_pos_nonneg; lia|].
      assert (Hsplit : 2 ^ (- ec) = 2 ^ (- e) * 2 ^ (e - ec)).
      { rewrite <- Z.pow_add_r by lia. f_equal. lia. }
      assert (Htwo : 2 <= 2 ^ (e - ec)).
      { change 2 with (2 ^ 1) at 1. apply Z.pow_le_mono_r; lia. }
      assert (0 < 2 ^ (- e)) by (apply Z.pow_pos_nonneg; lia).
      rewrite Hsplit in Hmc. nia.
Qed.

(** The order of two negative finite doubles, read on mantissa and
    exponent. *)
Lemma SFleb_negative (m1 m2 : positive) (e1 e2 : Z) :
  SFleb (S754_finite true m1 e1) (S754_finite true m2 e2) = true
  <-> e2 < e1 \/ (e1 = e2 /\ (m2 <= m1)%positive).
Proof.
  unfold SFleb, SFcompare.
  change (Pos.compare_cont Eq m1 m2) with (Pos.compare m1 m2).
  destruct (Z.compare_spec e1 e2); [destruct (Pos.compare_spec m1 m2)| |];
    split; intros H'; try discriminate; try reflexivity; try lia; try tauto.
Qed.

Lemma Prim2SF_minus_1 : Prim2SF (-1)%float = S754_finite true 4503599627370496 (-52).
Proof. reflexivity. Qed.
Lemma Prim2SF_101 : Prim2SF 101%float = S754_finite false 7107243161944064 (-46).
Proof. reflexivity. Qed.

(** [ToIntegerOrInfinity] against the two bounds of [toFixed]: the
    result is below 0 exactly for the doubles up to [-1], and above 100
    exactly for those from [101] on. *)
Lemma truncation_range (x : float) :
  match ToIntegerOrInfinity x with
  | Finite f =>
      (f <? 0) = (x <=? -1)%float /\ (100 <? f) = (101 <=? x)%float
  | PlusInfinity => (x <=? -1)%float = false /\ (101 <=? x)%float = true
  | MinusInfinity => (x <=? -1)%float = true /\ (101 <=? x)%float = false
  end.
Proof.
  unfold ToIntegerOrInfinity. rewrite !leb_spec, Prim2SF_minus_1, Prim2SF_101.
  pose proof (Prim2SF_finite_valid x) as Hvalid.
  destruct (Prim2SF x) as [s | s | | s m e].
  - destruct s; split; reflexivity.
  - destruct s; split; reflexivity.
  - split; reflexivity.
  - destruct (Hvalid s m e eq_refl) as (Hm & He & Hd).
    assert (Hnorm : -1074 < e -> 2 ^ 52 <= Z.pos m).
    { intros H. pose proof (digits2_pos_lower m) as Hl. rewrite (Hd H) in Hl. exact Hl. }
    pose proof (truncation_bound m e 1 (Z.pos 4503599627370496) (-52) Hm Hnorm
                  ltac:(lia) eq_refl ltac:(split; [discriminate | reflexivity])) as H1.
    pose proof (truncation_bound m e 101 (Z.pos 7107243161944064) (-46) Hm Hnorm
                  ltac:(lia) eq_refl ltac:(split; [discriminate | reflexivity])) as H101.
    assert (Hshift : 0 <= Z.shiftl (Z.pos m) e) by (apply Z.shiftl_nonneg; lia).
    destruct s; cbn [cond_Zopp].
    + split.
      * apply eq_true_iff_eq. rewrite Z.ltb_lt, SFleb_negative.
        change (4503599627370496 <= m)%positive
          with (Z.pos 4503599627370496 <= Z.pos m).
        assert (E : -52 < e \/ (e = -52 /\ Z.pos 4503599627370496 <= Z.pos m)
                    <-> 1 <= Z.shiftl (Z.pos m) e) by (symmetry; exact H1).
        rewrite E. lia.
      * transitivity false; [apply Z.ltb_ge; lia | reflexivity].
    + split.
      * transitivity false; [apply Z.ltb_ge; lia | reflexivity].
      * apply eq_true_iff_eq. rewrite Z.ltb_lt, SFleb_finite.
        change (7107243161944064 <= m)%positive
          with (Z.pos 7107243161944064 <= Z.pos m).
        assert (E : -46 < e \/ (-46 = e /\ Z.pos 7107243161944064 <= Z.pos m)
                    <-> 101 <= Z.shiftl (Z.pos m) e).
        { rewrite H101. clear. intuition congruence. }
        rewrite E. lia.
Qed.

(** The truncation is the integer part of the magnitude. *)
Lemma shiftl_integer_part (m : positive) (e : Z) :
  (inject_Z (Z.shiftl (Z.pos m) e) <= realValue m e
   /\ realValue m e < inject_Z (Z.shiftl (Z.pos m) e) + 1)%Q.
Proof.
  destruct (Z.le_gt_cases 0 e) as [He | He].
  - rewrite Z.shiftl_mul_pow2 by exact He.
    assert (Hv : (realValue m e == inject_Z (Z.pos m * 2 ^ e))%Q).
    { unfold realValue. rewrite (QuotientFacts.pow2_inject e He), inject_Z_mult.
      reflexivity. }
    rewrite Hv. split; [apply Qle_refl|].
    change 1%Q with (inject_Z 1). rewrite <- inject_Z_plus, <- Zlt_Qlt. lia.
  - replace e with (- (- e)) by lia. remember (- e) as k eqn:Hk.
    assert (Hpos : 0 < k) by lia. clear Hk He.
    rewrite Z.shiftl_opp_r, Z.shiftr_div_pow2 by lia.
    assert (HD : 0 < 2 ^ k) by (apply Z.pow_pos_nonneg; lia).
    assert (HDq : (0 < inject_Z (2 ^ k))%Q).
    { change 0%Q with (inject_Z 0). now rewrite <- Zlt_Qlt. }
    assert (Hv : (realValue m (- k) * inject_Z (2 ^ k) == inject_Z (Z.pos m))%Q).
    { unfold realValue. rewrite <- (QuotientFacts.pow2_inject k) by lia.
      rewrite <- Qmult_assoc, (RoundingErrorFacts.pow2_inverse k). ring. }
    split.
    + apply (Qmult_le_r _ _ _ HDq). rewrite Hv, <- inject_Z_mult, <- Zle_Qle.
      pose proof (Z.mul_div_le (Z.pos m) (2 ^ k) HD). lia.
    + apply (Qmult_lt_r _ _ _ HDq). rewrite Hv.
      change 1%Q with (inject_Z 1).
      rewrite <- inject_Z_plus, <- inject_Z_mult, <- Zlt_Qlt.
      pose proof (Z.mul_succ_div_gt (Z.pos m) (2 ^ k) HD). lia.
Qed.

Lemma truncation_integer_part (x : float) (f : Z) :
  ToIntegerOrInfinity x = Finite f -> 0 <= f ->
  (inject_Z f <= Qabs (realOf x) /\ Qabs (realOf x) < inject_Z f + 1)%Q.
Proof.
  unfold ToIntegerOrInfinity, realOf.
  destruct (Prim2SF x) as [s | s | | s m e]; intros Hf H0.
  - injection Hf as <-. split; [apply Qle_refl | reflexivity].
  - destruct s; discriminate.
  - injection Hf as <-. split; [apply Qle_refl | reflexivity].
  - injection Hf as <-.
    pose proof (shiftl_integer_part m e) as [Hlo Hhi].
    pose proof (RoundingErrorFacts.realValue_nonneg m e) as Hv.
    assert (Hshift : 0 <= Z.shiftl (Z.pos m) e) by (apply Z.shiftl_nonneg; lia).
    destruct s; cbn [cond_Zopp] in *.
    + assert (E : Z.shiftl (Z.pos m) e = 0) by lia.
      rewrite E in *. rewrite Qabs_opp, (Qabs_pos _ Hv). cbn [Z.opp]. split; assumption.
    + rewrite (Qabs_pos _ Hv). split; assumption.
Qed.

(** X5.  [formatSolAmount(amount, decimals)] truncates [decimals] towards
    zero first.  It throws a [RangeError], whatever the amount, exactly
    when [decimals] is at most [-1] or at least [101]; in particular it
    does not throw for [-0.5], [100.5] or [NaN].  Otherwise it prints
    the amount with the integer part [f] of [decimals] as the number of
    decimals ([f <= |decimals| < f + 1]): for an amount
    from 0 up to, but not including, [1e21], that is the amount rounded
    to the nearest multiple of [10^-f], with exactly [f] digits after
    the point when [f] is not 0.  With four decimals it prints, for
    every amount, what [formatAmount] prints before the token, and
    [formatSOL] is the same print of [lamportsToSol]. *)
Theorem formatSolAmount_decimals (amount decimals : float) :
  match Service.formatSolAmount amount decimals with
  | inl e =>
      e = ErrorObj "toFixed() digits argument must be between 0 and 100"
      /\ ((decimals <=? -1)%float = true \/ (101 <=? decimals)%float = true)
  | inr s =>
      (decimals <=? -1)%float = false /\ (101 <=? decimals)%float = false
      /\ exists f,
           ToIntegerOrInfinity decimals = Finite f /\ 0 <= f <= 100
           /\ (inject_Z f <= Qabs (realOf decimals)
               /\ Qabs (realOf decimals) < inject_Z f + 1)%Q
           /\ s = toFixed amount (Z.to_nat f)
           /\ ((0 <=? amount)%float = true -> (amount <? 1e21)%float = true ->
               isRoundingOf (Z.to_nat f) amount s
               /\ (0 < f -> isFixedDecimal (Z.to_nat f) s = true))
  end
  /\ (forall token,
      exists s,
        Service.formatSolAmount amount 4 = inr s
        /\ TransactionList.formatAmount amount token = s ++ " " ++ token)
  /\ Service.formatSolAmount (Service.lamportsToSol amount) 4
     = inr (Utils.formatSOL amount).
Proof.
  split; [|split].
  - unfold Service.formatSolAmount. pose proof (truncation_range decimals) as H.
    destruct (ToIntegerOrInfinity decimals) as [f | |] eqn:Et.
    + destruct H as [Hneg Hbig].
      destruct (f <? 0) eqn:Ef; cbn [orb].
      * split; [reflexivity | left; now rewrite <- Hneg].
      * destruct (100 <? f) eqn:Eb.
        -- split; [reflexivity | right; now rewrite <- Hbig].
        -- split; [now rewrite <- Hneg|]. split; [now rewrite <- Hbig|].
           apply Z.ltb_ge in Ef, Eb. exists f. split; [reflexivity|].
           split; [lia|].
           split; [apply truncation_integer_part; [exact Et | lia]|].
           split; [reflexivity|]. intros H0 Hlt. split.
           ++ now apply FormatNumberFacts.toFixed_rounds.
           ++ intros Hpos. apply toFixed_shape; [lia | exact H0 | exact Hlt].
    + split; [reflexivity | right; apply H].
    + split; [reflexivity | left; apply H].
  - intros token. exists (toFixed amount 4). split; reflexivity.
  - reflexivity.
Qed.

Lemma formatSolAmount_decimals_witness :
  Service.formatSolAmount 2.5 4 = inr "2.5000"
  /\ isFixedDecimal 4 "2.5000" = true
  /\ Service.formatSolAmount 2.5 (-0.5) = inr "3"
  /\ Service.formatSolAmount 2.5 100.5
     = inr (toFixed 2.5 100)
  /\ Service.formatSolAmount 2.5 101
     = inl (ErrorObj "toFixed() digits argument must be between 0 and 100").
Proof.
  split; [reflexivity|]. split; [|repeat split].
  pose proof (proj1 (formatSolAmount_decimals 2.5%float 4)) as H.
  change (Service.formatSolAmount 2.5 4) with (@inr Thrown string "2.5000") in H.
  destruct H as (_ & _ & f & Hf & _ & _ & _ & H).
  vm_compute in Hf. injection Hf as <-.
  exact (proj2 (H eq_refl eq_refl) ltac:(lia)).
Defined.

End AmountFormatFacts.

Module DebounceFacts.
Import Timers Debounce DebounceSpec.
Local Open Scope list_scope.

Section Trailing.
Context {Args : Type}.
Variable timersFirst : Z -> bool.
Variable wait : Z.
Hypothesis wait_nonneg : 0 <= wait.

(** With one timer pending, time passing fires it or not. *)
Lemma runUntil_one (t now0 : Z) (id next : nat) (args : Args) (due : Z)
    (fired : list (Z * Args)) :
  runUntil t (mkHost now0 next [mkTimer id due args]) fired
  = if due <=? t
    then (mkHost (Z.max (Z.max now0 due) t) next [], fired ++ [(Z.max now0 due, args)])
    else (mkHost (Z.max now0 t) next [mkTimer id due args], fired).
Proof.
  unfold runUntil. cbn [pending List.length advance nextTimer timer_due].
  destruct (Z.leb_spec due t).
  - cbn [pending filter timer_id now nextId timer_payload advance].
    rewrite Nat.eqb_refl. reflexivity.
  - reflexivity.
Qed.

Lemma runUntil_none (t now0 : Z) (next : nat) (fired : list (Z * Args)) :
  runUntil t (mkHost now0 next ([] : list (Timer Args))) fired
  = (mkHost (Z.max now0 t) next [], fired).
Proof. reflexivity. Qed.

(** Before a new task at [t], the pending timer has fired when it was
    due before [t]; when it is due at [t], as the host chooses. *)
Lemma runBefore_one (first : bool) (t now0 : Z) (id next : nat) (args : Args) (due : Z)
    (fired : list (Z * Args)) :
  now0 <= t -> now0 <= due ->
  runBefore first t (mkHost now0 next [mkTimer id due args]) fired
  = if (due <? t) || (first && (due =? t))
    then (mkHost t next [], fired ++ [(due, args)])
    else (mkHost t next [mkTimer id due args], fired).
Proof.
  intros Ht Hdue. unfold runBefore. rewrite runUntil_one.
  destruct first; cbn [andb];
    [destruct (Z.leb_spec due t) | destruct (Z.leb_spec due (t - 1))];
    destruct (Z.ltb_spec due t); destruct (Z.eqb_spec due t); try lia;
    cbn [orb now nextId pending]; repeat f_equal; lia.
Qed.

Lemma runBefore_none (first : bool) (t now0 : Z) (next : nat)
    (fired : list (Z * Args)) :
  now0 <= t ->
  runBefore first t (mkHost now0 next ([] : list (Timer Args))) fired
  = (mkHost t next [], fired).
Proof.
  intros Ht. unfold runBefore. rewrite runUntil_none. cbn [now nextId pending].
  repeat f_equal. destruct first; lia.
Qed.

(** A call leaves exactly one timer pending, due [wait] after the call,
    whether or not the previous one is still pending. *)
Lemma invoke_replaces (t : Z) (id : nat) (args args' : Args) (due : Z)
    (ts : list (Timer Args)) :
  ts = [] \/ ts = [mkTimer id due args] ->
  invoke wait args' (Some id) (mkHost t (S id) ts)
  = (Some (S id), mkHost t (S (S id)) [mkTimer (S id) (t + wait) args']).
Proof.
  intros [-> | ->]; unfold invoke, clearTimeout, setTimeout;
    cbn [pending filter timer_id now nextId app];
    rewrite ?Nat.eqb_refl; cbn [negb app]; rewrite Z.max_l by lia; reflexivity.
Qed.

(** From a state with one timer pending for the previous call. *)
Lemma runCalls_trailing (calls : list (Z * Args)) :
  forall (t : Z) (id : nat) (args : Args) (fired : list (Z * Args)) (finish : Z),
    ascending t calls -> separate wait ((t, args) :: calls) ->
    lastTime t calls + wait <= finish ->
    let '(_, h, fired') :=
      runCalls timersFirst wait calls (Some id)
        (mkHost t (S id) [mkTimer id (t + wait) args]) fired in
    snd (runUntil finish h fired') = fired ++ trailing wait ((t, args) :: calls).
Proof.
  induction calls as [|[t' args'] rest IH];
    intros t id args fired finish Hasc Hsep Hfin.
  - cbn [runCalls lastTime trailing] in *.
    rewrite runUntil_one.
    destruct (Z.leb_spec (t + wait) finish); [|lia].
    cbn [snd]. rewrite Z.max_r by lia. reflexivity.
  - cbn [ascending lastTime] in *. destruct Hasc as [Ht Hasc].
    cbn [separate] in Hsep. destruct Hsep as [Htie Hsep].
    cbn [runCalls now]. cbn [trailing].
    destruct (Z.eqb_spec t t') as [<- | Hne].
    + destruct (Z.ltb_spec (t + wait) t); [lia|].
      rewrite (invoke_replaces t id args args' (t + wait) [mkTimer id (t + wait) args])
        by (now right).
      specialize (IH t (S id) args' fired finish Hasc Hsep Hfin).
      destruct (runCalls timersFirst wait rest _ _ _) as [[c h] fired'].
      exact IH.
    + rewrite runBefore_one by lia.
      assert (Hchoice : (t + wait <? t') || (timersFirst t' && (t + wait =? t'))
                        = (t + wait <? t')).
      { destruct (Z.eqb_spec (t + wait) t'); [lia|].
        now rewrite andb_false_r, orb_false_r. }
      rewrite Hchoice.
      destruct (Z.ltb_spec (t + wait) t').
      * rewrite (invoke_replaces t' id args args' (t + wait) []) by (now left).
        specialize (IH t' (S id) args' (fired ++ [(t + wait, args)]) finish
                      Hasc Hsep Hfin).
        destruct (runCalls timersFirst wait rest _ _ _) as [[c h] fired'].
        rewrite IH. rewrite <- app_assoc. reflexivity.
      * rewrite (invoke_replaces t' id args args' (t + wait)
                   [mkTimer id (t + wait) args]) by (now right).
        specialize (IH t' (S id) args' fired finish Hasc Hsep Hfin).
        destruct (runCalls timersFirst wait rest _ _ _) as [[c h] fired'].
        exact IH.
Qed.

(** In a burst only the last call survives. *)
Lemma trailing_burst (calls : list (Z * Args)) :
  forall (t : Z) (args : Args),
    burst wait ((t, args) :: calls) ->
    trailing wait ((t, args) :: calls)
    = [(lastTime t calls + wait, lastArgs args calls)].
Proof.
  induction calls as [|[t' a'] rest IH]; intros t args Hb.
  - reflexivity.
  - cbn [burst] in Hb. destruct Hb as [Hlt Hb].
    specialize (IH t' a' Hb).
    cbn [trailing lastTime lastArgs] in *.
    destruct (Z.ltb_spec (t + wait) t'); [lia | exact IH].
Qed.


End Trailing.


End DebounceFacts.

Module HomePageFacts.
Import JSNumber HomePage.

(** One firing of the interval moves the highlight to the next of the
    four cards, and from the last one back to the first. *)
Lemma nextFeature_cycle (i : nat) :
  (i < 4)%nat ->
  nextFeature (nth i [0; 1; 2; 3]%float 0%float)
  = nth (S i mod 4) [0; 1; 2; 3]%float 0%float.
Proof.
  intros H. destruct i as [|[|[|[|i]]]]; try lia; reflexivity.
Qed.

(** X7.  The highlighted feature of the landing page: after any number
    of firings of the interval, [activeFeature] is the number of firings
    modulo 4, so it is always an index of the four-element [features]
    array, exactly one card is highlighted, and the highlight is back
    where it was after four firings. *)
Theorem feature_highlight_rotates (ticks : nat) :
  activeFeatureAfter ticks = nth (ticks mod 4) [0; 1; 2; 3]%float 0%float
  /\ highlighted (activeFeatureAfter ticks)
     = map (Nat.eqb (ticks mod 4)) [0; 1; 2; 3]%nat
  /\ activeFeatureAfter (ticks + 4) = activeFeatureAfter ticks.
Proof.
  assert (E : forall n, activeFeatureAfter n = nth (n mod 4) [0; 1; 2; 3]%float 0%float).
  { induction n as [|n IH]; [reflexivity|].
    cbn [activeFeatureAfter]. rewrite IH.
    rewrite nextFeature_cycle by (apply Nat.mod_upper_bound; lia).
    f_equal. replace (S n) with (n + 1)%nat by lia.
    rewrite (Nat.Div0.add_mod n 1 4). change (1 mod 4)%nat with 1%nat.
    now rewrite Nat.add_1_r. }
  split; [apply E|]. split.
  - rewrite E. pose proof (Nat.mod_upper_bound ticks 4 ltac:(lia)) as H.
    destruct (ticks mod 4)%nat as [|[|[|[|i]]]]; try lia; reflexivity.
  - rewrite !E. f_equal.
    rewrite (Nat.Div0.add_mod ticks 4 4). rewrite Nat.Div0.mod_same, Nat.add_0_r.
    apply Nat.Div0.mod_mod.
Qed.

End HomePageFacts.

Module ServiceSuccessFacts.
Import Effects Effects.Notations Sdk Service Spec EffectsFacts ServiceFacts.
Local Open Scope list_scope.

Section Answered.
Context {World PublicKey AccountInfo SdkTransaction Signer
         TransactionResponse EpochInfo : Type}.
Variable connection : Connection World PublicKey AccountInfo SdkTransaction
                        Signer TransactionResponse EpochInfo.
Variable transferTransaction :
  PublicKey -> PublicKey -> float -> Thrown + SdkTransaction.

(** X8.  What the methods of the facade return when the underlying
    calls answer.  [getAccountInfo], [getSlot] and [getEpochInfo] return
    the answer of the SDK as it is; [sendTransaction] and [transferSol]
    return the signature of the submission, once its confirmation is
    answered; [getBalance] returns the answer divided by [1e9], while
    the free helper [getBalance] of [utils.ts] returns the base units
    themselves; [getRecentBlockhash] returns the [blockhash] field of
    the answer and drops the rest of it.  In each case the trace shows
    the calls made, in order, and nothing is written to the console.
    ([getTransactionHistory], which builds its own entries, is X9.) *)
Theorem facade_passes_values_through (st : State World) :
  (forall publicKey balance w,
      conn_getBalance connection publicKey (world st) = (inr balance, w) ->
      getBalance connection publicKey st
      = (inr (lamportsToSol balance), mkState w (trace st ++ [EvCall "getBalance" None]))
      /\ Utils.getBalance connection publicKey st
         = (inr balance, mkState w (trace st ++ [EvCall "getBalance" None])))
  /\ (forall publicKey info w,
      conn_getAccountInfo connection publicKey (world st) = (inr info, w) ->
      getAccountInfo connection publicKey st
      = (inr info, mkState w (trace st ++ [EvCall "getAccountInfo" None])))
  /\ (forall transaction signers signature w1 w,
      conn_sendTransaction connection transaction signers (world st)
      = (inr signature, w1) ->
      conn_confirmTransaction connection signature "confirmed" w1 = (inr tt, w) ->
      sendTransaction connection transaction signers st
      = (inr signature,
         mkState w (trace st ++ [EvCall "sendTransaction" None;
                                 EvCall "confirmTransaction" None])))
  /\ (forall fromPubkey toPubkey lamports signer transaction signature w1 w,
      transferTransaction fromPubkey toPubkey lamports = inr transaction ->
      conn_sendTransaction connection transaction [signer] (world st)
      = (inr signature, w1) ->
      conn_confirmTransaction connection signature "confirmed" w1 = (inr tt, w) ->
      transferSol connection transferTransaction fromPubkey toPubkey lamports signer st
      = (inr signature,
         mkState w (trace st ++ [EvCall "sendTransaction" None;
                                 EvCall "confirmTransaction" None])))
  /\ (forall latest w,
      conn_getLatestBlockhash connection (world st) = (inr latest, w) ->
      getRecentBlockhash connection st
      = (inr (lb_blockhash latest),
         mkState w (trace st ++ [EvCall "getLatestBlockhash" None])))
  /\ (forall slot w,
      conn_getSlot connection (world st) = (inr slot, w) ->
      getSlot connection st = (inr slot, mkState w (trace st ++ [EvCall "getSlot" None])))
  /\ (forall info w,
      conn_getEpochInfo connection (world st) = (inr info, w) ->
      getEpochInfo connection st
      = (inr info, mkState w (trace st ++ [EvCall "getEpochInfo" None]))).
Proof.
  repeat match goal with |- _ /\ _ => split end; intros; try split.
  all: unfold getBalance, Utils.getBalance, getAccountInfo, sendTransaction, transferSol,
         getRecentBlockhash, getSlot, getEpochInfo, lamportsToSol, lamportsToSolOver;
       unfold tryCatch, bind, call, lift, consoleError, throw, ret;
       repeat (match goal with H : _ = _ |- _ => rewrite H; clear H end; cbn);
       rewrite <- ?app_assoc; reflexivity.
Qed.

(** The fields that the entries copy from the signature infos. *)
Lemma entries_fields (signatures : list ConfirmedSignatureInfo)
    (entries : list (HistoryEntry TransactionResponse)) :
  Forall2 (entryOf connection) signatures entries ->
  map (h_signature _) entries = map sig_signature signatures
  /\ map (h_slot _) entries = map sig_slot signatures
  /\ map (h_blockTime _) entries = map sig_blockTime signatures.
Proof.
  induction 1 as [|sig entry sigs entries (F1 & F2 & F3 & _) _ (E1 & E2 & E3)].
  - repeat split.
  - cbn [map]. rewrite E1, E2, E3, F1, F2, F3. repeat split.
Qed.

Lemma repeat_map_const {X Y : Type} (y : Y) (xs : list X) :
  repeat y (List.length xs) = map (fun _ => y) xs.
Proof. induction xs; cbn; [reflexivity | now f_equal]. Qed.

(** X9.  [getTransactionHistory], the lookups being answered in whatever
    order [order].  When it returns a value, the list of signatures and
    every lookup were answered; the value has one entry per signature,
    in the order of the signatures whatever the order of the answers,
    each with the signature, slot and block time of its signature info
    and with an answer of the lookup of that signature as its
    transaction; and the trace shows the request for the signatures
    followed by one answered lookup per signature and no console line.
    Conversely it returns a value whenever the lookups of the run are
    all answered, hence whenever the connection answers the lookup of
    each of the signatures. *)
Theorem history_lists_every_signature (publicKey : PublicKey) (limit : float)
    (order : list nat) (st : State World) :
  (forall entries st',
      getTransactionHistory connection publicKey limit order st = (inr entries, st') ->
      exists signatures w1,
        conn_getSignaturesForAddress connection publicKey limit (world st)
        = (inr signatures, w1)
        /\ map (h_signature _) entries = map sig_signature signatures
        /\ map (h_slot _) entries = map sig_slot signatures
        /\ map (h_blockTime _) entries = map sig_blockTime signatures
        /\ Forall2 (entryOf connection) signatures entries
        /\ trace st'
           = trace st ++ EvCall "getSignaturesForAddress" None
               :: map (fun _ => EvCall "getTransaction" None) signatures)
  /\ (forall signatures w1 entries st2,
      conn_getSignaturesForAddress connection publicKey limit (world st)
      = (inr signatures, w1) ->
      promiseAll (fetchEntry connection) signatures order
        (mkState w1 (trace st ++ [EvCall "getSignaturesForAddress" None]))
      = (inr entries, st2) ->
      getTransactionHistory connection publicKey limit order st = (inr entries, st2))
  /\ (forall signatures w1,
      conn_getSignaturesForAddress connection publicKey limit (world st)
      = (inr signatures, w1) ->
      (forall sig w, In sig signatures ->
         exists tx w',
           conn_getTransaction connection (sig_signature sig) w = (inr tx, w')) ->
      exists entries st',
        getTransactionHistory connection publicKey limit order st = (inr entries, st')).
Proof.
  assert (run : forall signatures w1,
             conn_getSignaturesForAddress connection publicKey limit (world st)
             = (inr signatures, w1) ->
             getTransactionHistory connection publicKey limit order st
             = tryCatch
                 (promiseAll (fetchEntry connection) signatures order)
                 (fun error =>
                    consoleError "Error fetching transaction history:" error ;;;
                    throw (ErrorObj "Failed to fetch transaction history"))
                 (mkState w1 (trace st ++ [EvCall "getSignaturesForAddress" None]))).
  { intros signatures w1 Hs.
    unfold getTransactionHistory, tryCatch. unfold bind at 1.
    rewrite (call_value _ _ _ _ _ Hs). reflexivity. }
  split; [|split].
  - intros entries st' H.
    destruct (conn_getSignaturesForAddress connection publicKey limit (world st))
      as [[fault | signatures] w1] eqn:Hs.
    + exfalso. unfold getTransactionHistory, tryCatch in H. unfold bind at 1 in H.
      rewrite (call_fault _ _ _ _ _ Hs) in H. cbn in H. discriminate.
    + rewrite (run _ _ eq_refl) in H. unfold tryCatch in H.
      pose proof (lookups_outcome connection signatures order
                    (mkState w1 (trace st ++ [EvCall "getSignaturesForAddress" None])))
        as Hrun.
      destruct (promiseAll (fetchEntry connection) signatures order _)
        as [[fault | bs] st2]; [cbn in H; discriminate|].
      injection H as <- <-. destruct Hrun as [Hall Htr].
      exists signatures, w1. split; [reflexivity|].
      destruct (entries_fields _ _ Hall) as (E1 & E2 & E3).
      repeat split; try assumption.
      rewrite Htr. cbn [trace]. rewrite <- app_assoc. cbn [app].
      now rewrite repeat_map_const.
  - intros signatures w1 entries st2 Hs Hp.
    rewrite (run _ _ Hs). unfold tryCatch. rewrite Hp. reflexivity.
  - intros signatures w1 Hs Hall.
    rewrite (run _ _ Hs). unfold tryCatch.
    pose proof (lookups_outcome connection signatures order
                  (mkState w1 (trace st ++ [EvCall "getSignaturesForAddress" None])))
      as Hrun.
    destruct (promiseAll (fetchEntry connection) signatures order _)
      as [[fault | bs] st2]; [|now exists bs, st2].
    exfalso. destruct Hrun as (_ & _ & _ & sig & Hin & w & w' & Hw).
    destruct (Hall sig w Hin) as (tx & w2 & Htx). rewrite Htx in Hw. discriminate.
Qed.
End Answered.

Import Scenarios Fixtures.

(** X8 on a connection that answers: 2.5e9 base units are 2.5 display
    units, and of the latest blockhash and its block height only the
    blockhash is returned. *)
Lemma facade_passes_values_through_witness :
  getBalance liveConnection "key" start
  = (inr 2.5%float, mkState tt [EvCall "getBalance" None])
  /\ Utils.getBalance liveConnection "key" start
     = (inr 2500000000%float, mkState tt [EvCall "getBalance" None])
  /\ sendTransaction liveConnection tt [] start
     = (inr "5ig", mkState tt [EvCall "sendTransaction" None;
                               EvCall "confirmTransaction" None])
  /\ getRecentBlockhash liveConnection start
     = (inr "hash", mkState tt [EvCall "getLatestBlockhash" None]).
Proof.
  pose proof (facade_passes_values_through liveConnection buildTransfer start)
    as (H1 & _ & H3 & _ & H5 & _).
  destruct (H1 "key" _ tt eq_refl) as [Ha Hb].
  split; [exact Ha|]. split; [exact Hb|].
  split; [exact (H3 tt [] "5ig" tt tt eq_refl eq_refl)|].
  exact (H5 (mkLatestBlockhash "hash" 250) tt eq_refl).
Defined.

(** X9 on a connection that answers with two signatures, the lookup of
    the second being answered first. *)
Lemma history_lists_every_signature_witness :
  getTransactionHistory liveConnection "key" 10%float [1; 0]%nat start
  = (inr [mkHistoryEntry "a" 1 (Some 1700000000%float) "tx:a";
          mkHistoryEntry "b" 2 None "tx:b"],
     mkState tt [EvCall "getSignaturesForAddress" None;
                 EvCall "getTransaction" None; EvCall "getTransaction" None]).
Proof.
  exact (proj1 (proj2 (history_lists_every_signature liveConnection "key" 10%float
                         [1; 0]%nat start))
           _ tt _ (mkState tt _) eq_refl eq_refl).
Defined.

End ServiceSuccessFacts.

Module TransferFacts.
Import JSString JSNumber Effects Effects.Notations Sdk SendSol StringFacts.
Local Open Scope list_scope.

Section Handler.
Context {World PublicKey AccountInfo Instruction Signer
         TransactionResponse EpochInfo : Type}.
Variable newPublicKey : string -> Thrown + PublicKey.
Variable systemTransfer : PublicKey -> PublicKey -> float -> Thrown + Instruction.
Variable connection :
  Connection World PublicKey AccountInfo
    (SdkTransaction (PublicKey := PublicKey) (Instruction := Instruction))
    Signer TransactionResponse EpochInfo.
Variable connected : bool.
Variable publicKey : option PublicKey.
Variable walletSendTransaction :
  SdkTransaction (PublicKey := PublicKey) (Instruction := Instruction) -> Oracle World string.

Local Abbreviation run :=
  (handleSendSol newPublicKey systemTransfer connection connected publicKey
     walletSendTransaction).

(** Validation changes the form only by setting an error status. *)
Lemma validateInputs_fields (st : FormState) :
  recipient (snd (validateInputs newPublicKey st)) = recipient st
  /\ amount (snd (validateInputs newPublicKey st)) = amount st
  /\ isLoading (snd (validateInputs newPublicKey st)) = isLoading st
  /\ (fst (validateInputs newPublicKey st) = false ->
      status_type (status (snd (validateInputs newPublicKey st))) = Some StatusError)
  /\ (fst (validateInputs newPublicKey st) = true ->
      snd (validateInputs newPublicKey st) = st
      /\ exists key, newPublicKey (recipient st) = inr key).
Proof.
  unfold validateInputs.
  destruct (negb (truthy (trim (recipient st)))); [cbn; repeat split; discriminate|].
  destruct (amountInvalid (amount st)); [cbn; repeat split; discriminate|].
  destruct (newPublicKey (recipient st)) as [e | key];
    cbn; repeat split; try discriminate. now exists key.
Qed.

(** X10.  [handleSendSol] never throws and always leaves a status: an
    error status with the recipient and the amount as they were, or,
    only when the confirmation of the transfer was answered, the success
    status with both fields cleared and [isLoading] reset.  Without a
    connected wallet nothing is called. *)
Theorem transfer_form_cleared_only_when_confirmed (st : FormState) (s : State World) :
  match run st s with
  | (inl _, _) => False
  | (inr st', s') =>
      ((recipient st' = recipient st /\ amount st' = amount st
        /\ status_type (status st') = Some StatusError)
       \/ (recipient st' = "" /\ amount st' = "" /\ isLoading st' = false
           /\ status_type (status st') = Some StatusSuccess
           /\ exists before, trace s' = before ++ [EvCall "confirmTransaction" None]))
      /\ (connected = false \/ publicKey = None -> s' = s)
  end.
Proof.
  unfold handleSendSol.
  destruct connected; [destruct publicKey as [pk|]|];
    try (cbn; split; [left; repeat split | reflexivity]).
  destruct (validateInputs_fields st) as (Hr & Ha & Hl & Hbad & Hgood).
  destruct (validateInputs newPublicKey st) as [[|] st1]; cbn [fst snd negb] in *.
  - destruct (Hgood eq_refl) as [-> [key Hk]].
    unfold tryCatch, bind, call, lift, consoleError, throw, ret.
    cbn [recipient amount setStatus setIsLoading isLoading status].
    rewrite Hk.
    destruct (conn_getBalance connection pk (world s)) as [[e | balance] w]; cbn;
      [split; [left; repeat split | intros [|]; discriminate]|].
    destruct (balance <? StringToNumber (amount st) * LAMPORTS_PER_SOL)%float; cbn;
      [split; [left; repeat split | intros [|]; discriminate]|].
    destruct (systemTransfer pk key _) as [e | ix]; cbn;
      [split; [left; repeat split | intros [|]; discriminate]|].
    destruct (conn_getLatestBlockhash connection w) as [[e | blockhash] w2]; cbn;
      [split; [left; repeat split | intros [|]; discriminate]|].
    destruct (walletSendTransaction _ w2) as [[e | signature] w3]; cbn;
      [split; [left; repeat split | intros [|]; discriminate]|].
    destruct (conn_confirmTransaction connection signature "confirmed" w3)
      as [[e | []] w4]; cbn;
      [split; [left; repeat split | intros [|]; discriminate]|].
    split; [right; repeat split | intros [|]; discriminate].
    eexists. reflexivity.
  - cbn. split; [left; repeat split; auto | intros [|]; discriminate].
Qed.

(** X11.  With a connected wallet and valid inputs, a balance below the
    amount asked for stops the handler after the one request for the
    balance: nothing is built or sent, the failure is written to the
    console, and the form shows ["Insufficient balance"] with its fields
    kept.  The test is [balance < lamports]: the fee is not counted. *)
Theorem transfer_stops_at_insufficient_balance (pk : PublicKey) (st : FormState)
    (s : State World) (balance : float) (w : World) :
  connected = true -> publicKey = Some pk ->
  fst (validateInputs newPublicKey st) = true ->
  conn_getBalance connection pk (world s) = (inr balance, w) ->
  (balance <? StringToNumber (amount st) * LAMPORTS_PER_SOL)%float = true ->
  run st s
  = (inr (mkForm (recipient st) (amount st) false
            (mkStatus (Some StatusError) "Insufficient balance")),
     mkState w (trace s ++ [EvCall "getBalance" None;
                            EvConsoleError "Transaction failed:"
                              (ErrorObj "Insufficient balance")])).
Proof.
  intros Hc Hp Hv Hb Hlt. unfold handleSendSol. rewrite Hc, Hp.
  destruct (validateInputs_fields st) as (_ & _ & _ & _ & Hgood).
  destruct (Hgood Hv) as [Est [key Hk]].
  destruct (validateInputs newPublicKey st) as [valid st1]. cbn in Hv, Est. subst valid st1.
  cbn [negb]. unfold tryCatch, bind, call, lift, consoleError, throw, ret.
  cbn [recipient amount setStatus setIsLoading isLoading status].
  rewrite Hk, Hb. cbn. rewrite Hlt. cbn. rewrite <- app_assoc. reflexivity.
Qed.

(** X12.  With a connected wallet and valid inputs, when the balance is
    not below the amount and every call is answered, the handler asks for
    the balance, asks for the latest blockhash, hands the wallet one
    transaction holding the transfer with the [blockhash] field of the
    answer and the sender as fee payer, waits for the confirmation of the signature returned,
    and only then clears the form and reports success with the amount
    text and the first 8 code units of the signature. *)
Theorem transfer_success_clears_form (pk key : PublicKey) (st : FormState)
    (s : State World) (balance : float) (ix : Instruction)
    (latest : BlockhashWithExpiryBlockHeight) (signature : string)
    (w w2 w3 w4 : World) :
  connected = true -> publicKey = Some pk ->
  fst (validateInputs newPublicKey st) = true ->
  newPublicKey (recipient st) = inr key ->
  conn_getBalance connection pk (world s) = (inr balance, w) ->
  (balance <? StringToNumber (amount st) * LAMPORTS_PER_SOL)%float = false ->
  systemTransfer pk key (StringToNumber (amount st) * LAMPORTS_PER_SOL)%float = inr ix ->
  conn_getLatestBlockhash connection w = (inr latest, w2) ->
  walletSendTransaction (mkSdkTransaction [ix] (Some (lb_blockhash latest)) (Some pk)) w2
  = (inr signature, w3) ->
  conn_confirmTransaction connection signature "confirmed" w3 = (inr tt, w4) ->
  run st s
  = (inr (mkForm "" "" false
            (mkStatus (Some StatusSuccess)
               ("Successfully sent " ++ amount st ++ " SOL! Transaction: "
                ++ slice signature 0 (Some 8) ++ "..."))),
     mkState w4 (trace s ++ [EvCall "getBalance" None; EvCall "getLatestBlockhash" None;
                             EvCall "sendTransaction" None;
                             EvCall "confirmTransaction" None])).
Proof.
  intros Hc Hp Hv Hk Hb Hge Hix Hh Hsend Hconf. unfold handleSendSol. rewrite Hc, Hp.
  destruct (validateInputs_fields st) as (_ & _ & _ & _ & Hgood).
  destruct (Hgood Hv) as [Est _].
  destruct (validateInputs newPublicKey st) as [valid st1]. cbn in Hv, Est. subst valid st1.
  cbn [negb]. unfold tryCatch, bind, call, lift, consoleError, throw, ret.
  cbn [recipient amount setStatus setIsLoading isLoading status].
  rewrite Hk, Hb. cbn. rewrite Hge. cbn. rewrite Hix, Hh. cbn. rewrite Hsend. cbn.
  rewrite Hconf. cbn. rewrite <- !app_assoc. reflexivity.
Qed.
End Handler.

Import Fixtures.

(** X11 on a wallet holding 2 display units, asked to send 5. *)
Lemma transfer_stops_at_insufficient_balance_witness :
  handleSendSol Base58.newPublicKey buildTransfer formConnection true (Some "me")
    walletSend (form systemProgram "5") start
  = (inr (mkForm systemProgram "5" false
            (mkStatus (Some StatusError) "Insufficient balance")),
     mkState tt [EvCall "getBalance" None;
                 EvConsoleError "Transaction failed:" (ErrorObj "Insufficient balance")]).
Proof.
  exact (transfer_stops_at_insufficient_balance Base58.newPublicKey buildTransfer
           formConnection true (Some "me") walletSend "me" (form systemProgram "5")
           start 2000000000%float tt eq_refl eq_refl eq_refl eq_refl eq_refl).
Defined.

(** X12 on the same wallet, asked to send all of its 2 display units. *)
Lemma transfer_success_clears_form_witness :
  handleSendSol Base58.newPublicKey buildTransfer formConnection true (Some "me")
    walletSend (form systemProgram "2") start
  = (inr (mkForm "" "" false
            (mkStatus (Some StatusSuccess)
               "Successfully sent 2 SOL! Transaction: 5ig...")),
     mkState tt [EvCall "getBalance" None; EvCall "getLatestBlockhash" None;
                 EvCall "sendTransaction" None; EvCall "confirmTransaction" None]).
Proof.
  exact (transfer_success_clears_form Base58.newPublicKey buildTransfer
           formConnection true (Some "me") walletSend "me" systemProgram
           (form systemProgram "2") start 2000000000%float tt
           (mkLatestBlockhash "hash" 250) "5ig" tt tt tt tt
           eq_refl eq_refl eq_refl eq_refl eq_refl eq_refl eq_refl eq_refl eq_refl
           eq_refl).
Defined.

End TransferFacts.

Module RecordFacts.
Import JSString JSNumber Sdk TransactionList TransactionSpec RecordSpec FloatFacts
  RoundingFacts FloatOrderFacts DivisionFacts.
Local Open Scope list_scope.

Lemma skipn_head {A : Type} (l : list A) :
  forall (i : nat) (x : A) (rest : list A),
    skipn i l = x :: rest -> nth_error l i = Some x /\ skipn (S i) l = rest.
Proof.
  induction l as [|a l IH]; intros [|i] x rest H; cbn in *; try discriminate.
  - injection H as -> ->. split; reflexivity.
  - apply IH, H.
Qed.

Lemma skipn_nil {A : Type} (l : list A) :
  forall i : nat, skipn i l = [] -> nth_error l i = None.
Proof.
  induction l as [|a l IH]; intros [|i] H; cbn in *; try discriminate; try reflexivity.
  apply IH, H.
Qed.

(** Mapping with the index into [signatures] pairs the elements with the
    signatures from that index on. *)
Lemma mapWithIndex_combine {A B : Type} (g : ConfirmedSignatureInfo -> A -> B)
    (signatures : list ConfirmedSignatureInfo) (xs : list A) :
  forall (i : nat) (rest : list ConfirmedSignatureInfo),
    skipn i signatures = rest ->
    mapWithIndex (fun x index => option_map (fun s => g s x) (nth_error signatures index))
      i xs
    = if (List.length xs <=? List.length rest)%nat
      then Some (map (fun p => g (fst p) (snd p)) (combine rest xs))
      else None.
Proof.
  induction xs as [|x xs IH]; intros i rest H; cbn [mapWithIndex].
  - destruct rest; reflexivity.
  - destruct rest as [|s rest].
    + rewrite (skipn_nil _ _ H). reflexivity.
    + destruct (skipn_head _ _ _ _ H) as [E Hrest]. rewrite E. cbn [option_map].
      rewrite (IH (S i) rest Hrest). cbn [List.length Nat.leb combine map fst snd].
      destruct (List.length xs <=? List.length rest)%nat; reflexivity.
Qed.

(** The fields of a record that are copied from the signature info and
    from the wallet. *)
Lemma record_copied_fields (publicKey : string) (sig : ConfirmedSignatureInfo)
    (tx : ParsedTransactionWithMeta) :
  signature (parseTransaction publicKey sig tx) = sig_signature sig
  /\ blockTime (parseTransaction publicKey sig tx) = sig_blockTime sig
  /\ from (parseTransaction publicKey sig tx) = Some publicKey
  /\ to (parseTransaction publicKey sig tx) = Some "Unknown".
Proof.
  unfold parseTransaction.
  repeat match goal with |- context [if ?c then _ else _] => destruct c end;
    repeat split.
Qed.

(** X13.  The records shown are built from the transactions that are not
    null, in order, the k-th of them with the k-th signature of the list:
    a transaction carries its own signature only when no transaction
    before it is null.  With more such transactions than signatures,
    reading the missing signature throws. *)
Theorem records_pair_kept_with_leading_signatures (publicKey : string)
    (signatures : list ConfirmedSignatureInfo)
    (txs : list (option ParsedTransactionWithMeta)) :
  ((List.length (nonNull txs) <= List.length signatures)%nat ->
   parsedTransactions publicKey signatures txs
   = Some (map (fun p => parseTransaction publicKey (fst p) (snd p))
             (combine signatures (nonNull txs))))
  /\ ((List.length signatures < List.length (nonNull txs))%nat ->
      parsedTransactions publicKey signatures txs = None)
  /\ (forall records,
      parsedTransactions publicKey signatures txs = Some records ->
      map signature records
      = map sig_signature (firstn (List.length (nonNull txs)) signatures)).
Proof.
  assert (E : parsedTransactions publicKey signatures txs
              = if (List.length (nonNull txs) <=? List.length signatures)%nat
                then Some (map (fun p => parseTransaction publicKey (fst p) (snd p))
                             (combine signatures (nonNull txs)))
                else None).
  { unfold parsedTransactions. fold (nonNull txs).
    apply (mapWithIndex_combine (parseTransaction publicKey) signatures (nonNull txs)
             0%nat signatures eq_refl). }
  rewrite E. split; [|split].
  - intros H. apply Nat.leb_le in H. now rewrite H.
  - intros H. apply Nat.leb_gt in H. now rewrite H.
  - intros records. destruct (Nat.leb_spec (List.length (nonNull txs))
                                (List.length signatures)) as [Hle | Hgt]; [|discriminate].
    intros [= <-]. rewrite map_map. cbn [signature parseTransaction].
    generalize (nonNull txs) signatures Hle. clear.
    induction l as [|t l IH]; intros [|s sigs] Hle; cbn in *; try reflexivity; try lia.
    f_equal; [apply record_copied_fields | apply IH; lia].
Qed.

Lemma records_pair_kept_with_leading_signatures_witness :
  option_map (map signature)
    (parsedTransactions "me"
       [mkSignatureInfo "a" 1 None; mkSignatureInfo "b" 2 None]
       [None; Some (mkParsedTransaction None [])])
  = Some ["a"].
Proof.
  rewrite (proj1 (records_pair_kept_with_leading_signatures "me"
                    [mkSignatureInfo "a" 1 None; mkSignatureInfo "b" 2 None]
                    [None; Some (mkParsedTransaction None [])])).
  - reflexivity.
  - cbn. lia.
Defined.

(** X14.  A transaction whose [meta] is missing is shown as a successful
    transfer of amount 0 with fee 0 in ["SOL"]; its type is [unknown],
    or [stake] when an instruction carries the stake marker. *)
Theorem record_without_meta (publicKey : string) (sig : ConfirmedSignatureInfo)
    (instructions : list ParsedInstruction) :
  let tx := mkParsedTransaction None instructions in
  let record := parseTransaction publicKey sig tx in
  amount record = 0%float
  /\ fee record = 0%float
  /\ status record = success
  /\ token record = "SOL"
  /\ type record = if hasStakeMarker tx then stake else unknown.
Proof.
  cbv zeta. unfold parseTransaction, hasStakeMarker. cbn [tx_meta tx_instructions].
  destruct (existsb _ instructions); repeat split.
Qed.

(** [|x| / 1e9] is never below zero. *)
Lemma abs_quotient_not_negative (x : float) : (abs x / 1e9 <? 0)%float = false.
Proof.
  rewrite ltb_spec, div_spec, abs_spec, Prim2SF_zero, TransactionListFacts.Prim2SF_1e9.
  assert (H0 : SFabs (Prim2SF x) = S754_nan
               \/ SFleb (S754_zero false) (SFabs (Prim2SF x)) = true)
    by (destruct (Prim2SF x) as [s | s | | s m e]; cbn; auto).
  destruct H0 as [-> | H0]; [reflexivity|].
  destruct (SFdiv_positive_sign _ 8388608000000000 (-23) H0) as [-> | Hq];
    [reflexivity|].
  clear H0. unfold SFleb in Hq. unfold SFltb.
  rewrite (SFcompare_antisym (S754_zero false)).
  destruct (SFcompare (S754_zero false) _) as [[]|]; try discriminate; reflexivity.
Qed.

(** The magnitude of a positive number is the number. *)
Lemma abs_of_positive (x : float) : (0 <? x)%float = true -> abs x = x.
Proof.
  rewrite ltb_spec, Prim2SF_zero. intros H. apply Prim2SF_inj. rewrite abs_spec.
  destruct (Prim2SF x) as [s | s | | s m e]; try destruct s; try discriminate;
    reflexivity.
Qed.

(** X15.  The amount of a record is computed from the balances of the
    first account (and, for a negative change, the fee): it is never
    below zero, the token-balance entries never enter it (a [swap] shows
    the change in base units under the label ["TOKEN"]), and for a
    positive change it is the change divided by [1e9], the fee not being
    taken off. *)
Theorem amount_ignores_token_balances (publicKey : string)
    (sig : ConfirmedSignatureInfo) (tx : ParsedTransactionWithMeta)
    (tokens : option (list TokenBalance)) :
  (amount (parseTransaction publicKey sig tx) <? 0)%float = false
  /\ amount (parseTransaction publicKey sig (withTokenBalances tx tokens))
     = amount (parseTransaction publicKey sig tx)
  /\ (tokenEntriesOf tx <> [] -> token (parseTransaction publicKey sig tx) = "TOKEN")
  /\ (tokenEntriesOf tx = [] -> token (parseTransaction publicKey sig tx) = "SOL")
  /\ ((0 <? balanceChangeOf tx)%float = true ->
      amount (parseTransaction publicKey sig tx) = (balanceChangeOf tx / 1e9)%float).
Proof.
  assert (Ha : amount (parseTransaction publicKey sig tx)
               = if (0 <? balanceChangeOf tx)%float then (abs (balanceChangeOf tx) / 1e9)%float
                 else if (balanceChangeOf tx <? 0)%float
                      then (abs (balanceChangeOf tx + feeOf tx) / 1e9)%float
                      else (abs (balanceChangeOf tx) / 1e9)%float).
  { unfold parseTransaction. fold (balanceChangeOf tx). fold (feeOf tx).
    repeat match goal with |- context [if ?c then _ else _] => destruct c end;
      reflexivity. }
  split; [|split; [|split; [|split]]].
  - rewrite Ha.
    repeat match goal with |- context [if ?c then _ else _] => destruct c end;
      apply abs_quotient_not_negative.
  - unfold parseTransaction, withTokenBalances. cbn [tx_meta tx_instructions].
    destruct (tx_meta tx) as [m|]; cbn [option_map firstOf meta_fee meta_preBalances
                                         meta_postBalances];
      repeat match goal with |- context [if ?c then _ else _] => destruct c end;
      reflexivity.
  - intros Hne. unfold parseTransaction. fold (tokenEntriesOf tx).
    destruct (tokenEntriesOf tx) as [|t l]; [congruence|].
    cbn [List.length Z.of_nat Z.ltb Z.compare].
    repeat match goal with |- context [if ?c then _ else _] => destruct c end;
      reflexivity.
  - intros He. unfold parseTransaction. fold (tokenEntriesOf tx). rewrite He.
    cbn [List.length Z.of_nat Z.ltb Z.compare].
    repeat match goal with |- context [if ?c then _ else _] => destruct c end;
      reflexivity.
  - intros Hpos. rewrite Ha, Hpos. now rewrite abs_of_positive.
Qed.

End RecordFacts.

Module FetchFacts.
Import JSString JSNumber Effects Effects.Notations Sdk.

Section ListComponent.
Import TransactionList.
Context {World PublicKey AccountInfo SdkTransaction Signer
         TransactionResponse EpochInfo : Type}.
Variable connection : Connection World PublicKey AccountInfo SdkTransaction
                        Signer TransactionResponse EpochInfo.
Variable getParsedTransactions :
  list string -> Oracle World (list (option ParsedTransactionWithMeta)).
Variable publicKey : option PublicKey.
Variable connected : bool.
Variable limit : float.
Variable keyToString : PublicKey -> string.

(** X16.  [fetchTransactions] never throws.  Without a connected wallet
    it does nothing at all.  Otherwise it ends with [loading] reset, and
    either both requests were answered and the list is replaced by the
    records of the answer, with no error shown, or the list is left as it
    was, the error is ["Failed to fetch transactions"] whatever failed,
    and the failure was written to the console. *)
Theorem fetch_failure_keeps_list (st : ListState) (s : State World) :
  match fetchTransactions connection getParsedTransactions publicKey connected limit
          keyToString st s with
  | (inl _, _) => False
  | (inr st', s') =>
      match publicKey, connected with
      | Some pk, true =>
          loading st' = false
          /\ ((error st' = None
               /\ (exists signatures txs w1,
                      conn_getSignaturesForAddress connection pk limit (world s)
                      = (inr signatures, w1)
                      /\ getParsedTransactions (map sig_signature signatures) w1
                         = (inr txs, world s')
                      /\ parsedTransactions (keyToString pk) signatures txs
                         = Some (transactions st'))
               /\ trace s' = (trace s ++ [EvCall "getSignaturesForAddress" None;
                                          EvCall "getParsedTransactions" None])%list)
              \/ (error st' = Some "Failed to fetch transactions"
                  /\ transactions st' = transactions st
                  /\ exists fault before,
                       trace s'
                       = (before ++ [EvConsoleError "Transaction fetch error:" fault])%list))
      | _, _ => st' = st /\ s' = s
      end
  end.
Proof.
  unfold fetchTransactions.
  destruct publicKey as [pk|]; [destruct connected|]; try (cbn; split; reflexivity).
  unfold tryCatch, bind, call, lift, consoleError, throw, ret.
  destruct (conn_getSignaturesForAddress connection pk limit (world s))
    as [[fault | signatures] w1] eqn:Hs; cbn.
  - split; [reflexivity|]. right. repeat split. eexists _, _. reflexivity.
  - destruct (getParsedTransactions (map sig_signature signatures) w1)
      as [[fault | txs] w2] eqn:Ht; cbn.
    + split; [reflexivity|]. right. repeat split. eexists _, _. reflexivity.
    + destruct (parsedTransactions (keyToString pk) signatures txs) as [records|] eqn:Hp;
        cbn.
      * split; [reflexivity|]. left. split; [reflexivity|]. split.
        -- exists signatures, txs, w1. repeat split; assumption.
        -- rewrite <- app_assoc. reflexivity.
      * split; [reflexivity|]. right. repeat split. eexists _, _. reflexivity.
Qed.
End ListComponent.

Section BalanceComponent.
Import BalanceDisplay.
Context {World PublicKey AccountInfo SdkTransaction Signer
         TransactionResponse EpochInfo : Type}.
Variable connection : Connection World PublicKey AccountInfo SdkTransaction
                        Signer TransactionResponse EpochInfo.
Variable publicKey : option PublicKey.
Variable connected : bool.

(** X17.  [fetchBalance] never throws.  Without a connected wallet it
    clears the balance and the error and calls nothing.  Otherwise it
    makes the one request and ends with [loading] reset: when the request
    is answered, the balance is the answer divided by [1e9], no error is
    kept, and the card shows the formatted balance followed by [" SOL"];
    when it fails, the failure is written to the console, the balance
    loaded before is kept, and the card shows ["Error"] instead of it. *)
Theorem balance_fetch_outcome (st : DisplayState) (s : State World) :
  match fetchBalance connection publicKey connected st s with
  | (inl _, _) => False
  | (inr st', s') =>
      match publicKey, connected with
      | Some pk, true =>
          loading st' = false
          /\ ((exists lamports,
                  conn_getBalance connection pk (world s) = (inr lamports, world s')
                  /\ balance st' = Some (lamports / LAMPORTS_PER_SOL)%float
                  /\ error st' = None
                  /\ trace s' = (trace s ++ [EvCall "getBalance" None])%list
                  /\ balanceLine connected st'
                     = formatBalance (lamports / LAMPORTS_PER_SOL) ++ " SOL")
              \/ (exists fault,
                     conn_getBalance connection pk (world s) = (inl fault, world s')
                     /\ balance st' = balance st
                     /\ error st' = Some "Failed to fetch balance"
                     /\ trace s'
                        = (trace s ++ [EvCall "getBalance" (Some fault);
                                       EvConsoleError "Balance fetch error:" fault])%list
                     /\ balanceLine connected st' = "Error"))
      | _, _ =>
          balance st' = None /\ error st' = None /\ loading st' = loading st /\ s' = s
      end
  end.
Proof.
  unfold fetchBalance.
  destruct publicKey as [pk|]; [destruct connected|]; try (cbn; repeat split).
  unfold tryCatch, bind, call, lift, consoleError, throw, ret.
  destruct (conn_getBalance connection pk (world s)) as [[fault | lamports] w1] eqn:Hb;
    cbn.
  - split; [reflexivity|]. right. exists fault. repeat split.
    rewrite <- app_assoc. reflexivity.
  - split; [reflexivity|]. left. exists lamports. repeat split.
Qed.
End BalanceComponent.


End FetchFacts.
